(** * qdPDF: a shallow embedding of [qdpdf.PDFWriter] and its specification

    The source is Python 2: [str] is a byte string, [int]/[long] are
    unbounded integers, and an exception leaves every attribute assignment
    made before it in place.  The embedding therefore uses

    - [bytes := list byte] for [str],
    - [Z] for Python integers,
    - IEEE-754 binary64 ([SpecFloat], precision 53, emax 1024) for [float],
    - a state monad over the caller's file object and the writer's
      attributes whose result is either a value or a raised exception;
      the state survives a raise. *)

From Stdlib Require Import String Ascii ZArith NArith Bool Lia List.
From Stdlib Require Import Strings.Byte.
From Stdlib Require Import SpecFloat.
Import ListNotations.
Local Open Scope Z_scope.

(** ** Byte strings and the [%] formatting operator *)

Definition bytes := list byte.

Definition lit (s : string) : bytes := list_byte_of_string s.

Definition nl : bytes := [Byte.x0a].

(** [len(s)] *)
Definition len {A : Type} (l : list A) : Z := Z.of_nat (length l).

Definition digit_byte (d : N) : byte :=
  match d with
  | 0%N => Byte.x30 | 1%N => Byte.x31 | 2%N => Byte.x32 | 3%N => Byte.x33
  | 4%N => Byte.x34 | 5%N => Byte.x35 | 6%N => Byte.x36 | 7%N => Byte.x37
  | 8%N => Byte.x38 | _ => Byte.x39
  end.

(** Decimal digits of [n], most significant first, pushed in front of [acc].
    A number has at most [log2 n + 1] decimal digits, which bounds the
    recursion. *)
Fixpoint digits_aux (fuel : nat) (n : N) (acc : bytes) : bytes :=
  match fuel with
  | O => acc
  | S k =>
      let acc' := digit_byte (n mod 10) :: acc in
      if (n / 10 =? 0)%N then acc' else digits_aux k (n / 10) acc'
  end.

Definition decimal (n : N) : bytes :=
  digits_aux (S (N.to_nat (N.log2 n))) n [].

(** ['%s' % z] and ['%d' % z] for an integer [z]. *)
Definition str_int (z : Z) : bytes :=
  match z with
  | Zneg p => Byte.x2d :: decimal (Npos p)
  | _ => decimal (Z.to_N z)
  end.

(** ['%0<width>d' % z]: the sign, then zeros up to the minimum width, then
    the digits; a longer number is printed in full. *)
Definition fmt_0d (width : nat) (z : Z) : bytes :=
  let ds := decimal (Z.to_N (Z.abs z)) in
  match z with
  | Zneg _ => Byte.x2d :: repeat Byte.x30 (width - 1 - length ds) ++ ds
  | _ => repeat Byte.x30 (width - length ds) ++ ds
  end.

(** ** Module constants *)

(** JPEG 'start of image' marker *)
Definition SOI : bytes := [Byte.xff; Byte.xd8].
Definition SOI_size : Z := len SOI.

(** probably a safe minimum length *)
Definition min_jpeg_len : Z := 120.

(** how many bytes to copy from image files to the pdf at once *)
Definition buffer_size : Z := 16384.

(** ** Exceptions and the writer monad *)

Inductive exn :=
| ValueError (msg : string)
| RuntimeError (msg : string)
| AssertionError
| IndexError (msg : string)
| AttributeError (msg : string)
| OverflowError (msg : string)
| ZeroDivisionError (msg : string)
| TypeError (msg : string)
| Exhausted.
(** [Exhausted] is not a Python exception: it marks a bounded loop of the
    model running out of steps.  [copy_chunks_total] shows it never
    happens. *)

Inductive result (A : Type) :=
| Ok (a : A)
| Raise (e : exn).
Arguments Ok {A} a.
Arguments Raise {A} e.

(** The output file object of the caller: the position it had when it was
    handed to the writer, and the bytes written to it since. *)
Record sink := { start : N; written : bytes }.

Definition tell (f : sink) : Z := Z.of_N (start f) + len (written f).

Definition write (f : sink) (data : bytes) : sink :=
  {| start := start f; written := written f ++ data |}.

(** What [self._file] refers to: the caller's file object. *)
Inductive fileref := the_file.

Record PDFWriter := {
  _file : option fileref;          (* [None] once closed *)
  last_obj : Z;
  page_refs : list Z;
  obj_offsets : list Z;
  page_count : Z;
  xref_offset : Z;
  xref_size : Z;
  initial_offset : Z;
  catalog_ref : option Z           (* attribute absent until [close] *)
}.

(** The file object lives outside the writer: it still holds the document
    after the writer dropped its reference. *)
Record world := { out : sink; self : PDFWriter }.

Definition M (A : Type) : Type := world -> world * result A.

Definition ret {A : Type} (a : A) : M A := fun wd => (wd, Ok a).

Definition bind {A B : Type} (c : M A) (k : A -> M B) : M B :=
  fun wd =>
    match c wd with
    | (wd', Ok a) => k a wd'
    | (wd', Raise e) => (wd', Raise e)
    end.

Definition raise {A : Type} (e : exn) : M A := fun wd => (wd, Raise e).

Definition lift {A : Type} (r : result A) : M A := fun wd => (wd, r).

Declare Scope py_scope.
Delimit Scope py_scope with py.
Notation "x <- c ;; k" := (bind c (fun x => k))
  (at level 61, c at next level, right associativity) : py_scope.
Notation "c ;; k" := (bind c (fun _ => k))
  (at level 61, right associativity) : py_scope.
Local Open Scope py_scope.

Definition get : M PDFWriter := fun wd => (wd, Ok (self wd)).

Definition modify (f : PDFWriter -> PDFWriter) : M unit :=
  fun wd => ({| out := out wd; self := f (self wd) |}, Ok tt).

(** [assert c] *)
Definition assert (c : bool) : M unit :=
  if c then ret tt else raise AssertionError.

(** Attribute assignments [self.x = v]. *)
Definition set_file (v : option fileref) (s : PDFWriter) : PDFWriter :=
  {| _file := v; last_obj := last_obj s; page_refs := page_refs s;
     obj_offsets := obj_offsets s; page_count := page_count s;
     xref_offset := xref_offset s; xref_size := xref_size s;
     initial_offset := initial_offset s; catalog_ref := catalog_ref s |}.

Definition set_last_obj (v : Z) (s : PDFWriter) : PDFWriter :=
  {| _file := _file s; last_obj := v; page_refs := page_refs s;
     obj_offsets := obj_offsets s; page_count := page_count s;
     xref_offset := xref_offset s; xref_size := xref_size s;
     initial_offset := initial_offset s; catalog_ref := catalog_ref s |}.

Definition set_page_refs (v : list Z) (s : PDFWriter) : PDFWriter :=
  {| _file := _file s; last_obj := last_obj s; page_refs := v;
     obj_offsets := obj_offsets s; page_count := page_count s;
     xref_offset := xref_offset s; xref_size := xref_size s;
     initial_offset := initial_offset s; catalog_ref := catalog_ref s |}.

Definition set_obj_offsets (v : list Z) (s : PDFWriter) : PDFWriter :=
  {| _file := _file s; last_obj := last_obj s; page_refs := page_refs s;
     obj_offsets := v; page_count := page_count s;
     xref_offset := xref_offset s; xref_size := xref_size s;
     initial_offset := initial_offset s; catalog_ref := catalog_ref s |}.

Definition set_page_count (v : Z) (s : PDFWriter) : PDFWriter :=
  {| _file := _file s; last_obj := last_obj s; page_refs := page_refs s;
     obj_offsets := obj_offsets s; page_count := v;
     xref_offset := xref_offset s; xref_size := xref_size s;
     initial_offset := initial_offset s; catalog_ref := catalog_ref s |}.

Definition set_xref_offset (v : Z) (s : PDFWriter) : PDFWriter :=
  {| _file := _file s; last_obj := last_obj s; page_refs := page_refs s;
     obj_offsets := obj_offsets s; page_count := page_count s;
     xref_offset := v; xref_size := xref_size s;
     initial_offset := initial_offset s; catalog_ref := catalog_ref s |}.

Definition set_xref_size (v : Z) (s : PDFWriter) : PDFWriter :=
  {| _file := _file s; last_obj := last_obj s; page_refs := page_refs s;
     obj_offsets := obj_offsets s; page_count := page_count s;
     xref_offset := xref_offset s; xref_size := v;
     initial_offset := initial_offset s; catalog_ref := catalog_ref s |}.

Definition set_initial_offset (v : Z) (s : PDFWriter) : PDFWriter :=
  {| _file := _file s; last_obj := last_obj s; page_refs := page_refs s;
     obj_offsets := obj_offsets s; page_count := page_count s;
     xref_offset := xref_offset s; xref_size := xref_size s;
     initial_offset := v; catalog_ref := catalog_ref s |}.

Definition set_catalog_ref (v : option Z) (s : PDFWriter) : PDFWriter :=
  {| _file := _file s; last_obj := last_obj s; page_refs := page_refs s;
     obj_offsets := obj_offsets s; page_count := page_count s;
     xref_offset := xref_offset s; xref_size := xref_size s;
     initial_offset := initial_offset s; catalog_ref := v |}.

(** [self._file.tell()] and [self._file.write(data)]: an attribute access
    on [None] raises. *)
Definition file_tell : M Z :=
  fun wd =>
    match _file (self wd) with
    | Some the_file => (wd, Ok (tell (out wd)))
    | None => (wd, Raise (AttributeError "'NoneType' object has no attribute 'tell'"))
    end.

Definition file_write (data : bytes) : M unit :=
  fun wd =>
    match _file (self wd) with
    | Some the_file => ({| out := write (out wd) data; self := self wd |}, Ok tt)
    | None => (wd, Raise (AttributeError "'NoneType' object has no attribute 'write'"))
    end.

(** ** Floating point: [float(z)], [x / y], [x * y], [int(x)] *)

Definition prec : Z := 53.
Definition emax : Z := 1024.

Definition rbind {A B : Type} (r : result A) (k : A -> result B) : result B :=
  match r with
  | Ok a => k a
  | Raise e => Raise e
  end.

(** [float(z)]: the nearest double, ties to even; too large an integer
    raises. *)
Definition float_of_int (z : Z) : result spec_float :=
  match binary_normalize prec emax z 0 false with
  | S754_infinity _ =>
      Raise (OverflowError "long int too large to convert to float")
  | f => Ok f
  end.

Definition float_div (x y : spec_float) : result spec_float :=
  match y with
  | S754_zero _ => Raise (ZeroDivisionError "float division by zero")
  | _ => Ok (SFdiv prec emax x y)
  end.

Definition float_mul (x y : spec_float) : spec_float := SFmul prec emax x y.

(** [int(x)]: truncation towards zero. *)
Definition int_of_float (x : spec_float) : result Z :=
  match x with
  | S754_zero _ => Ok 0
  | S754_finite s m e =>
      let a := Z.shiftl (Zpos m) e in
      Ok (if s then - a else a)
  | S754_infinity _ =>
      Raise (OverflowError "cannot convert float infinity to integer")
  | S754_nan => Raise (ValueError "cannot convert float NaN to integer")
  end.

(** ** The payload: a string, or a readable file-like object *)

Record jfile := { jdata : bytes; jpos : nat }.

Definition seek (f : jfile) (offset : nat) : jfile :=
  {| jdata := jdata f; jpos := offset |}.

Definition seek_end (f : jfile) : jfile :=
  {| jdata := jdata f; jpos := length (jdata f) |}.

Definition jtell (f : jfile) : Z := Z.of_nat (jpos f).

(** [f.read(size)]: at most [size] bytes from the current position. *)
Definition read (f : jfile) (size : Z) : bytes * jfile :=
  let chunk := firstn (Z.to_nat size) (skipn (jpos f) (jdata f)) in
  (chunk, {| jdata := jdata f; jpos := (jpos f + length chunk)%nat |}).

Inductive payload :=
| Str (data : bytes)
| FileObj (f : jfile).

Fixpoint bytes_eqb (a b : bytes) : bool :=
  match a, b with
  | [], [] => true
  | x :: a', y :: b' => Byte.eqb x y && bytes_eqb a' b'
  | _, _ => false
  end.

(** ** Methods of [PDFWriter] *)

Definition _check_closed : M unit :=
  s <- get ;;
  match _file s with
  | None => raise (RuntimeError "PDF closed.")
  | Some _ => ret tt
  end.

Definition _save_offset : M unit :=
  _check_closed ;;
  position <- file_tell ;;
  modify (fun s => set_obj_offsets (obj_offsets s ++ [position]) s).

Definition _writeln (data : bytes) : M unit :=
  _check_closed ;;
  file_write data ;;
  file_write nl.

Definition _write_obj (ref : Z) : M unit :=
  _writeln (str_int ref ++ lit " 0 obj").

Definition _write_endobj : M unit :=
  _writeln (lit "endobj").

Definition _pixels_to_points (pixels resolution : Z) : result Z :=
  rbind (float_of_int resolution) (fun fr =>
  rbind (float_of_int pixels) (fun fp =>
  rbind (float_div fp fr) (fun q =>
  rbind (float_of_int 72) (fun c =>    (* 72 postscript points in an inch *)
  int_of_float (float_mul q c))))).

Definition _write_page (ref image_ref contents_ref width_pt height_pt : Z)
  : M unit :=
  _save_offset ;;
  _write_obj ref ;;
  _writeln (lit "<</Type /Page /Parent 1 0 R /Contents "
              ++ str_int contents_ref ++ lit " 0 R") ;;
  _writeln (lit "/Resources <</ProcSet [ /PDF /ImageC ] /XObject <</image "
              ++ str_int image_ref ++ lit " 0 R>> >>") ;;
  _writeln (lit "/MediaBox [0 0 " ++ str_int width_pt ++ lit " "
              ++ str_int height_pt ++ lit "]>>") ;;
  _write_endobj.

(** [for chunk in iter(lambda: jpegdata.read(buffer_size), ''):
       self._file.write(chunk)] *)
Fixpoint copy_chunks (fuel : nat) (src : jfile) : M unit :=
  match fuel with
  | O => raise Exhausted
  | S k =>
      let (chunk, src') := read src buffer_size in
      match chunk with
      | [] => ret tt
      | _ => file_write chunk ;; copy_chunks k src'
      end
  end.

Definition _write_image (ref width_px height_px : Z) (colorspace : bytes)
  (jpegdata : payload) (data_len : Z) (jpeg_file : bool) : M unit :=
  _save_offset ;;
  _write_obj ref ;;
  _writeln (lit "<</Type /XObject /Subtype /Image /Width " ++ str_int width_px
              ++ lit " /Height " ++ str_int height_px
              ++ lit " /ColorSpace " ++ colorspace) ;;
  _writeln (lit "/BitsPerComponent 8 /Filter /DCTDecode /Length "
              ++ str_int data_len ++ lit ">> stream") ;;
  (if jpeg_file then    (* write small chunks to save memory *)
     match jpegdata with
     | FileObj f => copy_chunks (S (length (jdata f))) f ;; _writeln []
     | Str _ => raise (AttributeError "'str' object has no attribute 'read'")
     end
   else
     match jpegdata with
     | Str data => _writeln data
     | FileObj _ =>
         _check_closed ;;
         raise (TypeError "expected a character buffer object")
     end) ;;
  _writeln (lit "endstream") ;;
  _write_endobj.

Definition _write_contents (ref width_pt height_pt : Z) : M unit :=
  let page_contents :=
    lit "q " ++ str_int width_pt ++ lit " 0 0 " ++ str_int height_pt
      ++ lit " 0 0 cm /image Do Q " in
  _save_offset ;;
  _write_obj ref ;;
  _writeln (lit "<</Length " ++ str_int (len page_contents) ++ lit ">> stream") ;;
  _writeln page_contents ;;
  _writeln (lit "endstream") ;;
  _write_endobj.

Definition _write_catalog (ref : Z) : M unit :=
  _save_offset ;;
  _write_obj ref ;;
  _writeln (lit "<</Type /Catalog /Pages 1 0 R>>") ;;
  _write_endobj ;;
  modify (set_catalog_ref (Some ref)).

(** [l[i] = v] *)
Definition list_set (l : list Z) (i : nat) (v : Z) : result (list Z) :=
  if (i <? length l)%nat then Ok (firstn i l ++ v :: skipn (S i) l)
  else Raise (IndexError "list assignment index out of range").

(** [l[i]] *)
Definition list_get (l : list Z) (i : nat) : result Z :=
  match nth_error l i with
  | Some v => Ok v
  | None => Raise (IndexError "list index out of range")
  end.

(** The loop building the [/Kids] text. *)
Definition kids (refs : list Z) : bytes :=
  fold_left (fun page_refs page_ref => page_refs ++ str_int page_ref ++ lit " 0 R ")
    refs [].

Definition _write_page_list : M unit :=
  _check_closed ;;
  s <- get ;;
  assert (page_count s >=? 1) ;;
  assert (page_count s =? len (page_refs s)) ;;
  let page_refs := kids (page_refs s) in
  position <- file_tell ;;
  offsets <- lift (list_set (obj_offsets s) 1 position) ;;
  modify (set_obj_offsets offsets) ;;
  _write_obj 1 ;;
  _writeln (lit "<</Type /Pages /Count " ++ str_int (page_count s)
              ++ lit " /Kids [" ++ page_refs ++ lit "]>>") ;;
  _write_endobj.

Fixpoint for_each {A : Type} (l : list A) (body : A -> M unit) : M unit :=
  match l with
  | [] => ret tt
  | x :: l' => body x ;; for_each l' body
  end.

(** One line of the index: ['%010d %05d %s ' % (offset, revision, status)]. *)
Definition xref_line (offset revision : Z) (status : bytes) : bytes :=
  fmt_0d 10 offset ++ lit " " ++ fmt_0d 5 revision ++ lit " " ++ status ++ lit " ".

Definition _write_xref : M unit :=
  _check_closed ;;
  position <- file_tell ;;
  modify (set_xref_offset position) ;;
  modify (fun s => set_xref_size (last_obj s + 1) s) ;;
  s <- get ;;
  assert (xref_size s >=? 6) ;;    (* a minimal PDF needs 6 objects *)
  assert (xref_size s =? len (obj_offsets s)) ;;
  _writeln (lit "xref") ;;
  _writeln (lit "0 " ++ str_int (xref_size s)) ;;
  for_each (obj_offsets s) (fun offset =>
    let '(revision, status) :=
      if offset =? initial_offset s      (* object 0 *)
      then (65535, lit "f")              (* disabled *)
      else (0, lit "n") in               (* active *)
    _writeln (xref_line offset revision status)).

(** [id] is [str(uuid.uuid4())], a fresh token supplied by the caller of
    the model. *)
Definition _write_trailer (catalog_ref : Z) (id : bytes) : M unit :=
  s <- get ;;
  assert (negb (existsb (Z.eqb 0) [xref_offset s; xref_size s; catalog_ref])) ;;
  _writeln (lit "trailer <</Size " ++ str_int (xref_size s) ++ lit " /Root "
              ++ str_int catalog_ref ++ lit " 0 R /ID [(" ++ id ++ lit ")("
              ++ id ++ lit ")]>>") ;;
  _writeln (lit "startxref " ++ str_int (xref_offset s)) ;;
  _writeln (lit "%%EOF").

(** [PDFWriter(file)].  The binary-data comment line is the literal
    ['%\xFFççç\0'].  The module is declared ISO-8859-1 but
    the file stores each [ç] as the two bytes [C3 A7]; under that coding a
    string literal holds the bytes of the source as they are, so the line
    holds nine bytes: [%], [FF], three times [C3 A7], and [00]. *)
Definition binary_marker : bytes :=
  [Byte.x25; Byte.xff; Byte.xc3; Byte.xa7; Byte.xc3; Byte.xa7; Byte.xc3;
   Byte.xa7; Byte.x00].

Definition __init__ (file : sink) : world * result unit :=
  (_save_offset ;;                                (* for object 0 in xref table *)
   s <- get ;;
   first <- lift (list_get (obj_offsets s) 0) ;;
   modify (set_initial_offset first) ;;
   modify (fun s => set_obj_offsets (obj_offsets s ++ [8]) s) ;;  (* reserved for page list *)
   _writeln (lit "%PDF-1.2") ;;
   _writeln binary_marker)
  {| out := file;
     self := {| _file := Some the_file;
                last_obj := 1;                    (* object 1 reserved for page list *)
                page_refs := [];
                obj_offsets := [];
                page_count := 0;
                xref_offset := 0;
                xref_size := 0;
                initial_offset := 0;              (* assigned right below *)
                catalog_ref := None |} |}.

(** [add_page(jpegdata, width_px, height_px, resolution, grayscale)].
    The geometry arguments are integers and [grayscale] a boolean, so the
    coercions [int(...)] and [bool(...)] are the identity; the defaults are
    [resolution = 72], [grayscale = False]. *)
Definition add_page (jpegdata : payload) (width_px height_px resolution : Z)
  (grayscale : bool) : M unit :=
  let '(jpeg_file, jpegdata, read_soi, data_len) :=
    match jpegdata with
    | FileObj f =>                               (* a file *)
        let f := seek f 0 in
        let (read_soi, f) := read f SOI_size in
        let f := seek_end f in                   (* end of file *)
        let data_len := jtell f in
        let f := seek f 0 in                     (* back to the beginning *)
        (true, FileObj f, read_soi, data_len)
    | Str data =>                                (* a string *)
        (false, Str data, firstn (Z.to_nat SOI_size) data, len data)
    end in
  if negb (bytes_eqb read_soi SOI) then raise (ValueError "Invalid image data.")
  else if data_len <? min_jpeg_len then raise (ValueError "Invalid image length.")
  else if width_px <? 1 then raise (ValueError "Invalid image width.")
  else if height_px <? 1 then raise (ValueError "Invalid image height.")
  else if resolution <? 1 then raise (ValueError "Invalid image resolution.")
  else
    s <- get ;;
    let page_ref := last_obj s + 1 in
    let image_ref := page_ref + 1 in
    let contents_ref := image_ref + 1 in
    modify (set_last_obj contents_ref) ;;
    modify (fun s => set_page_refs (page_refs s ++ [page_ref]) s) ;;
    modify (fun s => set_page_count (page_count s + 1) s) ;;
    width_pt <- lift (_pixels_to_points width_px resolution) ;;
    height_pt <- lift (_pixels_to_points height_px resolution) ;;
    let colorspace :=
      if grayscale then lit "/DeviceGray" else lit "/DeviceRGB" in
    _write_page page_ref image_ref contents_ref width_pt height_pt ;;
    _write_image image_ref width_px height_px colorspace jpegdata data_len
      jpeg_file ;;
    _write_contents contents_ref width_pt height_pt.

(** [close()], with the token [uuid.uuid4()] will produce. *)
Definition close (uuid4 : bytes) : M unit :=
  s <- get ;;
  if page_count s <? 1 then raise (RuntimeError "No pages added to PDF.")
  else
    let catalog_ref := last_obj s + 1 in
    modify (set_last_obj catalog_ref) ;;
    _write_catalog catalog_ref ;;
    _write_page_list ;;
    _write_xref ;;
    _write_trailer catalog_ref uuid4 ;;
    modify (set_file None).

(** ** Helpers on an open writer *)

Definition is_open (wd : world) : Prop := _file (self wd) = Some the_file.
Definition is_closed (wd : world) : Prop := _file (self wd) = None.

(** Appending [data] to the file, and recording the current position. *)
Definition emit (wd : world) (data : bytes) : world :=
  {| out := write (out wd) data; self := self wd |}.

Definition record_offset (wd : world) : world :=
  {| out := out wd;
     self := set_obj_offsets (obj_offsets (self wd) ++ [tell (out wd)]) (self wd) |}.

(** ** The text of each object *)

Definition obj_header (ref : Z) : bytes := str_int ref ++ lit " 0 obj" ++ nl.

Definition endobj : bytes := lit "endobj" ++ nl.

Definition page_text (ref image_ref contents_ref width_pt height_pt : Z) : bytes :=
  obj_header ref
    ++ (lit "<</Type /Page /Parent 1 0 R /Contents "
          ++ str_int contents_ref ++ lit " 0 R") ++ nl
    ++ (lit "/Resources <</ProcSet [ /PDF /ImageC ] /XObject <</image "
          ++ str_int image_ref ++ lit " 0 R>> >>") ++ nl
    ++ (lit "/MediaBox [0 0 " ++ str_int width_pt ++ lit " "
          ++ str_int height_pt ++ lit "]>>") ++ nl
    ++ endobj.

Definition image_text (ref width_px height_px : Z) (colorspace data : bytes)
  (data_len : Z) : bytes :=
  obj_header ref
    ++ (lit "<</Type /XObject /Subtype /Image /Width " ++ str_int width_px
          ++ lit " /Height " ++ str_int height_px
          ++ lit " /ColorSpace " ++ colorspace) ++ nl
    ++ (lit "/BitsPerComponent 8 /Filter /DCTDecode /Length "
          ++ str_int data_len ++ lit ">> stream") ++ nl
    ++ data ++ nl
    ++ lit "endstream" ++ nl
    ++ endobj.

Definition page_contents (width_pt height_pt : Z) : bytes :=
  lit "q " ++ str_int width_pt ++ lit " 0 0 " ++ str_int height_pt
    ++ lit " 0 0 cm /image Do Q ".

Definition contents_text (ref width_pt height_pt : Z) : bytes :=
  obj_header ref
    ++ (lit "<</Length " ++ str_int (len (page_contents width_pt height_pt))
          ++ lit ">> stream") ++ nl
    ++ page_contents width_pt height_pt ++ nl
    ++ lit "endstream" ++ nl
    ++ endobj.

Definition catalog_text (ref : Z) : bytes :=
  obj_header ref ++ lit "<</Type /Catalog /Pages 1 0 R>>" ++ nl ++ endobj.

Definition page_list_text (count : Z) (refs : list Z) : bytes :=
  obj_header 1
    ++ (lit "<</Type /Pages /Count " ++ str_int count
          ++ lit " /Kids [" ++ kids refs ++ lit "]>>") ++ nl
    ++ endobj.

(** ** [add_page] in normal form *)

Definition payload_bytes (p : payload) : bytes :=
  match p with
  | Str data => data
  | FileObj f => jdata f
  end.

(** The attribute updates of [add_page] that precede its first write. *)
Definition allocate (wd : world) : world :=
  {| out := out wd;
     self := set_page_count (page_count (self wd) + 1)
               (set_page_refs (page_refs (self wd) ++ [last_obj (self wd) + 1])
                  (set_last_obj (last_obj (self wd) + 1 + 1 + 1) (self wd))) |}.

Definition colorspace_of (grayscale : bool) : bytes :=
  if grayscale then lit "/DeviceGray" else lit "/DeviceRGB".

(** The three objects of one page, written from the world [wd] in which the
    identifiers were just allocated. *)
Definition write_objects (wd : world) (page_ref : Z) (data : bytes)
  (width_px height_px width_pt height_pt : Z) (grayscale : bool) : world :=
  emit (record_offset
    (emit (record_offset
      (emit (record_offset wd)
         (page_text page_ref (page_ref + 1) (page_ref + 1 + 1) width_pt height_pt)))
      (image_text (page_ref + 1) width_px height_px (colorspace_of grayscale)
         data (len data))))
    (contents_text (page_ref + 1 + 1) width_pt height_pt).

Definition add_page_outcome (p : payload) (width_px height_px resolution : Z)
  (grayscale : bool) (wd : world) : world * result unit :=
  if negb (bytes_eqb (firstn 2 (payload_bytes p)) SOI)
  then (wd, Raise (ValueError "Invalid image data."))
  else if len (payload_bytes p) <? min_jpeg_len
  then (wd, Raise (ValueError "Invalid image length."))
  else if width_px <? 1 then (wd, Raise (ValueError "Invalid image width."))
  else if height_px <? 1 then (wd, Raise (ValueError "Invalid image height."))
  else if resolution <? 1
  then (wd, Raise (ValueError "Invalid image resolution."))
  else
    match _pixels_to_points width_px resolution with
    | Raise e => (allocate wd, Raise e)
    | Ok width_pt =>
        match _pixels_to_points height_px resolution with
        | Raise e => (allocate wd, Raise e)
        | Ok height_pt =>
            match _file (self wd) with
            | None => (allocate wd, Raise (RuntimeError "PDF closed."))
            | Some _ =>
                (write_objects (allocate wd) (last_obj (self wd) + 1)
                   (payload_bytes p) width_px height_px width_pt height_pt
                   grayscale, Ok tt)
            end
        end
    end.

(** ** [close] on an open writer *)

(** Rebinding attributes of [self]. *)
Definition upd (f : PDFWriter -> PDFWriter) (wd : world) : world :=
  {| out := out wd; self := f (self wd) |}.

(** One entry of the index, and the whole section. *)
Definition xref_entry (initial offset : Z) : bytes :=
  (if offset =? initial
   then xref_line offset 65535 (lit "f")
   else xref_line offset 0 (lit "n")) ++ nl.

Definition xref_text (initial size : Z) (offsets : list Z) : bytes :=
  lit "xref" ++ nl
    ++ (lit "0 " ++ str_int size) ++ nl
    ++ flat_map (xref_entry initial) offsets.

Definition trailer_text (size catalog_ref : Z) (id : bytes) (xref_pos : Z)
  : bytes :=
  (lit "trailer <</Size " ++ str_int size ++ lit " /Root "
     ++ str_int catalog_ref ++ lit " 0 R /ID [(" ++ id ++ lit ")("
     ++ id ++ lit ")]>>") ++ nl
    ++ (lit "startxref " ++ str_int xref_pos) ++ nl
    ++ lit "%%EOF" ++ nl.

(** The ledger with slot 1 overwritten. *)
Definition backpatch (offsets : list Z) (position : Z) : list Z :=
  firstn 1 offsets ++ position :: skipn 2 offsets.

(** The final world of a successful [close]. *)
Definition closed_world (uuid4 : bytes) (wd : world) : world :=
  let catalog := last_obj (self wd) + 1 in
  let w1 := upd (set_last_obj catalog) wd in
  let w2 := upd (set_catalog_ref (Some catalog))
              (emit (record_offset w1) (catalog_text catalog)) in
  let w3 := emit (upd (set_obj_offsets
                         (backpatch (obj_offsets (self w2)) (tell (out w2)))) w2)
              (page_list_text (page_count (self w2)) (page_refs (self w2))) in
  let w4 := emit (upd (fun s => set_xref_size (last_obj s + 1) s)
                    (upd (set_xref_offset (tell (out w3))) w3))
              (xref_text (initial_offset (self w3)) (last_obj (self w3) + 1)
                 (obj_offsets (self w3))) in
  let w5 := emit w4 (trailer_text (xref_size (self w4)) catalog uuid4
                       (xref_offset (self w4))) in
  upd (set_file None) w5.

(** ** Calls and sessions *)

Record call := {
  c_jpegdata : payload;
  c_width_px : Z;
  c_height_px : Z;
  c_resolution : Z;
  c_grayscale : bool
}.

Definition add_page_call (c : call) : M unit :=
  add_page (c_jpegdata c) (c_width_px c) (c_height_px c) (c_resolution c)
    (c_grayscale c).

(** The argument checks of [add_page]. *)
Definition passes_validation (p : payload) (width_px height_px resolution : Z)
  : bool :=
  bytes_eqb (firstn 2 (payload_bytes p)) SOI
  && (min_jpeg_len <=? len (payload_bytes p))
  && (1 <=? width_px) && (1 <=? height_px) && (1 <=? resolution).

(** Whether the conversion to points yields an integer, and that integer. *)
Definition converts (pixels resolution : Z) : bool :=
  match _pixels_to_points pixels resolution with
  | Ok _ => true
  | Raise _ => false
  end.

Definition points (pixels resolution : Z) : Z :=
  match _pixels_to_points pixels resolution with
  | Ok v => v
  | Raise _ => 0
  end.

(** A valid call passes the argument checks and its dimensions convert to
    points.  [add_page_ok_iff] shows these are exactly the calls that
    return normally on an open writer. *)
Definition valid_call (c : call) : bool :=
  passes_validation (c_jpegdata c) (c_width_px c) (c_height_px c)
    (c_resolution c)
  && converts (c_width_px c) (c_resolution c)
  && converts (c_height_px c) (c_resolution c).

Definition add_pages (cs : list call) : M unit := for_each cs add_page_call.

(** [PDFWriter(file)], the calls [cs] in order, then [close()]. *)
Definition session (file : sink) (cs : list call) (uuid4 : bytes)
  : world * result unit :=
  match __init__ file with
  | (wd, Ok _) => (add_pages cs ;; close uuid4) wd
  | (wd, Raise e) => (wd, Raise e)
  end.

(** The world a valid call leaves behind on an open writer. *)
Definition page_added (c : call) (wd : world) : world :=
  write_objects (allocate wd) (last_obj (self wd) + 1)
    (payload_bytes (c_jpegdata c)) (c_width_px c) (c_height_px c)
    (points (c_width_px c) (c_resolution c))
    (points (c_height_px c) (c_resolution c)) (c_grayscale c).

(** ** Where objects sit in the file *)

(** [text] occupies the file from byte position [offset] on. *)
Definition object_at (f : sink) (offset : Z) (text : bytes) : Prop :=
  exists pre post,
    written f = pre ++ text ++ post /\ offset = Z.of_N (start f) + len pre.

(** The header [<ref> 0 obj] begins at byte position [offset]. *)
Definition header_at (f : sink) (ref offset : Z) : Prop :=
  object_at f offset (obj_header ref).

(** ** The invariant of an open writer *)

(** Identifier of the page object of the [k]-th call (counting from 0). *)
Definition page_id (k : nat) : Z := 2 + 3 * Z.of_nat k.

(** The three objects of call number [k] sit where the ledger says. *)
Definition page_objects_at (f : sink) (offsets : list Z) (k : nat) (c : call)
  : Prop :=
  let width_pt := points (c_width_px c) (c_resolution c) in
  let height_pt := points (c_height_px c) (c_resolution c) in
  let data := payload_bytes (c_jpegdata c) in
  exists o1 o2 o3,
    nth_error offsets (2 + 3 * k) = Some o1
    /\ nth_error offsets (3 + 3 * k) = Some o2
    /\ nth_error offsets (4 + 3 * k) = Some o3
    /\ object_at f o1
         (page_text (page_id k) (page_id k + 1) (page_id k + 1 + 1)
            width_pt height_pt)
    /\ object_at f o2
         (image_text (page_id k + 1) (c_width_px c) (c_height_px c)
            (colorspace_of (c_grayscale c)) data (len data))
    /\ object_at f o3 (contents_text (page_id k + 1 + 1) width_pt height_pt).

(** [Inv cs wd]: [wd] is an open writer on which the calls [cs] have been
    made. *)
Record Inv (cs : list call) (wd : world) : Prop := {
  inv_open : is_open wd;
  inv_initial : Z.of_N (start (out wd)) <= initial_offset (self wd);
  inv_count : page_count (self wd) = len cs;
  inv_refs : page_refs (self wd) = map page_id (seq 0 (length cs));
  inv_last : last_obj (self wd) = 1 + 3 * len cs;
  inv_len : length (obj_offsets (self wd)) = (2 + 3 * length cs)%nat;
  inv_zero : nth_error (obj_offsets (self wd)) 0 = Some (initial_offset (self wd));
  inv_pre : initial_offset (self wd) < tell (out wd);
  inv_hdr : forall i off,
    (2 <= i)%nat -> nth_error (obj_offsets (self wd)) i = Some off ->
    header_at (out wd) (Z.of_nat i) off /\ initial_offset (self wd) < off;
  inv_pages : forall k c,
    nth_error cs k = Some c ->
    page_objects_at (out wd) (obj_offsets (self wd)) k c
}.

Arguments inv_open {cs wd} _.
Arguments inv_initial {cs wd} _.
Arguments inv_count {cs wd} _.
Arguments inv_refs {cs wd} _.
Arguments inv_last {cs wd} _.
Arguments inv_len {cs wd} _.
Arguments inv_zero {cs wd} _.
Arguments inv_pre {cs wd} _.
Arguments inv_hdr {cs wd} _ {i off} _ _.
Arguments inv_pages {cs wd} _ _ _ _.

Definition preamble : bytes := lit "%PDF-1.2" ++ nl ++ binary_marker ++ nl.

(** The world [PDFWriter(file)] starts from. *)
Definition init_world (file : sink) : world :=
  {| out := write file preamble;
     self := {| _file := Some the_file; last_obj := 1; page_refs := [];
                obj_offsets := [tell file; 8]; page_count := 0;
                xref_offset := 0; xref_size := 0;
                initial_offset := tell file; catalog_ref := None |} |}.

(** The texts [page_added] appends, and the positions it records. *)
Definition added_page_text (c : call) (wd : world) : bytes :=
  page_text (last_obj (self wd) + 1) (last_obj (self wd) + 1 + 1)
    (last_obj (self wd) + 1 + 1 + 1)
    (points (c_width_px c) (c_resolution c))
    (points (c_height_px c) (c_resolution c)).

Definition added_image_text (c : call) (wd : world) : bytes :=
  image_text (last_obj (self wd) + 1 + 1) (c_width_px c) (c_height_px c)
    (colorspace_of (c_grayscale c)) (payload_bytes (c_jpegdata c))
    (len (payload_bytes (c_jpegdata c))).

Definition added_contents_text (c : call) (wd : world) : bytes :=
  contents_text (last_obj (self wd) + 1 + 1 + 1)
    (points (c_width_px c) (c_resolution c))
    (points (c_height_px c) (c_resolution c)).

(** What [close] appends to the file of [wd], and the ledger it leaves. *)
Definition final_catalog_text (wd : world) : bytes :=
  catalog_text (last_obj (self wd) + 1).

Definition final_page_list_text (wd : world) : bytes :=
  page_list_text (page_count (self wd)) (page_refs (self wd)).

Definition final_offsets (wd : world) : list Z :=
  backpatch (obj_offsets (self wd) ++ [tell (out wd)])
    (tell (write (out wd) (final_catalog_text wd))).

Definition final_xref_pos (wd : world) : Z :=
  tell (write (write (out wd) (final_catalog_text wd))
          (final_page_list_text wd)).

Definition final_xref_text (wd : world) : bytes :=
  xref_text (initial_offset (self wd)) (last_obj (self wd) + 1 + 1)
    (final_offsets wd).

Definition final_trailer_text (uuid4 : bytes) (wd : world) : bytes :=
  trailer_text (last_obj (self wd) + 1 + 1) (last_obj (self wd) + 1) uuid4
    (final_xref_pos wd).

(** ** Decimal formatting *)

Definition digit_of (b : byte) : option N :=
  let n := Byte.to_N b in
  if ((48 <=? n) && (n <=? 57))%N then Some (n - 48)%N else None.

(** Reading a decimal numeral back, most significant digit first. *)
Fixpoint decimal_value_from (v : N) (l : bytes) : option N :=
  match l with
  | [] => Some v
  | b :: l' =>
      match digit_of b with
      | Some d => decimal_value_from (10 * v + d) l'
      | None => None
      end
  end.

Definition decimal_value (l : bytes) : option N := decimal_value_from 0 l.

(** ** Attributes no helper touches *)

(** A computation that leaves the page count alone, whatever its outcome. *)
Definition keeps_count {A : Type} (c : M A) : Prop :=
  forall wd wd' r, c wd = (wd', r) -> page_count (self wd') = page_count (self wd).

(** A sealed writer: the file reference is gone and pages were added. *)
Definition sealed (wd : world) : Prop :=
  is_closed wd /\ 1 <= page_count (self wd).

(** ** Sessions *)

(** A smallest acceptable payload and a call using it. *)
Definition sample_jpeg : bytes := SOI ++ repeat Byte.x00 118.

Definition sample_call : call :=
  {| c_jpegdata := Str sample_jpeg; c_width_px := 800; c_height_px := 600;
     c_resolution := 150; c_grayscale := false |}.

Definition sample_call_2 : call :=
  {| c_jpegdata := FileObj {| jdata := sample_jpeg; jpos := 7 |};
     c_width_px := 1508; c_height_px := 1376;
     c_resolution := 72; c_grayscale := true |}.

Definition empty_file : sink := {| start := 0; written := [] |}.

(** The entries of the index, one per ledger slot. *)
Definition xref_entries (initial : Z) (offsets : list Z) : list bytes :=
  map (xref_entry initial) offsets.

(** A closed writer: the one-page session with [sample_call]. *)
Definition closed_sample : world :=
  fst (session empty_file [sample_call] (lit "token")).

(** The worlds reached after a successful [close], by any further calls. *)
Inductive after_close : world -> Prop :=
| after_close_now uuid4 wd0 wd :
    close uuid4 wd0 = (wd, Ok tt) -> after_close wd
| after_add_page p width_px height_px resolution grayscale wd wd' r :
    after_close wd ->
    add_page p width_px height_px resolution grayscale wd = (wd', r) ->
    after_close wd'
| after_close_again uuid4 wd wd' r :
    after_close wd -> close uuid4 wd = (wd', r) -> after_close wd'.

(** ** The ledger and the last allocated identifier *)

(** The worlds reached from construction by calls that return normally or
    raise before they allocate an identifier: a [ValueError] of [add_page],
    the empty-document error of [close]. *)
Inductive reachable : world -> Prop :=
| reach_init file : reachable (fst (__init__ file))
| reach_add_page p width_px height_px resolution grayscale wd wd' :
    reachable wd ->
    add_page p width_px height_px resolution grayscale wd = (wd', Ok tt) ->
    reachable wd'
| reach_close uuid4 wd wd' :
    reachable wd -> close uuid4 wd = (wd', Ok tt) -> reachable wd'
| reach_rejected p width_px height_px resolution grayscale wd wd' msg :
    reachable wd ->
    add_page p width_px height_px resolution grayscale wd
    = (wd', Raise (ValueError msg)) ->
    reachable wd'
| reach_empty uuid4 wd wd' :
    reachable wd ->
    close uuid4 wd = (wd', Raise (RuntimeError "No pages added to PDF.")) ->
    reachable wd'.

(** The worlds reached from construction by any calls, whatever they return
    or raise. *)
Inductive reached : world -> Prop :=
| reached_init file : reached (fst (__init__ file))
| reached_add_page p width_px height_px resolution grayscale wd wd' r :
    reached wd ->
    add_page p width_px height_px resolution grayscale wd = (wd', r) ->
    reached wd'
| reached_close uuid4 wd wd' r :
    reached wd -> close uuid4 wd = (wd', r) -> reached wd'.

(** What every world reached from construction satisfies: the ledger is
    not ahead of the identifiers, and the writer is either open with as
    many page references as pages, or closed with a page. *)
Definition consistent (wd : world) : Prop :=
  len (obj_offsets (self wd)) <= last_obj (self wd) + 1
  /\ (is_open wd
      /\ 0 <= page_count (self wd)
      /\ page_count (self wd) = len (page_refs (self wd))
      /\ (1 <= length (obj_offsets (self wd)))%nat
      /\ 1 <= last_obj (self wd)
      /\ (1 <= page_count (self wd) -> 4 <= last_obj (self wd))
      \/ is_closed wd /\ 1 <= page_count (self wd)).

(** A file object positioned at byte [10^10] when the writer gets it. *)
Definition far_file : sink := {| start := 10000000000; written := [] |}.

(** ** Double-precision rounding

    [SpecFloat] rounds by shifting a mantissa right while remembering a
    round bit and a sticky bit.  The lemmas below relate that to the
    nearest integer of a quotient, ties to even, for the normal range. *)

(** Nearest integer to V / W, ties to even. *)
Definition rne (V W : Z) : Z :=
  let q := V / W in
  match 2 * (V mod W) ?= W with
  | Lt => q
  | Gt => q + 1
  | Eq => if Z.even q then q else q + 1
  end.

Definition represents (mrs : shr_record) (V W : Z) : Prop :=
  shr_m mrs = V / W
  /\ shr_r mrs = (W <=? 2 * (V mod W))
  /\ shr_s mrs = negb (V mod W =? 0) && negb (2 * (V mod W) =? W).

(** The location of [num / den] within the unit interval. *)
Definition loc_of (num den : Z) : location :=
  if num =? 0 then loc_Exact else loc_Inexact (2 * num ?= den).

(** [m] is the integer nearest to [V / W], the even one when two are. *)
Definition nearest_even (m V W : Z) : Prop :=
  2 * Z.abs (W * m - V) <= W
  /\ (2 * Z.abs (W * m - V) = W -> Z.even m = true).

(** ** Calls whose exceptions the caller catches *)

(** The world after the calls [cs], made in order on [wd]: when a call
    raises, the caller catches the exception and goes on with the writer as
    the failed call left it. *)
Definition after_calls (cs : list call) (wd : world) : world :=
  fold_left (fun w c => fst (add_page_call c w)) cs wd.

(** The call passes the argument checks of [add_page]. *)
Definition accepted (c : call) : bool :=
  passes_validation (c_jpegdata c) (c_width_px c) (c_height_px c)
    (c_resolution c).

(** The call passes the argument checks, and then a dimension fails to
    convert to points. *)
Definition overflows (c : call) : bool :=
  accepted c
  && negb (converts (c_width_px c) (c_resolution c)
           && converts (c_height_px c) (c_resolution c)).

(** An open writer on which [p] calls have passed the argument checks, [v]
    of which went on to write their page. *)
Definition tally (p v : nat) (wd : world) : Prop :=
  is_open wd
  /\ (v <= p)%nat
  /\ page_count (self wd) = Z.of_nat p
  /\ length (page_refs (self wd)) = p
  /\ last_obj (self wd) = 1 + 3 * Z.of_nat p
  /\ length (obj_offsets (self wd)) = (2 + 3 * v)%nat.

(** An open writer whose ledger has fallen behind the identifiers. *)
Definition behind (wd : world) : Prop :=
  is_open wd
  /\ 1 <= page_count (self wd)
  /\ page_count (self wd) = len (page_refs (self wd))
  /\ (1 <= length (obj_offsets (self wd)))%nat
  /\ 4 <= last_obj (self wd)
  /\ len (obj_offsets (self wd)) < last_obj (self wd) + 1.

(** The worlds reached once an [add_page] on a fresh writer has failed to
    convert a dimension, by any further calls. *)
Inductive after_overflow : world -> Prop :=
| overflow_now file cs c :
    overflows c = true ->
    after_overflow (fst (add_page_call c (after_calls cs (fst (__init__ file)))))
| overflow_add_page p width_px height_px resolution grayscale wd wd' r :
    after_overflow wd ->
    add_page p width_px height_px resolution grayscale wd = (wd', r) ->
    after_overflow wd'
| overflow_close uuid4 wd wd' r :
    after_overflow wd -> close uuid4 wd = (wd', r) -> after_overflow wd'.

(** A width no double can hold. *)
Definition huge_call : call :=
  {| c_jpegdata := Str sample_jpeg; c_width_px := 2 ^ 1024;
     c_height_px := 600; c_resolution := 72; c_grayscale := false |}.

(** A call the argument checks reject. *)
Definition bad_call : call :=
  {| c_jpegdata := Str (repeat Byte.x00 10); c_width_px := 800;
     c_height_px := 600; c_resolution := 72; c_grayscale := false |}.

(** ** The body of the document *)

(** The three objects of one call, for the page identifier [ref]. *)
Definition call_page_text (ref : Z) (c : call) : bytes :=
  page_text ref (ref + 1) (ref + 2)
    (points (c_width_px c) (c_resolution c))
    (points (c_height_px c) (c_resolution c)).

Definition call_image_text (ref : Z) (c : call) : bytes :=
  image_text (ref + 1) (c_width_px c) (c_height_px c)
    (colorspace_of (c_grayscale c)) (payload_bytes (c_jpegdata c))
    (len (payload_bytes (c_jpegdata c))).

Definition call_contents_text (ref : Z) (c : call) : bytes :=
  contents_text (ref + 2)
    (points (c_width_px c) (c_resolution c))
    (points (c_height_px c) (c_resolution c)).

(** The objects of the calls [cs], the first of which is page number [k]. *)
Fixpoint pages_text (k : nat) (cs : list call) : bytes :=
  match cs with
  | [] => []
  | c :: cs' =>
      call_page_text (page_id k) c ++ call_image_text (page_id k) c
        ++ call_contents_text (page_id k) c ++ pages_text (S k) cs'
  end.

(** The positions of those objects when the first one begins at [pos]. *)
Fixpoint pages_offsets (pos : Z) (k : nat) (cs : list call) : list Z :=
  match cs with
  | [] => []
  | c :: cs' =>
      let pos_image := pos + len (call_page_text (page_id k) c) in
      let pos_contents := pos_image + len (call_image_text (page_id k) c) in
      pos :: pos_image :: pos_contents
        :: pages_offsets (pos_contents + len (call_contents_text (page_id k) c))
             (S k) cs'
  end.

(** Each position is less than the next. *)
Fixpoint increasing (l : list Z) : Prop :=
  match l with
  | a :: (b :: _) as l' => a < b /\ increasing l'
  | _ => True
  end.

(** ** The payload file object as part of the state

    [add_page] moves the position of a file object it is given.  The
    methods below are [add_page] and [_write_image] for a file payload once
    more, over a state that holds the payload file next to the writer and
    its output file. *)
Module Payload.

Definition P (A : Type) : Type := jfile * world -> (jfile * world) * result A.

Definition ret {A : Type} (a : A) : P A := fun st => (st, Ok a).

Definition bind {A B : Type} (c : P A) (k : A -> P B) : P B :=
  fun st =>
    match c st with
    | (st', Ok a) => k a st'
    | (st', Raise e) => (st', Raise e)
    end.

Definition raise {A : Type} (e : exn) : P A := fun st => (st, Raise e).

(** A step of the writer, which leaves the payload file alone. *)
Definition writer {A : Type} (c : M A) : P A :=
  fun st =>
    let (wd', r) := c (snd st) in ((fst st, wd'), r).

(** [jpegdata.seek(offset)], [jpegdata.seek(0, 2)], [jpegdata.tell()] and
    [jpegdata.read(size)]. *)
Definition jseek (offset : nat) : P unit :=
  fun st => ((seek (fst st) offset, snd st), Ok tt).

Definition jseek_end : P unit :=
  fun st => ((seek_end (fst st), snd st), Ok tt).

Definition jtell : P Z :=
  fun st => (st, Ok (jtell (fst st))).

Definition jread (size : Z) : P bytes :=
  fun st =>
    let (chunk, f') := read (fst st) size in ((f', snd st), Ok chunk).

Declare Scope payload_scope.
Delimit Scope payload_scope with payload.
Notation "x <- c ;; k" := (bind c (fun x => k))
  (at level 61, c at next level, right associativity) : payload_scope.
Notation "c ;; k" := (bind c (fun _ => k))
  (at level 61, right associativity) : payload_scope.

(** [for chunk in iter(lambda: jpegdata.read(buffer_size), ''):
       self._file.write(chunk)]
    Every round but the last reads at least one byte, so the length of the
    file plus one bounds the number of rounds. *)
Fixpoint copy_chunks (fuel : nat) : P unit :=
  match fuel with
  | O => raise Exhausted
  | S k =>
      (chunk <- jread buffer_size ;;
       match chunk with
       | [] => ret tt
       | _ => writer (file_write chunk) ;; copy_chunks k
       end)%payload
  end.

Definition _write_image (ref width_px height_px : Z) (colorspace : bytes)
  (data_len : Z) : P unit :=
  (writer _save_offset ;;
   writer (_write_obj ref) ;;
   writer (_writeln (lit "<</Type /XObject /Subtype /Image /Width "
                       ++ str_int width_px
                       ++ lit " /Height " ++ str_int height_px
                       ++ lit " /ColorSpace " ++ colorspace)) ;;
   writer (_writeln (lit "/BitsPerComponent 8 /Filter /DCTDecode /Length "
                       ++ str_int data_len ++ lit ">> stream")) ;;
   (fun st => copy_chunks (S (length (jdata (fst st)))) st) ;;
   writer (_writeln []) ;;
   writer (_writeln (lit "endstream")) ;;
   writer _write_endobj)%payload.

Definition add_page (width_px height_px resolution : Z) (grayscale : bool)
  : P unit :=
  (jseek 0 ;;
   read_soi <- jread SOI_size ;;
   jseek_end ;;                                  (* end of file *)
   data_len <- jtell ;;
   jseek 0 ;;                                    (* back to the beginning *)
   if negb (bytes_eqb read_soi SOI) then raise (ValueError "Invalid image data.")
   else if data_len <? min_jpeg_len then raise (ValueError "Invalid image length.")
   else if width_px <? 1 then raise (ValueError "Invalid image width.")
   else if height_px <? 1 then raise (ValueError "Invalid image height.")
   else if resolution <? 1 then raise (ValueError "Invalid image resolution.")
   else
     s <- writer get ;;
     let page_ref := last_obj s + 1 in
     let image_ref := page_ref + 1 in
     let contents_ref := image_ref + 1 in
     writer (modify (set_last_obj contents_ref)) ;;
     writer (modify (fun s => set_page_refs (page_refs s ++ [page_ref]) s)) ;;
     writer (modify (fun s => set_page_count (page_count s + 1) s)) ;;
     width_pt <- writer (lift (_pixels_to_points width_px resolution)) ;;
     height_pt <- writer (lift (_pixels_to_points height_px resolution)) ;;
     let colorspace :=
       if grayscale then lit "/DeviceGray" else lit "/DeviceRGB" in
     writer (_write_page page_ref image_ref contents_ref width_pt height_pt) ;;
     _write_image image_ref width_px height_px colorspace data_len ;;
     writer (_write_contents contents_ref width_pt height_pt))%payload.

End Payload.

(** * Properties of the embedding *)

(** ** Byte strings *)

Lemma bytes_eqb_eq (a b : bytes) : bytes_eqb a b = true <-> a = b.
Proof.
  revert b; induction a as [|x a IH]; intros [|y b]; simpl; split;
    try congruence; try discriminate.
  - intros H. apply andb_true_iff in H as [Hx Hab].
    apply Byte.byte_dec_bl in Hx. apply IH in Hab. congruence.
  - intros H. injection H as -> ->. apply andb_true_iff. split.
    + now apply Byte.byte_dec_lb.
    + now apply IH.
Qed.

Lemma len_app {A : Type} (l l' : list A) : len (l ++ l') = len l + len l'.
Proof. unfold len. rewrite length_app. lia. Qed.

Lemma len_nonneg {A : Type} (l : list A) : 0 <= len l.
Proof. unfold len. lia. Qed.

(** ** The methods on an open writer, in closed form *)

Lemma emit_emit wd a b : emit (emit wd a) b = emit wd (a ++ b).
Proof. unfold emit, write; simpl. now rewrite app_assoc. Qed.

Lemma emit_nil wd : emit wd [] = wd.
Proof. destruct wd as [[s w] se]. unfold emit, write; simpl. now rewrite app_nil_r. Qed.

Lemma is_open_emit {wd} d : is_open wd -> is_open (emit wd d).
Proof. exact (fun H => H). Qed.

Lemma is_open_record_offset {wd} : is_open wd -> is_open (record_offset wd).
Proof. exact (fun H => H). Qed.

Lemma _check_closed_open {wd} : is_open wd -> _check_closed wd = (wd, Ok tt).
Proof. unfold is_open, _check_closed, bind, get; simpl. now intros ->. Qed.

Lemma _check_closed_closed {wd} :
  is_closed wd -> _check_closed wd = (wd, Raise (RuntimeError "PDF closed.")).
Proof. unfold is_closed, _check_closed, bind, get; simpl. now intros ->. Qed.

Lemma file_write_open {wd} d : is_open wd -> file_write d wd = (emit wd d, Ok tt).
Proof. unfold is_open, file_write. now intros ->. Qed.

Lemma file_tell_open {wd} : is_open wd -> file_tell wd = (wd, Ok (tell (out wd))).
Proof. unfold is_open, file_tell. now intros ->. Qed.

Lemma _writeln_open {wd} data :
  is_open wd -> _writeln data wd = (emit wd (data ++ nl), Ok tt).
Proof.
  intros H. unfold _writeln, bind.
  rewrite (_check_closed_open H), (file_write_open _ H).
  rewrite (file_write_open _ (is_open_emit _ H)).
  now rewrite emit_emit.
Qed.

Lemma _save_offset_open {wd} :
  is_open wd -> _save_offset wd = (record_offset wd, Ok tt).
Proof.
  intros H. unfold _save_offset, bind.
  now rewrite (_check_closed_open H), (file_tell_open H).
Qed.

Lemma _save_offset_closed {wd} :
  is_closed wd -> _save_offset wd = (wd, Raise (RuntimeError "PDF closed.")).
Proof. intros H. unfold _save_offset, bind. now rewrite (_check_closed_closed H). Qed.

(** Sequencing after a step whose outcome is known. *)
Lemma bind_ok {A B : Type} {c : M A} (k : A -> M B) {wd wd' a} :
  c wd = (wd', Ok a) -> bind c k wd = k a wd'.
Proof. unfold bind. now intros ->. Qed.

Lemma bind_raise {A B : Type} {c : M A} (k : A -> M B) {wd wd' e} :
  c wd = (wd', Raise e) -> bind c k wd = (wd', Raise e).
Proof. unfold bind. now intros ->. Qed.

Lemma bind_bind {A B C : Type} (c : M A) (k1 : A -> M B) (k2 : B -> M C) wd :
  bind (bind c k1) k2 wd = bind c (fun a => bind (k1 a) k2) wd.
Proof. unfold bind. destruct (c wd) as [wd' [a|e]]; reflexivity. Qed.

Ltac assoc_eq :=
  repeat rewrite <- app_assoc; reflexivity.

Lemma _write_obj_open {wd} ref :
  is_open wd -> _write_obj ref wd = (emit wd (obj_header ref), Ok tt).
Proof.
  intros H. unfold _write_obj. rewrite (_writeln_open _ H).
  unfold obj_header. now rewrite <- app_assoc.
Qed.

Lemma _write_endobj_open {wd} :
  is_open wd -> _write_endobj wd = (emit wd endobj, Ok tt).
Proof. intros H. unfold _write_endobj. now rewrite (_writeln_open _ H). Qed.

Lemma _write_page_open {wd} ref image_ref contents_ref width_pt height_pt :
  is_open wd ->
  _write_page ref image_ref contents_ref width_pt height_pt wd
  = (emit (record_offset wd)
       (page_text ref image_ref contents_ref width_pt height_pt), Ok tt).
Proof.
  intros H. unfold _write_page.
  rewrite (bind_ok _ (_save_offset_open H)).
  assert (H1 := is_open_record_offset H).
  rewrite (bind_ok _ (_write_obj_open _ H1)).
  rewrite (bind_ok _ (_writeln_open _ (is_open_emit _ H1))).
  rewrite (bind_ok _ (_writeln_open _ (is_open_emit _ (is_open_emit _ H1)))).
  rewrite (bind_ok _ (_writeln_open _
             (is_open_emit _ (is_open_emit _ (is_open_emit _ H1))))).
  rewrite (_write_endobj_open (wd := emit _ _)) by exact H1.
  rewrite !emit_emit. unfold page_text. assoc_eq.
Qed.

(** One step of a method body on an open writer; [H : is_open wd] serves
    for every later world, whose [_file] is the same. *)
Ltac wstep H :=
  match goal with
  | |- context [bind (_writeln ?d) ?k ?w] =>
      rewrite (bind_ok k (@_writeln_open w d H))
  | |- context [bind _save_offset ?k ?w] =>
      rewrite (bind_ok k (@_save_offset_open w H))
  | |- context [bind (_write_obj ?r) ?k ?w] =>
      rewrite (bind_ok k (@_write_obj_open w r H))
  | |- context [bind _write_endobj ?k ?w] =>
      rewrite (bind_ok k (@_write_endobj_open w H))
  | |- context [bind _check_closed ?k ?w] =>
      rewrite (bind_ok k (@_check_closed_open w H))
  | |- context [bind file_tell ?k ?w] =>
      rewrite (bind_ok k (@file_tell_open w H))
  | |- context [bind (file_write ?d) ?k ?w] =>
      rewrite (bind_ok k (@file_write_open w d H))
  | |- context [_writeln ?d ?w] => rewrite (@_writeln_open w d H)
  | |- context [_write_endobj ?w] => rewrite (@_write_endobj_open w H)
  end.

(** The chunked copy writes what is left of the file; the bound on the
    number of rounds is never reached. *)
Lemma copy_chunks_total (fuel : nat) : forall (f : jfile) (wd : world),
  is_open wd ->
  (length (jdata f) - jpos f < fuel)%nat ->
  copy_chunks fuel f wd = (emit wd (skipn (jpos f) (jdata f)), Ok tt).
Proof.
  induction fuel as [|fuel IH]; intros f wd H Hlt; [lia|].
  cbn [copy_chunks]. unfold read.
  set (rest := skipn (jpos f) (jdata f)).
  set (chunk := firstn (Z.to_nat buffer_size) rest).
  assert (Hrest : length rest = (length (jdata f) - jpos f)%nat)
    by (unfold rest; now rewrite length_skipn).
  destruct chunk as [|b chunk'] eqn:Hchunk.
  - (* the read returned the empty string: nothing is left *)
    assert (rest = []) as ->.
    { destruct rest as [|x rest']; [reflexivity|].
      unfold chunk in Hchunk. now destruct (Z.to_nat buffer_size) eqn:E. }
    now rewrite emit_nil.
  - rewrite <- Hchunk.
    rewrite (bind_ok _ (@file_write_open wd chunk H)).
    assert (Hc : (0 < length chunk)%nat) by (rewrite Hchunk; simpl; lia).
    assert (Hcl : (length chunk <= length rest)%nat).
    { unfold chunk. rewrite length_firstn. lia. }
    rewrite IH; [| exact H | simpl; lia ].
    simpl jpos. simpl jdata. rewrite emit_emit. f_equal. f_equal.
    fold rest. rewrite Nat.add_comm, <- skipn_skipn. fold rest.
    assert (Hlen : length chunk = Nat.min (Z.to_nat buffer_size) (length rest))
      by (unfold chunk; apply length_firstn).
    destruct (Nat.le_ge_cases (Z.to_nat buffer_size) (length rest)) as [Hle|Hge].
    + rewrite Nat.min_l in Hlen by exact Hle. rewrite Hlen.
      unfold chunk. apply firstn_skipn.
    + rewrite Nat.min_r in Hlen by exact Hge. rewrite Hlen.
      unfold chunk. rewrite firstn_all2 by exact Hge.
      rewrite skipn_all. apply app_nil_r.
Qed.

Lemma _write_image_str {wd} ref width_px height_px colorspace data data_len :
  is_open wd ->
  _write_image ref width_px height_px colorspace (Str data) data_len false wd
  = (emit (record_offset wd)
       (image_text ref width_px height_px colorspace data data_len), Ok tt).
Proof.
  intros H. unfold _write_image.
  do 5 wstep H. wstep H. wstep H.
  rewrite !emit_emit. unfold image_text. assoc_eq.
Qed.

Lemma _write_image_file {wd} ref width_px height_px colorspace f data_len :
  is_open wd ->
  _write_image ref width_px height_px colorspace (FileObj f) data_len true wd
  = (emit (record_offset wd)
       (image_text ref width_px height_px colorspace
          (skipn (jpos f) (jdata f)) data_len), Ok tt).
Proof.
  intros H. unfold _write_image.
  do 4 wstep H.
  rewrite bind_bind.
  match goal with
  | |- context [bind (copy_chunks ?n ?g) ?k ?w] =>
      assert (Hfuel : (length (jdata g) - jpos g < n)%nat) by lia;
      rewrite (bind_ok k (@copy_chunks_total n g w H Hfuel))
  end.
  do 3 wstep H.
  rewrite !emit_emit. unfold image_text. assoc_eq.
Qed.

Lemma _write_contents_open {wd} ref width_pt height_pt :
  is_open wd ->
  _write_contents ref width_pt height_pt wd
  = (emit (record_offset wd) (contents_text ref width_pt height_pt), Ok tt).
Proof.
  intros H. unfold _write_contents.
  do 6 wstep H.
  rewrite !emit_emit. unfold contents_text, page_contents. assoc_eq.
Qed.

Lemma _write_page_closed {wd} ref image_ref contents_ref width_pt height_pt :
  is_closed wd ->
  _write_page ref image_ref contents_ref width_pt height_pt wd
  = (wd, Raise (RuntimeError "PDF closed.")).
Proof.
  intros H. unfold _write_page.
  now rewrite (bind_raise _ (_save_offset_closed H)).
Qed.

(** ** [add_page] in normal form *)

Lemma add_page_body_eq (jpegdata : payload) (jpeg_file : bool)
  (data : bytes) (width_px height_px resolution : Z) (grayscale : bool) wd :
  (jpeg_file = false /\ jpegdata = Str data
   \/ jpeg_file = true /\ jpegdata = FileObj {| jdata := data; jpos := 0 |}) ->
  (s <- get ;;
   let page_ref := last_obj s + 1 in
   let image_ref := page_ref + 1 in
   let contents_ref := image_ref + 1 in
   modify (set_last_obj contents_ref) ;;
   modify (fun s => set_page_refs (page_refs s ++ [page_ref]) s) ;;
   modify (fun s => set_page_count (page_count s + 1) s) ;;
   width_pt <- lift (_pixels_to_points width_px resolution) ;;
   height_pt <- lift (_pixels_to_points height_px resolution) ;;
   let colorspace :=
     if grayscale then lit "/DeviceGray" else lit "/DeviceRGB" in
   _write_page page_ref image_ref contents_ref width_pt height_pt ;;
   _write_image image_ref width_px height_px colorspace jpegdata (len data)
     jpeg_file ;;
   _write_contents contents_ref width_pt height_pt) wd
  = match _pixels_to_points width_px resolution with
    | Raise e => (allocate wd, Raise e)
    | Ok width_pt =>
        match _pixels_to_points height_px resolution with
        | Raise e => (allocate wd, Raise e)
        | Ok height_pt =>
            match _file (self wd) with
            | None => (allocate wd, Raise (RuntimeError "PDF closed."))
            | Some _ =>
                (write_objects (allocate wd) (last_obj (self wd) + 1)
                   data width_px height_px width_pt height_pt grayscale, Ok tt)
            end
        end
    end.
Proof.
  intros Hp.
  unfold bind at 1. unfold get at 1. cbv beta iota zeta.
  unfold bind at 1. unfold modify at 1. cbv beta iota.
  unfold bind at 1. unfold modify at 1. cbv beta iota.
  unfold bind at 1. unfold modify at 1. cbv beta iota.
  cbn [self out].
  fold (allocate wd).
  unfold bind at 1. unfold lift at 1.
  destruct (_pixels_to_points width_px resolution) as [width_pt|e];
    [|reflexivity].
  unfold bind at 1. unfold lift at 1.
  destruct (_pixels_to_points height_px resolution) as [height_pt|e];
    [|reflexivity].
  destruct (_file (self wd)) as [[]|] eqn:Hfile.
  - assert (H : is_open (allocate wd)) by exact Hfile.
    rewrite (bind_ok _ (_write_page_open _ _ _ _ _ H)).
    destruct Hp as [[-> ->]|[-> ->]].
    + match goal with
      | |- context [bind (_write_image ?a ?b ?c ?d (Str ?e) ?f false) ?k ?w] =>
          rewrite (bind_ok k (@_write_image_str w a b c d e f H))
      end.
      match goal with
      | |- context [_write_contents ?a ?b ?c ?w] =>
          rewrite (@_write_contents_open w a b c H)
      end.
      reflexivity.
    + match goal with
      | |- context [bind (_write_image ?a ?b ?c ?d (FileObj ?e) ?f true) ?k ?w] =>
          rewrite (bind_ok k (@_write_image_file w a b c d e f H))
      end.
      match goal with
      | |- context [_write_contents ?a ?b ?c ?w] =>
          rewrite (@_write_contents_open w a b c H)
      end.
      reflexivity.
  - assert (H : is_closed (allocate wd)) by exact Hfile.
    now rewrite (bind_raise _ (_write_page_closed _ _ _ _ _ H)).
Qed.

Lemma add_page_eq p width_px height_px resolution grayscale wd :
  add_page p width_px height_px resolution grayscale wd
  = add_page_outcome p width_px height_px resolution grayscale wd.
Proof.
  unfold add_page, add_page_outcome.
  destruct p as [data|f]; cbn [payload_bytes];
    cbv beta iota zeta delta [read seek seek_end jtell jdata jpos];
    cbn [jdata jpos skipn fst snd];
    change (Z.to_nat SOI_size) with 2%nat.
  - destruct (negb (bytes_eqb (firstn 2 data) SOI)); [reflexivity|].
    destruct (len data <? min_jpeg_len); [reflexivity|].
    destruct (width_px <? 1); [reflexivity|].
    destruct (height_px <? 1); [reflexivity|].
    destruct (resolution <? 1); [reflexivity|].
    apply add_page_body_eq. now left.
  - destruct f as [data pos]; cbn [jdata jpos].
    destruct (negb (bytes_eqb (firstn 2 data) SOI)); [reflexivity|].
    change (Z.of_nat (length data)) with (len data).
    destruct (len data <? min_jpeg_len); [reflexivity|].
    destruct (width_px <? 1); [reflexivity|].
    destruct (height_px <? 1); [reflexivity|].
    destruct (resolution <? 1); [reflexivity|].
    apply add_page_body_eq. now right.
Qed.

(** ** [close] on an open writer *)

Lemma modify_eq f wd : modify f wd = (upd f wd, Ok tt).
Proof. reflexivity. Qed.

Lemma _write_catalog_open {wd} ref :
  is_open wd ->
  _write_catalog ref wd
  = (upd (set_catalog_ref (Some ref))
       (emit (record_offset wd) (catalog_text ref)), Ok tt).
Proof.
  intros H. unfold _write_catalog.
  do 4 wstep H. rewrite modify_eq.
  rewrite !emit_emit. unfold catalog_text. assoc_eq.
Qed.

Lemma _write_page_list_open {wd} :
  is_open wd ->
  1 <= page_count (self wd) ->
  page_count (self wd) = len (page_refs (self wd)) ->
  (1 < length (obj_offsets (self wd)))%nat ->
  _write_page_list wd
  = (emit (upd (set_obj_offsets
                  (backpatch (obj_offsets (self wd)) (tell (out wd)))) wd)
       (page_list_text (page_count (self wd)) (page_refs (self wd))), Ok tt).
Proof.
  intros H Hc Hl Ho. unfold _write_page_list.
  wstep H. unfold bind at 1, get at 1. cbv beta iota.
  assert (E1 : (page_count (self wd) >=? 1) = true) by lia.
  assert (E2 : (page_count (self wd) =? len (page_refs (self wd))) = true)
    by lia.
  rewrite E1, E2. unfold assert.
  unfold bind at 1, ret at 1. cbv beta iota.
  unfold bind at 1, ret at 1. cbv beta iota.
  wstep H.
  unfold list_set. apply Nat.ltb_lt in Ho. rewrite Ho.
  unfold bind at 1, lift at 1. cbv beta iota.
  rewrite (bind_ok _ (modify_eq _ _)).
  assert (H' : is_open (upd (set_obj_offsets
            (backpatch (obj_offsets (self wd)) (tell (out wd)))) wd)) by exact H.
  do 2 wstep H'. wstep H'.
  rewrite !emit_emit. unfold page_list_text. assoc_eq.
Qed.

Lemma for_each_writeln {wd} (lines : Z -> bytes) (body : Z -> M unit)
  (l : list Z) :
  is_open wd ->
  (forall x w, is_open w -> body x w = (emit w (lines x ++ nl), Ok tt)) ->
  for_each l body wd = (emit wd (flat_map (fun x => lines x ++ nl) l), Ok tt).
Proof.
  intros H Hbody. revert wd H.
  induction l as [|x l IH]; intros wd H; cbn [for_each flat_map].
  - now rewrite emit_nil.
  - rewrite (bind_ok _ (Hbody x wd H)).
    rewrite IH by exact H. now rewrite emit_emit.
Qed.

Lemma _write_xref_open {wd} :
  is_open wd ->
  6 <= last_obj (self wd) + 1 ->
  last_obj (self wd) + 1 = len (obj_offsets (self wd)) ->
  _write_xref wd
  = (emit (upd (fun s => set_xref_size (last_obj s + 1) s)
             (upd (set_xref_offset (tell (out wd))) wd))
       (xref_text (initial_offset (self wd)) (last_obj (self wd) + 1)
          (obj_offsets (self wd))), Ok tt).
Proof.
  intros H H6 Hl. unfold _write_xref.
  do 2 wstep H.
  rewrite (bind_ok _ (modify_eq _ _)).
  rewrite (bind_ok _ (modify_eq _ _)).
  unfold bind at 1, get at 1. cbv beta iota.
  cbn [self upd set_xref_size set_xref_offset xref_size last_obj obj_offsets
       initial_offset].
  assert (E1 : (last_obj (self wd) + 1 >=? 6) = true) by lia.
  assert (E2 : (last_obj (self wd) + 1 =? len (obj_offsets (self wd))) = true)
    by lia.
  rewrite E1, E2. unfold assert.
  unfold bind at 1, ret at 1. cbv beta iota.
  unfold bind at 1, ret at 1. cbv beta iota.
  set (wd' := upd _ (upd _ wd)).
  assert (H' : is_open wd') by exact H.
  do 2 wstep H'.
  rewrite (for_each_writeln
             (fun offset =>
                if offset =? initial_offset (self wd)
                then xref_line offset 65535 (lit "f")
                else xref_line offset 0 (lit "n"))); [| exact H' |].
  - rewrite !emit_emit. unfold xref_text, xref_entry. assoc_eq.
  - intros x w Hw. destruct (x =? initial_offset (self wd));
      now rewrite (_writeln_open _ Hw).
Qed.

Lemma _write_trailer_open {wd} catalog_ref id :
  is_open wd ->
  xref_offset (self wd) <> 0 -> xref_size (self wd) <> 0 -> catalog_ref <> 0 ->
  _write_trailer catalog_ref id wd
  = (emit wd (trailer_text (xref_size (self wd)) catalog_ref id
                (xref_offset (self wd))), Ok tt).
Proof.
  intros H Ho Hs Hc. unfold _write_trailer.
  unfold bind at 1, get at 1. cbv beta iota.
  assert (E : negb (existsb (Z.eqb 0)
                      [xref_offset (self wd); xref_size (self wd); catalog_ref])
              = true).
  { cbn [existsb]. apply negb_true_iff.
    repeat (apply orb_false_iff; split); try reflexivity; lia. }
  rewrite E. unfold assert.
  unfold bind at 1, ret at 1. cbv beta iota.
  do 2 wstep H. wstep H.
  rewrite !emit_emit. unfold trailer_text. assoc_eq.
Qed.

Lemma tell_emit wd d : tell (out (emit wd d)) = tell (out wd) + len d.
Proof. unfold tell, emit, write; simpl. rewrite len_app. lia. Qed.

Lemma tell_ge_start (f : sink) : Z.of_N (start f) <= tell f.
Proof. unfold tell. pose proof (len_nonneg (written f)). lia. Qed.

Lemma len_obj_header ref : 7 <= len (obj_header ref).
Proof.
  unfold obj_header. rewrite !len_app.
  pose proof (len_nonneg (str_int ref)).
  change (len (lit " 0 obj")) with 6. change (len nl) with 1. lia.
Qed.

Lemma len_catalog_text ref : 0 < len (catalog_text ref).
Proof.
  unfold catalog_text. rewrite len_app.
  pose proof (len_obj_header ref).
  pose proof (len_nonneg (lit "<</Type /Catalog /Pages 1 0 R>>" ++ nl ++ endobj)).
  lia.
Qed.

Lemma length_backpatch (l : list Z) (p : Z) :
  (2 <= length l)%nat -> length (backpatch l p) = length l.
Proof.
  intros H. unfold backpatch.
  rewrite length_app, length_firstn. cbn [length]. rewrite length_skipn. lia.
Qed.

Lemma close_open uuid4 wd :
  is_open wd ->
  1 <= page_count (self wd) ->
  page_count (self wd) = len (page_refs (self wd)) ->
  len (obj_offsets (self wd)) = last_obj (self wd) + 1 ->
  4 <= last_obj (self wd) ->
  close uuid4 wd = (closed_world uuid4 wd, Ok tt).
Proof.
  intros H Hc Hr Hl H4. unfold close.
  unfold bind at 1, get at 1. cbv beta iota.
  assert (E : (page_count (self wd) <? 1) = false) by lia. rewrite E.
  rewrite (bind_ok _ (modify_eq _ _)).
  set (w1 := upd (set_last_obj (last_obj (self wd) + 1)) wd).
  assert (H1 : is_open w1) by exact H.
  rewrite (bind_ok _ (_write_catalog_open _ H1)).
  set (w2 := upd _ (emit (record_offset w1) _)).
  assert (H2 : is_open w2) by exact H.
  assert (Hlast2 : last_obj (self w2) = last_obj (self wd) + 1) by reflexivity.
  assert (Hoff2 : obj_offsets (self w2) = obj_offsets (self wd) ++ [tell (out wd)])
    by reflexivity.
  assert (Hlen2 : length (obj_offsets (self w2))
                  = S (length (obj_offsets (self wd))))
    by (rewrite Hoff2, length_app; cbn [length]; lia).
  unfold len in Hl.
  assert (Hlt : (1 < length (obj_offsets (self w2)))%nat) by lia.
  rewrite (bind_ok _ (@_write_page_list_open w2 H2 Hc Hr Hlt)).
  set (w3 := emit _ _).
  assert (H3 : is_open w3) by exact H.
  assert (Hlast3 : last_obj (self w3) = last_obj (self wd) + 1) by reflexivity.
  assert (Hlen3 : last_obj (self w3) + 1 = len (obj_offsets (self w3))).
  { rewrite Hlast3. unfold w3, len.
    cbn [self emit upd set_obj_offsets obj_offsets].
    rewrite length_backpatch by lia. lia. }
  assert (H63 : 6 <= last_obj (self w3) + 1) by lia.
  rewrite (bind_ok _ (@_write_xref_open w3 H3 H63 Hlen3)).
  set (w4 := emit _ _).
  assert (H4' : is_open w4) by exact H.
  assert (Hxo : xref_offset (self w4) <> 0).
  { change (xref_offset (self w4)) with (tell (out w3)).
    unfold w3. rewrite tell_emit. change (out (upd _ w2)) with (out w2).
    unfold w2. change (out (upd _ ?w)) with (out w). rewrite tell_emit.
    change (out (record_offset w1)) with (out wd).
    pose proof (tell_ge_start (out wd)).
    pose proof (len_catalog_text (last_obj (self wd) + 1)).
    pose proof (len_nonneg (page_list_text (page_count (self wd))
                              (page_refs (self wd)))).
    change (page_count (self (upd _ (emit (record_offset w1) _))))
      with (page_count (self wd)).
    change (page_refs (self (upd _ (emit (record_offset w1) _))))
      with (page_refs (self wd)).
    lia. }
  assert (Hxs : xref_size (self w4) <> 0).
  { change (xref_size (self w4)) with (last_obj (self w3) + 1). lia. }
  assert (Hcat : last_obj (self wd) + 1 <> 0) by lia.
  rewrite (bind_ok _ (@_write_trailer_open w4 _ uuid4 H4' Hxo Hxs Hcat)).
  rewrite modify_eq. reflexivity.
Qed.

(** ** Valid calls *)

Lemma passes_validation_true p w h r :
  passes_validation p w h r = true ->
  negb (bytes_eqb (firstn 2 (payload_bytes p)) SOI) = false
  /\ (len (payload_bytes p) <? min_jpeg_len) = false
  /\ (w <? 1) = false /\ (h <? 1) = false /\ (r <? 1) = false.
Proof.
  unfold passes_validation. rewrite !andb_true_iff.
  intros [[[[H1 H2] H3] H4] H5]. rewrite H1. repeat split; lia.
Qed.

Lemma add_page_valid_open c wd :
  valid_call c = true -> is_open wd ->
  add_page_call c wd = (page_added c wd, Ok tt).
Proof.
  unfold valid_call, converts, page_added, points, add_page_call.
  rewrite !andb_true_iff. intros [[Hv Hw] Hh] Ho.
  rewrite add_page_eq. unfold add_page_outcome.
  destruct (passes_validation_true _ _ _ _ Hv) as (-> & -> & -> & -> & ->).
  destruct (_pixels_to_points (c_width_px c) (c_resolution c)); [|discriminate].
  destruct (_pixels_to_points (c_height_px c) (c_resolution c)); [|discriminate].
  now rewrite Ho.
Qed.

(** A call returns normally exactly when it is valid and the writer is
    open; the world is then [page_added]. *)
Lemma add_page_ok_iff c wd wd' :
  add_page_call c wd = (wd', Ok tt)
  <-> valid_call c = true /\ is_open wd /\ wd' = page_added c wd.
Proof.
  split.
  - unfold add_page_call. rewrite add_page_eq.
    unfold add_page_outcome, valid_call, passes_validation, converts,
      page_added, points, is_open.
    destruct (bytes_eqb _ SOI); cbn [negb]; [|discriminate].
    destruct (Z.ltb_spec (len (payload_bytes (c_jpegdata c))) min_jpeg_len);
      [discriminate|].
    destruct (Z.ltb_spec (c_width_px c) 1); [discriminate|].
    destruct (Z.ltb_spec (c_height_px c) 1); [discriminate|].
    destruct (Z.ltb_spec (c_resolution c) 1); [discriminate|].
    destruct (_pixels_to_points (c_width_px c) (c_resolution c));
      [|discriminate].
    destruct (_pixels_to_points (c_height_px c) (c_resolution c));
      [|discriminate].
    destruct (_file (self wd)) as [[]|]; [|discriminate].
    intros [= <-]. repeat split; try reflexivity.
    rewrite !andb_true_iff. repeat split; try reflexivity; lia.
  - intros (Hv & Ho & ->). now apply add_page_valid_open.
Qed.

(** ** Where objects sit in the file *)

Lemma object_at_write f d offset text :
  object_at f offset text -> object_at (write f d) offset text.
Proof.
  intros (pre & post & Hw & Ho). exists pre, (post ++ d). split; [|exact Ho].
  unfold write; cbn [written start]. rewrite Hw. now rewrite <- !app_assoc.
Qed.

Lemma object_at_prefix f offset a b :
  object_at f offset (a ++ b) -> object_at f offset a.
Proof.
  intros (pre & post & Hw & Ho). exists pre, (b ++ post). split; [|exact Ho].
  rewrite Hw. now rewrite <- app_assoc.
Qed.

Lemma tell_write f d : tell (write f d) = tell f + len d.
Proof. unfold tell, write; cbn [start written]. rewrite len_app. lia. Qed.

Lemma object_at_last f text : object_at (write f text) (tell f) text.
Proof.
  exists (written f), []. split; [|reflexivity].
  unfold write; cbn [written]. now rewrite app_nil_r.
Qed.

(** ** The invariant of an open writer *)

Lemma init_eq (file : sink) : __init__ file = (init_world file, Ok tt).
Proof.
  unfold __init__.
  set (wd0 := {| out := file; self := _ |}).
  assert (H : is_open wd0) by reflexivity.
  wstep H.
  unfold bind at 1, get at 1. cbv beta iota.
  unfold bind at 1, lift at 1, list_get. cbn [nth_error self record_offset wd0
    set_obj_offsets obj_offsets app].
  rewrite (bind_ok _ (modify_eq _ _)).
  rewrite (bind_ok _ (modify_eq _ _)).
  set (wd1 := upd _ (upd _ _)).
  assert (H1 : is_open wd1) by reflexivity.
  wstep H1. wstep H1. rewrite emit_emit. unfold init_world, preamble.
  unfold emit, wd1, upd, write, wd0, record_offset; cbn. rewrite <- ?app_assoc. reflexivity.
Qed.

Lemma init_inv (file : sink) : Inv [] (init_world file).
Proof.
  constructor; try reflexivity.
  - exact (tell_ge_start file).
  - cbn [init_world out self initial_offset]. rewrite tell_write.
    change (len preamble) with 19. lia.
  - intros i off Hi Hn. cbn in Hn.
    destruct i as [|[|[|i]]]; try lia; discriminate.
  - intros k c Hn. destruct k; discriminate.
Qed.

Lemma page_added_out (c : call) (wd : world) :
  out (page_added c wd)
  = write (write (write (out wd) (added_page_text c wd))
             (added_image_text c wd))
      (added_contents_text c wd).
Proof. reflexivity. Qed.

Lemma page_added_offsets (c : call) (wd : world) :
  obj_offsets (self (page_added c wd))
  = obj_offsets (self wd)
      ++ [tell (out wd);
          tell (write (out wd) (added_page_text c wd));
          tell (write (write (out wd) (added_page_text c wd))
                  (added_image_text c wd))].
Proof.
  unfold page_added, write_objects, record_offset, emit, allocate.
  cbn [self out set_obj_offsets obj_offsets set_page_count set_page_refs
       set_last_obj].
  now rewrite <- !app_assoc.
Qed.

Lemma page_added_self (c : call) (wd : world) :
  _file (self (page_added c wd)) = _file (self wd)
  /\ last_obj (self (page_added c wd)) = last_obj (self wd) + 3
  /\ page_refs (self (page_added c wd))
     = page_refs (self wd) ++ [last_obj (self wd) + 1]
  /\ page_count (self (page_added c wd)) = page_count (self wd) + 1
  /\ initial_offset (self (page_added c wd)) = initial_offset (self wd).
Proof.
  unfold page_added, write_objects, record_offset, emit, allocate.
  cbn [self out set_obj_offsets set_page_count set_page_refs set_last_obj
       _file last_obj page_refs page_count initial_offset].
  repeat split. lia.
Qed.

Lemma page_text_header ref i c w h :
  page_text ref i c w h = obj_header ref ++ skipn (length (obj_header ref))
                                             (page_text ref i c w h).
Proof. unfold page_text. now rewrite skipn_app, skipn_all, Nat.sub_diag. Qed.

Lemma image_text_header ref w h cs d l :
  image_text ref w h cs d l
  = obj_header ref ++ skipn (length (obj_header ref)) (image_text ref w h cs d l).
Proof. unfold image_text. now rewrite skipn_app, skipn_all, Nat.sub_diag. Qed.

Lemma contents_text_header ref w h :
  contents_text ref w h
  = obj_header ref ++ skipn (length (obj_header ref)) (contents_text ref w h).
Proof. unfold contents_text. now rewrite skipn_app, skipn_all, Nat.sub_diag. Qed.

Lemma page_objects_at_write f offsets d k c :
  page_objects_at f offsets k c -> page_objects_at (write f d) offsets k c.
Proof.
  intros (o1 & o2 & o3 & H1 & H2 & H3 & P1 & P2 & P3).
  exists o1, o2, o3.
  repeat split; try assumption; now apply object_at_write.
Qed.

Lemma page_objects_at_app f offsets more k c :
  page_objects_at f offsets k c -> page_objects_at f (offsets ++ more) k c.
Proof.
  intros (o1 & o2 & o3 & H1 & H2 & H3 & P1 & P2 & P3).
  exists o1, o2, o3.
  repeat split; try assumption;
    rewrite nth_error_app1; try assumption;
    apply nth_error_Some; congruence.
Qed.

Lemma Inv_page_added cs c wd :
  Inv cs wd -> Inv (cs ++ [c]) (page_added c wd).
Proof.
  intros I.
  destruct (page_added_self c wd) as (Hf & Hlast & Hrefs & Hcount & Hinit).
  pose proof (page_added_offsets c wd) as Hoffs.
  pose proof (page_added_out c wd) as Hout.
  assert (Hstart : start (out (page_added c wd)) = start (out wd)) by reflexivity.
  assert (Hlen : length (cs ++ [c]) = S (length cs))
    by (rewrite length_app; cbn; lia).
  assert (Href : last_obj (self wd) + 1 = page_id (length cs)).
  { rewrite (inv_last I). unfold page_id, len. lia. }
  set (P := added_page_text c wd) in *.
  set (Im := added_image_text c wd) in *.
  set (Ct := added_contents_text c wd) in *.
  set (f := out wd) in *.
  assert (HP : object_at (out (page_added c wd)) (tell f) P).
  { rewrite Hout. do 2 apply object_at_write. apply object_at_last. }
  assert (HI : object_at (out (page_added c wd)) (tell (write f P)) Im).
  { rewrite Hout. apply object_at_write. apply object_at_last. }
  assert (HC : object_at (out (page_added c wd))
                 (tell (write (write f P) Im)) Ct).
  { rewrite Hout. apply object_at_last. }
  pose proof (inv_pre I) as Hpre. fold f in Hpre.
  pose proof (len_nonneg P). pose proof (len_nonneg Im).
  constructor.
  - exact (eq_trans Hf (inv_open I)).
  - rewrite Hstart, Hinit. exact (inv_initial I).
  - rewrite Hcount, (inv_count I). unfold len. rewrite Hlen. lia.
  - rewrite Hrefs, (inv_refs I), Hlen, seq_S, map_app. cbn [map Nat.add].
    now rewrite Href.
  - rewrite Hlast, (inv_last I). unfold len. rewrite Hlen. lia.
  - rewrite Hoffs, length_app, (inv_len I), Hlen. cbn [length]. lia.
  - rewrite Hoffs, Hinit, nth_error_app1; [exact (inv_zero I)|].
    rewrite (inv_len I). lia.
  - rewrite Hinit, Hout, !tell_write. pose proof (len_nonneg Ct). lia.
  - intros i off Hi Hn. rewrite Hinit. rewrite Hoffs in Hn.
    destruct (Nat.lt_ge_cases i (length (obj_offsets (self wd)))) as [Hlt|Hge].
    + rewrite nth_error_app1 in Hn by exact Hlt.
      destruct (inv_hdr I Hi Hn) as [Hh Ho]. split; [|exact Ho].
      rewrite Hout. now do 3 apply object_at_write.
    + rewrite nth_error_app2 in Hn by exact Hge.
      assert (Hi' : Z.of_nat i
                    = last_obj (self wd) + 1
                      + Z.of_nat (i - length (obj_offsets (self wd)))).
      { rewrite (inv_last I). rewrite (inv_len I) in *. unfold len. lia. }
      unfold header_at. rewrite Hi'.
      destruct (i - length (obj_offsets (self wd)))%nat as [|[|[|j]]];
        cbn [nth_error] in Hn.
      * injection Hn as <-. split; [|lia].
        apply object_at_prefix with (b := skipn (length (obj_header (last_obj (self wd) + 1))) P).
        rewrite Z.add_0_r. unfold P, added_page_text in *.
        rewrite <- page_text_header. exact HP.
      * injection Hn as <-. split; [|rewrite tell_write; lia].
        apply object_at_prefix
          with (b := skipn (length (obj_header (last_obj (self wd) + 1 + 1))) Im).
        change (Z.of_nat 1) with 1. unfold Im, added_image_text in *.
        rewrite <- image_text_header. exact HI.
      * injection Hn as <-. split; [|rewrite !tell_write; lia].
        apply object_at_prefix
          with (b := skipn (length (obj_header (last_obj (self wd) + 1 + 1 + 1))) Ct).
        change (Z.of_nat 2) with 2.
        replace (last_obj (self wd) + 1 + 2) with (last_obj (self wd) + 1 + 1 + 1)
          by lia.
        unfold Ct, added_contents_text in *.
        rewrite <- contents_text_header. exact HC.
      * destruct j; discriminate.
  - intros k c' Hn. rewrite Hoffs.
    destruct (Nat.lt_ge_cases k (length cs)) as [Hlt|Hge].
    + rewrite nth_error_app1 in Hn by exact Hlt.
      rewrite Hout. do 3 apply page_objects_at_write.
      apply page_objects_at_app. exact (inv_pages I k c' Hn).
    + rewrite nth_error_app2 in Hn by exact Hge.
      destruct (k - length cs)%nat as [|j] eqn:Hk; cbn [nth_error] in Hn;
        [|destruct j; discriminate].
      injection Hn as <-.
      assert (k = length cs) as -> by lia.
      exists (tell f), (tell (write f P)), (tell (write (write f P) Im)).
      rewrite <- Href.
      repeat split; try assumption;
        rewrite nth_error_app2 by (rewrite (inv_len I); lia);
        rewrite (inv_len I).
      * now replace (2 + 3 * length cs - (2 + 3 * length cs))%nat with 0%nat by lia.
      * now replace (3 + 3 * length cs - (2 + 3 * length cs))%nat with 1%nat by lia.
      * now replace (4 + 3 * length cs - (2 + 3 * length cs))%nat with 2%nat by lia.
Qed.

Lemma add_pages_valid (cs : list call) : forall cs0 wd,
  Forall (fun c => valid_call c = true) cs ->
  Inv cs0 wd ->
  exists wd', add_pages cs wd = (wd', Ok tt) /\ Inv (cs0 ++ cs) wd'.
Proof.
  induction cs as [|c cs IH]; intros cs0 wd Hv I.
  - exists wd. rewrite app_nil_r. now split.
  - inversion Hv as [|? ? Hc Hcs]; subst.
    destruct (IH (cs0 ++ [c]) (page_added c wd) Hcs (Inv_page_added cs0 c wd I))
      as (wd' & Hrun & I').
    exists wd'. split.
    + unfold add_pages in *. cbn [for_each].
      now rewrite (bind_ok _ (add_page_valid_open c wd Hc (inv_open I))).
    + now rewrite <- app_assoc in I'.
Qed.

(** ** The document [close] completes *)

Lemma nth_error_backpatch_1 (l : list Z) (p : Z) :
  (2 <= length l)%nat -> nth_error (backpatch l p) 1 = Some p.
Proof. destruct l as [|a [|b l]]; cbn; intros; try lia; reflexivity. Qed.

Lemma nth_error_backpatch_other (l : list Z) (p : Z) (i : nat) :
  (2 <= length l)%nat -> i <> 1%nat ->
  nth_error (backpatch l p) i = nth_error l i.
Proof.
  destruct l as [|a [|b l]]; cbn; intros; try lia.
  destruct i as [|[|i]]; try reflexivity. lia.
Qed.

Lemma length_pos_of_nonempty {A : Type} {l : list A} :
  l <> [] -> (1 <= length l)%nat.
Proof. destruct l; [congruence | cbn; lia]. Qed.

Lemma close_inv (cs : list call) (wd : world) (uuid4 : bytes) :
  Inv cs wd -> cs <> [] -> close uuid4 wd = (closed_world uuid4 wd, Ok tt).
Proof.
  intros I nonempty.
  pose proof (length_pos_of_nonempty nonempty).
  apply close_open.
  - exact (inv_open I).
  - rewrite (inv_count I). unfold len. lia.
  - rewrite (inv_count I), (inv_refs I). unfold len.
    now rewrite length_map, length_seq.
  - unfold len. rewrite (inv_len I), (inv_last I). unfold len. lia.
  - rewrite (inv_last I). unfold len. lia.
Qed.

Lemma final_out (uuid4 : bytes) (wd : world) :
  out (closed_world uuid4 wd)
  = write (write (write (write (out wd) (final_catalog_text wd))
                    (final_page_list_text wd))
             (final_xref_text wd))
      (final_trailer_text uuid4 wd).
Proof. reflexivity. Qed.

Lemma final_offsets_length (cs : list call) (wd : world) :
  Inv cs wd -> length (final_offsets wd) = (3 * length cs + 3)%nat.
Proof.
  intros I. unfold final_offsets.
  rewrite length_backpatch; rewrite length_app, (inv_len I); cbn [length]; lia.
Qed.

(** Every identifier from 1 on has its header where the ledger says. *)
Lemma final_headers (cs : list call) (wd : world) (uuid4 : bytes) i off :
  Inv cs wd ->
  (1 <= i)%nat -> nth_error (final_offsets wd) i = Some off ->
  header_at (out (closed_world uuid4 wd)) (Z.of_nat i) off
  /\ initial_offset (self wd) < off.
Proof.
  intros I Hi Hn. rewrite final_out. unfold header_at.
  assert (Hl1 : length (obj_offsets (self wd) ++ [tell (out wd)])
                = (3 + 3 * length cs)%nat)
    by (rewrite length_app, (inv_len I); cbn [length]; lia).
  pose proof (inv_pre I) as Hpre.
  unfold final_offsets in Hn.
  destruct (Nat.eq_dec i 1) as [->|Hne].
  - rewrite nth_error_backpatch_1 in Hn by lia.
    injection Hn as <-. split.
    + do 2 apply object_at_write.
      apply object_at_prefix
        with (b := skipn (length (obj_header 1)) (final_page_list_text wd)).
      replace (obj_header (Z.of_nat 1)
                 ++ skipn (length (obj_header 1)) (final_page_list_text wd))
        with (final_page_list_text wd).
      * apply object_at_last.
      * unfold final_page_list_text, page_list_text.
        now rewrite skipn_app, skipn_all, Nat.sub_diag.
    + rewrite tell_write. pose proof (len_nonneg (final_catalog_text wd)). lia.
  - rewrite nth_error_backpatch_other in Hn by lia.
    destruct (Nat.lt_ge_cases i (length (obj_offsets (self wd)))) as [Hlt|Hge].
    + rewrite nth_error_app1 in Hn by exact Hlt.
      assert (Hi2 : (2 <= i)%nat) by lia.
      destruct (inv_hdr I Hi2 Hn) as [Hh Ho].
      split; [|exact Ho]. now do 4 apply object_at_write.
    + rewrite nth_error_app2 in Hn by exact Hge.
      destruct (i - length (obj_offsets (self wd)))%nat as [|j] eqn:Hj;
        cbn [nth_error] in Hn; [|destruct j; discriminate].
      injection Hn as <-. split; [|exact Hpre].
      assert (Z.of_nat i = last_obj (self wd) + 1) as ->.
      { rewrite (inv_last I). rewrite (inv_len I) in *. unfold len. lia. }
      do 3 apply object_at_write.
      apply object_at_prefix
        with (b := lit "<</Type /Catalog /Pages 1 0 R>>" ++ nl ++ endobj).
      apply object_at_last.
Qed.

Lemma final_zero (cs : list call) (wd : world) :
  Inv cs wd -> nth_error (final_offsets wd) 0 = Some (initial_offset (self wd)).
Proof.
  intros I. unfold final_offsets.
  rewrite nth_error_backpatch_other;
    [| rewrite length_app, (inv_len I); cbn [length]; lia | lia ].
  rewrite nth_error_app1; [exact (inv_zero I)|].
  rewrite (inv_len I). lia.
Qed.

(** The file ends with catalog, page list, index and trailer. *)
Lemma final_written (uuid4 : bytes) (wd : world) :
  written (out (closed_world uuid4 wd))
  = written (out wd) ++ final_catalog_text wd ++ final_page_list_text wd
      ++ final_xref_text wd ++ final_trailer_text uuid4 wd.
Proof.
  rewrite final_out. unfold write; cbn [written]. now rewrite <- !app_assoc.
Qed.

Lemma final_page_list (cs : list call) (wd : world) (uuid4 : bytes) :
  Inv cs wd ->
  object_at (out (closed_world uuid4 wd))
    (tell (write (out wd) (final_catalog_text wd))) (final_page_list_text wd)
  /\ nth_error (final_offsets wd) 1
     = Some (tell (write (out wd) (final_catalog_text wd))).
Proof.
  intros I. split.
  - rewrite final_out. do 2 apply object_at_write. apply object_at_last.
  - unfold final_offsets. apply nth_error_backpatch_1.
    rewrite length_app, (inv_len I); cbn [length]. lia.
Qed.

Lemma final_xref (uuid4 : bytes) (wd : world) :
  object_at (out (closed_world uuid4 wd)) (final_xref_pos wd)
    (final_xref_text wd).
Proof. rewrite final_out. apply object_at_write. apply object_at_last. Qed.

Lemma final_pages (cs : list call) (wd : world) (uuid4 : bytes) k c :
  Inv cs wd ->
  nth_error cs k = Some c ->
  page_objects_at (out (closed_world uuid4 wd)) (final_offsets wd) k c.
Proof.
  intros I Hn. rewrite final_out.
  do 4 apply page_objects_at_write.
  destruct (inv_pages I k c Hn) as (o1 & o2 & o3 & H1 & H2 & H3 & P).
  exists o1, o2, o3. unfold final_offsets.
  assert (Hl1 : length (obj_offsets (self wd) ++ [tell (out wd)])
                = (3 + 3 * length cs)%nat)
    by (rewrite length_app, (inv_len I); cbn [length]; lia).
  repeat split; try apply P;
    (rewrite nth_error_backpatch_other; [| lia | lia ]);
    (rewrite nth_error_app1; [assumption|]);
    apply nth_error_Some; congruence.
Qed.

(** ** Decimal formatting *)

Lemma digit_of_digit_byte (d : N) : (d < 10)%N -> digit_of (digit_byte d) = Some d.
Proof.
  intros H.
  destruct d as [|p]; [reflexivity|].
  do 4 (destruct p as [p|p|]; try reflexivity; try lia).
Qed.

Lemma digits_aux_value (fuel : nat) : forall (n : N) (acc : bytes),
  (n < 2 ^ N.of_nat fuel)%N ->
  decimal_value (digits_aux fuel n acc) = decimal_value_from n acc.
Proof.
  induction fuel as [|fuel IH]; intros n acc Hn.
  - cbn in Hn. assert (n = 0%N) as -> by lia. reflexivity.
  - cbn [digits_aux].
    assert (Hmod : (n mod 10 < 10)%N) by (apply N.mod_lt; lia).
    assert (Hdiv : (n = 10 * (n / 10) + n mod 10)%N) by (apply N.div_mod; lia).
    destruct (N.eqb_spec (n / 10) 0) as [Hz|Hnz].
    + unfold decimal_value. cbn [decimal_value_from].
      rewrite digit_of_digit_byte by exact Hmod.
      f_equal. lia.
    + rewrite IH.
      * cbn [decimal_value_from]. rewrite digit_of_digit_byte by exact Hmod.
        f_equal. lia.
      * rewrite Nat2N.inj_succ, N.pow_succ_r' in Hn.
        apply N.Div0.div_lt_upper_bound. lia.
Qed.

Lemma log2_fuel (n : N) : (n < 2 ^ N.of_nat (S (N.to_nat (N.log2 n))))%N.
Proof.
  rewrite Nat2N.inj_succ, N2Nat.id.
  destruct n as [|p]; [reflexivity|].
  apply N.log2_spec. lia.
Qed.

(** Printing then reading gives the number back. *)
Lemma decimal_value_decimal (n : N) : decimal_value (decimal n) = Some n.
Proof. unfold decimal. now rewrite digits_aux_value by apply log2_fuel. Qed.

Lemma digits_aux_length_le (fuel : nat) : forall (n : N) (acc : bytes) (k : nat),
  (n < 2 ^ N.of_nat fuel)%N -> (n < 10 ^ N.of_nat (S k))%N ->
  (length (digits_aux fuel n acc) <= S k + length acc)%nat.
Proof.
  induction fuel as [|fuel IH]; intros n acc k Hn Hk.
  - cbn. lia.
  - cbn [digits_aux].
    destruct (N.eqb_spec (n / 10) 0) as [Hz|Hnz]; [cbn; lia|].
    destruct k as [|k].
    + exfalso. apply Hnz. apply N.div_small. exact Hk.
    + eapply Nat.le_trans.
      * apply (IH (n / 10)%N _ k).
        -- rewrite Nat2N.inj_succ, N.pow_succ_r' in Hn.
           apply N.Div0.div_lt_upper_bound. lia.
        -- rewrite (Nat2N.inj_succ (S k)), N.pow_succ_r' in Hk.
           apply N.Div0.div_lt_upper_bound. lia.
      * cbn [length]. lia.
Qed.

Lemma decimal_length_le (n : N) (k : nat) :
  (n < 10 ^ N.of_nat (S k))%N -> (length (decimal n) <= S k)%nat.
Proof.
  intros H. unfold decimal.
  pose proof (digits_aux_length_le (S (N.to_nat (N.log2 n))) n [] k
                (log2_fuel n) H) as L.
  cbn [length] in L. lia.
Qed.

Lemma decimal_value_zeros (k : nat) (l : bytes) :
  decimal_value (repeat Byte.x30 k ++ l) = decimal_value l.
Proof. induction k as [|k IH]; [reflexivity|]. cbn [repeat app]. exact IH. Qed.

(** A non-negative number below [10^width] fills exactly [width] digits,
    and they read back as the number. *)
Lemma fmt_0d_exact (width : nat) (z : Z) :
  0 <= z < 10 ^ Z.of_nat (S width) ->
  length (fmt_0d (S width) z) = S width
  /\ decimal_value (fmt_0d (S width) z) = Some (Z.to_N z).
Proof.
  intros [H0 H1].
  assert (Hn : (Z.to_N z < 10 ^ N.of_nat (S width))%N).
  { apply N2Z.inj_lt. rewrite N2Z.inj_pow, Z2N.id, nat_N_Z by lia. exact H1. }
  pose proof (decimal_length_le _ _ Hn) as Hl.
  unfold fmt_0d. rewrite Z.abs_eq by exact H0.
  destruct z as [|p|p]; try lia;
    (split;
     [ rewrite length_app, repeat_length; lia
     | rewrite decimal_value_zeros; apply decimal_value_decimal ]).
Qed.

(** ** The page count is untouched by the helpers *)

Lemma keeps_ret {A : Type} (a : A) : keeps_count (ret a).
Proof. intros wd wd' r [= <- _]. reflexivity. Qed.

Lemma keeps_raise {A : Type} (e : exn) : keeps_count (@raise A e).
Proof. intros wd wd' r [= <- _]. reflexivity. Qed.

Lemma keeps_lift {A : Type} (x : result A) : keeps_count (lift x).
Proof. intros wd wd' r [= <- _]. reflexivity. Qed.

Lemma keeps_get : keeps_count get.
Proof. intros wd wd' r [= <- _]. reflexivity. Qed.

Lemma keeps_modify (f : PDFWriter -> PDFWriter) :
  (forall s, page_count (f s) = page_count s) -> keeps_count (modify f).
Proof. intros Hf wd wd' r [= <- _]. apply Hf. Qed.

Lemma keeps_bind {A B : Type} (c : M A) (k : A -> M B) :
  keeps_count c -> (forall a, keeps_count (k a)) -> keeps_count (bind c k).
Proof.
  intros Hc Hk wd wd' r. unfold bind.
  destruct (c wd) as [wd1 [a|e]] eqn:E.
  - intros H. rewrite (Hk a _ _ _ H). exact (Hc _ _ _ E).
  - intros [= <- _]. exact (Hc _ _ _ E).
Qed.

Lemma keeps_file_tell : keeps_count file_tell.
Proof.
  intros wd wd' r. unfold file_tell.
  destruct (_file (self wd)) as [[]|]; intros [= <- _]; reflexivity.
Qed.

Lemma keeps_file_write d : keeps_count (file_write d).
Proof.
  intros wd wd' r. unfold file_write.
  destruct (_file (self wd)) as [[]|]; intros [= <- _]; reflexivity.
Qed.

Lemma keeps_assert b : keeps_count (assert b).
Proof. destruct b; [apply keeps_ret | apply keeps_raise]. Qed.

Create HintDb keeps.
#[local] Hint Resolve keeps_file_tell keeps_file_write keeps_assert keeps_get
  : keeps.

Ltac keeps :=
  repeat match goal with
    | |- keeps_count (bind _ _) => apply keeps_bind; [|intros ?]
    | |- keeps_count (ret _) => apply keeps_ret
    | |- keeps_count (raise _) => apply keeps_raise
    | |- keeps_count (lift _) => apply keeps_lift
    | |- keeps_count (modify _) => apply keeps_modify; intros ?; reflexivity
    | |- keeps_count (match ?x with _ => _ end) => destruct x
    | |- keeps_count _ => solve [auto with keeps]
    end.

Lemma keeps__check_closed : keeps_count _check_closed.
Proof. unfold _check_closed. keeps. Qed.
#[local] Hint Resolve keeps__check_closed : keeps.

Lemma keeps__save_offset : keeps_count _save_offset.
Proof. unfold _save_offset. keeps. Qed.
#[local] Hint Resolve keeps__save_offset : keeps.

Lemma keeps__writeln d : keeps_count (_writeln d).
Proof. unfold _writeln. keeps. Qed.
#[local] Hint Resolve keeps__writeln : keeps.

Lemma keeps_for_each {A : Type} (l : list A) (body : A -> M unit) :
  (forall x, keeps_count (body x)) -> keeps_count (for_each l body).
Proof.
  intros Hb. induction l as [|x l IH]; cbn [for_each]; keeps.
Qed.

Lemma keeps__write_catalog ref : keeps_count (_write_catalog ref).
Proof. unfold _write_catalog, _write_obj, _write_endobj. keeps. Qed.

Lemma keeps__write_page_list : keeps_count _write_page_list.
Proof. unfold _write_page_list, _write_obj, _write_endobj. keeps. Qed.

Lemma keeps__write_xref : keeps_count _write_xref.
Proof.
  unfold _write_xref. keeps.
  apply keeps_for_each. intros x. keeps.
Qed.

Lemma keeps__write_trailer ref id : keeps_count (_write_trailer ref id).
Proof. unfold _write_trailer. keeps. Qed.

Lemma bind_inv_ok {A B : Type} (c : M A) (k : A -> M B) wd wd' b :
  bind c k wd = (wd', Ok b) ->
  exists wd1 a, c wd = (wd1, Ok a) /\ k a wd1 = (wd', Ok b).
Proof.
  unfold bind. destruct (c wd) as [wd1 [a|e]]; [|discriminate].
  intros H. now exists wd1, a.
Qed.

Lemma close_ok_sealed uuid4 wd wd' :
  close uuid4 wd = (wd', Ok tt) -> 1 <= page_count (self wd) /\ sealed wd'.
Proof.
  unfold close. unfold bind at 1, get at 1. cbv beta iota.
  destruct (Z.ltb_spec (page_count (self wd)) 1) as [Hlt|Hge]; [discriminate|].
  intros H. split; [exact Hge|].
  apply bind_inv_ok in H as (w1 & [] & H1 & H).
  apply bind_inv_ok in H as (w2 & [] & H2 & H).
  apply bind_inv_ok in H as (w3 & [] & H3 & H).
  apply bind_inv_ok in H as (w4 & [] & H4 & H).
  apply bind_inv_ok in H as (w5 & [] & H5 & H).
  injection H as <-.
  split; [reflexivity|].
  cbn [self set_file page_count].
  rewrite (keeps__write_trailer _ _ _ _ _ H5), (keeps__write_xref _ _ _ H4),
    (keeps__write_page_list _ _ _ H3), (keeps__write_catalog _ _ _ _ H2).
  injection H1 as <-. exact Hge.
Qed.

(** ** Sessions: the finished document *)

Lemma xref_text_entries initial size offsets :
  xref_text initial size offsets
  = lit "xref" ++ nl ++ (lit "0 " ++ str_int size) ++ nl
      ++ concat (xref_entries initial offsets).
Proof. unfold xref_text, xref_entries. now rewrite flat_map_concat_map. Qed.

Lemma session_valid (file : sink) (cs : list call) (uuid4 : bytes) :
  cs <> [] ->
  Forall (fun c => valid_call c = true) cs ->
  exists wd,
    Inv cs wd
    /\ add_pages cs (init_world file) = (wd, Ok tt)
    /\ session file cs uuid4 = (closed_world uuid4 wd, Ok tt).
Proof.
  intros Hne Hv.
  destruct (add_pages_valid cs [] (init_world file) Hv (init_inv file))
    as (wd & Hrun & I).
  cbn [app] in I. exists wd.
  split; [exact I|]. split; [exact Hrun|].
  unfold session. rewrite init_eq.
  rewrite (bind_ok _ Hrun). now apply close_inv with (cs := cs).
Qed.

(** C1. For every valid sequence of N >= 1 [add_page] calls followed by
    [close], the file ends with the index and the trailer; the index begins
    at [xref_offset], announces and lists exactly N*3 + 3 entries, one per
    ledger slot, and for every identifier from 1 on, the recorded offset is
    the byte position at which the header "<id> 0 obj" of that object
    begins in the file. *)
Theorem index_entries_match_offsets (file : sink) (cs : list call)
  (uuid4 : bytes) :
  cs <> [] ->
  Forall (fun c => valid_call c = true) cs ->
  exists wd,
    session file cs uuid4 = (wd, Ok tt)
    /\ length (obj_offsets (self wd)) = (length cs * 3 + 3)%nat
    /\ length (xref_entries (initial_offset (self wd)) (obj_offsets (self wd)))
       = (length cs * 3 + 3)%nat
    /\ (exists before,
          written (out wd)
          = before
              ++ (lit "xref" ++ nl
                    ++ (lit "0 " ++ str_int (Z.of_nat (length cs * 3 + 3))) ++ nl
                    ++ concat (xref_entries (initial_offset (self wd))
                                 (obj_offsets (self wd))))
              ++ trailer_text (Z.of_nat (length cs * 3 + 3))
                   (Z.of_nat (length cs * 3 + 2)) uuid4 (xref_offset (self wd))
          /\ xref_offset (self wd) = Z.of_N (start (out wd)) + len before)
    /\ forall i offset,
         (1 <= i)%nat ->
         nth_error (obj_offsets (self wd)) i = Some offset ->
         header_at (out wd) (Z.of_nat i) offset.
Proof.
  intros Hne Hv.
  destruct (session_valid file cs uuid4 Hne Hv) as (wd & I & _ & Hs).
  exists (closed_world uuid4 wd).
  split; [exact Hs|].
  assert (Hlen : length (obj_offsets (self (closed_world uuid4 wd)))
                 = (length cs * 3 + 3)%nat).
  { change (obj_offsets (self (closed_world uuid4 wd))) with (final_offsets wd).
    rewrite (final_offsets_length cs wd I). lia. }
  split; [exact Hlen|].
  split; [unfold xref_entries; now rewrite length_map|].
  split.
  - exists (written (out wd) ++ final_catalog_text wd ++ final_page_list_text wd).
    rewrite <- xref_text_entries.
    replace (Z.of_nat (length cs * 3 + 3)) with (last_obj (self wd) + 1 + 1)
      by (rewrite (inv_last I); unfold len; lia).
    replace (Z.of_nat (length cs * 3 + 2)) with (last_obj (self wd) + 1)
      by (rewrite (inv_last I); unfold len; lia).
    split.
    + rewrite final_written. now rewrite <- !app_assoc.
    + change (xref_offset (self (closed_world uuid4 wd)))
        with (final_xref_pos wd).
      unfold final_xref_pos, tell, write; cbn [start written out].
      now rewrite <- app_assoc.
  - intros i offset Hi Hn.
    exact (proj1 (final_headers cs wd uuid4 i offset I Hi Hn)).
Qed.

Lemma index_entries_match_offsets_witness :
  exists wd,
    session empty_file [sample_call; sample_call_2] (lit "token") = (wd, Ok tt)
    /\ length (obj_offsets (self wd)) = 9%nat
    /\ forall i offset,
         (1 <= i)%nat ->
         nth_error (obj_offsets (self wd)) i = Some offset ->
         header_at (out wd) (Z.of_nat i) offset.
Proof.
  destruct (index_entries_match_offsets empty_file [sample_call; sample_call_2]
              (lit "token") ltac:(discriminate) ltac:(repeat constructor))
    as (wd & Hs & Hl & _ & _ & Hh).
  exists wd. repeat split; assumption.
Defined.

Lemma kids_concat (refs : list Z) :
  kids refs = concat (map (fun id => str_int id ++ lit " 0 R ") refs).
Proof.
  unfold kids.
  enough (G : forall acc,
             fold_left (fun page_refs page_ref =>
                          page_refs ++ str_int page_ref ++ lit " 0 R ") refs acc
             = acc ++ concat (map (fun id => str_int id ++ lit " 0 R ") refs))
    by exact (G []).
  induction refs as [|r refs IH]; intros acc; cbn [fold_left map concat].
  - now rewrite app_nil_r.
  - rewrite IH. now rewrite <- app_assoc.
Qed.

(** C5. For every valid sequence of [add_page] calls followed by [close],
    the page-list object (identifier 1, found where the ledger says) counts
    the calls and lists in [/Kids] exactly the page identifiers of the
    calls, first call first: the k-th reference is [page_id k], and the
    object with that identifier is the page written by the k-th call, with
    that call's dimensions and payload.  Nothing reorders the list. *)
Theorem page_list_in_call_order (file : sink) (cs : list call) (uuid4 : bytes) :
  cs <> [] ->
  Forall (fun c => valid_call c = true) cs ->
  exists wd position,
    session file cs uuid4 = (wd, Ok tt)
    /\ page_refs (self wd) = map page_id (seq 0 (length cs))
    /\ nth_error (obj_offsets (self wd)) 1 = Some position
    /\ object_at (out wd) position
         (obj_header 1
            ++ (lit "<</Type /Pages /Count " ++ str_int (len cs)
                  ++ lit " /Kids ["
                  ++ concat (map (fun id => str_int id ++ lit " 0 R ")
                               (map page_id (seq 0 (length cs))))
                  ++ lit "]>>") ++ nl
            ++ endobj)
    /\ forall k c,
         nth_error cs k = Some c ->
         page_objects_at (out wd) (obj_offsets (self wd)) k c.
Proof.
  intros Hne Hv.
  destruct (session_valid file cs uuid4 Hne Hv) as (wd & I & _ & Hs).
  exists (closed_world uuid4 wd),
    (tell (write (out wd) (final_catalog_text wd))).
  split; [exact Hs|].
  split; [exact (inv_refs I)|].
  destruct (final_page_list cs wd uuid4 I) as [Hobj Hnth].
  split; [exact Hnth|].
  split.
  - rewrite <- kids_concat, <- (inv_refs I), <- (inv_count I). exact Hobj.
  - intros k c Hn. exact (final_pages cs wd uuid4 k c I Hn).
Qed.

Lemma page_list_in_call_order_witness :
  exists wd position,
    session empty_file [sample_call; sample_call_2] (lit "token") = (wd, Ok tt)
    /\ page_refs (self wd) = [2; 5]
    /\ nth_error (obj_offsets (self wd)) 1 = Some position.
Proof.
  destruct (page_list_in_call_order empty_file [sample_call; sample_call_2]
              (lit "token") ltac:(discriminate) ltac:(repeat constructor))
    as (wd & position & Hs & Hr & Hn & _).
  exists wd, position. repeat split; assumption.
Defined.

(** C6. For every payload, [add_page] behaves the same whether the bytes
    are passed as a string or as a file object holding them (wherever that
    file is positioned): same resulting writer, same bytes in the output
    file, same outcome.  Hence whole sessions that differ only in how a
    payload is passed produce the same document. *)
Theorem string_and_file_payload_agree (data : bytes) (position : nat)
  (width_px height_px resolution : Z) (grayscale : bool) :
  (forall wd,
     add_page (Str data) width_px height_px resolution grayscale wd
     = add_page (FileObj {| jdata := data; jpos := position |})
         width_px height_px resolution grayscale wd)
  /\ (forall file before after uuid4,
        session file
          (before
             ++ {| c_jpegdata := Str data; c_width_px := width_px;
                   c_height_px := height_px; c_resolution := resolution;
                   c_grayscale := grayscale |} :: after) uuid4
        = session file
            (before
               ++ {| c_jpegdata := FileObj {| jdata := data; jpos := position |};
                     c_width_px := width_px; c_height_px := height_px;
                     c_resolution := resolution;
                     c_grayscale := grayscale |} :: after) uuid4).
Proof.
  assert (Hcall : forall wd,
    add_page (Str data) width_px height_px resolution grayscale wd
    = add_page (FileObj {| jdata := data; jpos := position |})
        width_px height_px resolution grayscale wd).
  { intros wd. now rewrite !add_page_eq. }
  split; [exact Hcall|].
  intros file before after uuid4. unfold session.
  destruct (__init__ file) as [wd0 [[]|e]]; [|reflexivity].
  unfold bind. f_equal.
  assert (Hrun : forall l wd,
    add_pages (l ++ {| c_jpegdata := Str data; c_width_px := width_px;
                       c_height_px := height_px; c_resolution := resolution;
                       c_grayscale := grayscale |} :: after) wd
    = add_pages (l ++ {| c_jpegdata := FileObj {| jdata := data; jpos := position |};
                         c_width_px := width_px; c_height_px := height_px;
                         c_resolution := resolution;
                         c_grayscale := grayscale |} :: after) wd).
  { induction l as [|c l IH]; intros wd; unfold add_pages in *;
      cbn [app for_each]; unfold bind.
    - unfold add_page_call; cbn [c_jpegdata c_width_px c_height_px c_resolution
                                 c_grayscale].
      now rewrite Hcall.
    - destruct (add_page_call c wd) as [wd1 [[]|e]]; [apply IH | reflexivity]. }
  now rewrite Hrun.
Qed.

(** C2. Whenever an argument of [add_page] fails validation (the payload
    does not start with the two marker bytes, is shorter than the minimum
    length, or width, height or resolution is below 1), the call raises the
    [ValueError] of the first failing check, and the world it returns is the
    world it was given: no byte was written, and page count, page
    references, last identifier and ledger are untouched. *)
Theorem rejected_call_changes_nothing (p : payload)
  (width_px height_px resolution : Z) (grayscale : bool) (wd : world) :
  firstn 2 (payload_bytes p) <> SOI
  \/ len (payload_bytes p) < min_jpeg_len
  \/ width_px < 1 \/ height_px < 1 \/ resolution < 1 ->
  exists msg,
    add_page p width_px height_px resolution grayscale wd
    = (wd, Raise (ValueError msg))
    /\ (firstn 2 (payload_bytes p) <> SOI -> msg = "Invalid image data."%string)
    /\ (firstn 2 (payload_bytes p) = SOI ->
        len (payload_bytes p) < min_jpeg_len ->
        msg = "Invalid image length."%string)
    /\ (firstn 2 (payload_bytes p) = SOI ->
        min_jpeg_len <= len (payload_bytes p) ->
        width_px < 1 -> msg = "Invalid image width."%string)
    /\ (firstn 2 (payload_bytes p) = SOI ->
        min_jpeg_len <= len (payload_bytes p) ->
        1 <= width_px -> height_px < 1 ->
        msg = "Invalid image height."%string)
    /\ (firstn 2 (payload_bytes p) = SOI ->
        min_jpeg_len <= len (payload_bytes p) ->
        1 <= width_px -> 1 <= height_px -> resolution < 1 ->
        msg = "Invalid image resolution."%string).
Proof.
  intros Hbad. rewrite add_page_eq. unfold add_page_outcome.
  destruct (bytes_eqb (firstn 2 (payload_bytes p)) SOI) eqn:Hsoi; cbn [negb].
  - apply bytes_eqb_eq in Hsoi.
    destruct (Z.ltb_spec (len (payload_bytes p)) min_jpeg_len);
      [eexists; split; [reflexivity|]; repeat split; intros; (congruence || lia)|].
    destruct (Z.ltb_spec width_px 1);
      [eexists; split; [reflexivity|]; repeat split; intros; (congruence || lia)|].
    destruct (Z.ltb_spec height_px 1);
      [eexists; split; [reflexivity|]; repeat split; intros; (congruence || lia)|].
    destruct (Z.ltb_spec resolution 1);
      [eexists; split; [reflexivity|]; repeat split; intros; (congruence || lia)|].
    exfalso. destruct Hbad as [Hb|[Hb|[Hb|[Hb|Hb]]]]; (congruence || lia).
  - assert (Hne : firstn 2 (payload_bytes p) <> SOI).
    { intros E. apply bytes_eqb_eq in E. congruence. }
    eexists; split; [reflexivity|]; repeat split; intros; congruence.
Qed.

Lemma rejected_call_changes_nothing_witness :
  add_page (Str (repeat Byte.x00 10)) 800 600 72 false (init_world empty_file)
  = (init_world empty_file, Raise (ValueError "Invalid image data.")).
Proof.
  assert (Hmagic : firstn 2 (payload_bytes (Str (repeat Byte.x00 10))) <> SOI)
    by discriminate.
  destruct (rejected_call_changes_nothing (Str (repeat Byte.x00 10)) 800 600 72
              false (init_world empty_file) (or_introl Hmagic))
    as (msg & Hrun & Hmsg & _).
  rewrite Hrun, (Hmsg Hmagic). reflexivity.
Defined.

(** C9. [close] on a writer with page count 0 raises the empty-document
    [RuntimeError] and changes nothing; in particular this is what [close]
    right after construction does.  Whenever [close] returns normally, the
    page count was at least 1. *)
Theorem close_needs_a_page (uuid4 : bytes) (wd : world) :
  (page_count (self wd) = 0 ->
   close uuid4 wd = (wd, Raise (RuntimeError "No pages added to PDF.")))
  /\ (forall wd', close uuid4 wd = (wd', Ok tt) -> 1 <= page_count (self wd))
  /\ (forall file,
        session file [] uuid4
        = (init_world file, Raise (RuntimeError "No pages added to PDF."))).
Proof.
  split; [|split].
  - intros H0. unfold close, bind, get. cbv beta iota. rewrite H0. reflexivity.
  - intros wd' H. exact (proj1 (close_ok_sealed uuid4 wd wd' H)).
  - intros file. unfold session. rewrite init_eq. reflexivity.
Qed.

Lemma close_needs_a_page_witness :
  close (lit "token") (init_world empty_file)
  = (init_world empty_file, Raise (RuntimeError "No pages added to PDF."))
  /\ 1 <= page_count (self (page_added sample_call (init_world empty_file))).
Proof.
  destruct (close_needs_a_page (lit "token") (init_world empty_file))
    as (H0 & _ & _).
  destruct (close_needs_a_page (lit "token")
              (page_added sample_call (init_world empty_file)))
    as (_ & H1 & _).
  split.
  - apply H0. reflexivity.
  - apply (H1 (closed_world (lit "token")
                 (page_added sample_call (init_world empty_file)))).
    vm_compute. reflexivity.
Defined.

(** ** Calls on a closed writer *)

Lemma close_closed uuid4 wd :
  sealed wd ->
  close uuid4 wd
  = (upd (set_last_obj (last_obj (self wd) + 1)) wd,
     Raise (RuntimeError "PDF closed.")).
Proof.
  intros [Hc Hp]. unfold close.
  unfold bind at 1, get at 1. cbv beta iota.
  assert (E : (page_count (self wd) <? 1) = false) by lia. rewrite E.
  rewrite (bind_ok _ (modify_eq _ _)).
  unfold _write_catalog.
  assert (Hc' : is_closed (upd (set_last_obj (last_obj (self wd) + 1)) wd))
    by exact Hc.
  rewrite !bind_bind.
  now rewrite (bind_raise _ (_save_offset_closed Hc')).
Qed.

Lemma add_page_closed p width_px height_px resolution grayscale wd :
  is_closed wd ->
  passes_validation p width_px height_px resolution = true ->
  add_page p width_px height_px resolution grayscale wd
  = (allocate wd,
     Raise (match _pixels_to_points width_px resolution with
            | Raise e => e
            | Ok _ =>
                match _pixels_to_points height_px resolution with
                | Raise e => e
                | Ok _ => RuntimeError "PDF closed."
                end
            end)).
Proof.
  intros Hc Hv.
  rewrite add_page_eq. unfold add_page_outcome.
  destruct (passes_validation_true _ _ _ _ Hv) as (-> & -> & -> & -> & ->).
  destruct (_pixels_to_points width_px resolution); [|reflexivity].
  destruct (_pixels_to_points height_px resolution); [|reflexivity].
  now rewrite Hc.
Qed.

Lemma add_page_invalid p width_px height_px resolution grayscale wd :
  passes_validation p width_px height_px resolution = false ->
  exists msg,
    add_page p width_px height_px resolution grayscale wd
    = (wd, Raise (ValueError msg)).
Proof.
  intros Hv. rewrite add_page_eq. unfold add_page_outcome.
  unfold passes_validation in Hv.
  destruct (bytes_eqb (firstn 2 (payload_bytes p)) SOI); cbn [negb];
    [|now eexists].
  destruct (Z.ltb_spec (len (payload_bytes p)) min_jpeg_len); [now eexists|].
  destruct (Z.ltb_spec width_px 1); [now eexists|].
  destruct (Z.ltb_spec height_px 1); [now eexists|].
  destruct (Z.ltb_spec resolution 1); [now eexists|].
  exfalso. rewrite !andb_false_iff in Hv.
  destruct Hv as [[[[H'|H']|H']|H']|H']; (discriminate || lia).
Qed.

Lemma add_page_closed_converts p width_px height_px resolution grayscale wd :
  is_closed wd ->
  passes_validation p width_px height_px resolution = true ->
  converts width_px resolution = true ->
  converts height_px resolution = true ->
  add_page p width_px height_px resolution grayscale wd
  = (allocate wd, Raise (RuntimeError "PDF closed.")).
Proof.
  intros Hc Hv Hw Hh.
  rewrite (add_page_closed _ _ _ _ _ _ Hc Hv).
  unfold converts in Hw, Hh.
  destruct (_pixels_to_points width_px resolution); [|discriminate].
  destruct (_pixels_to_points height_px resolution); [|discriminate].
  reflexivity.
Qed.

(** C10. On a closed writer, [add_page] with a payload and geometry that
    pass validation, and dimensions that convert to points, raises the
    closed-writer [RuntimeError], but only after it has incremented the
    page count, appended the new page identifier to the page references and
    advanced the last identifier by 3; the ledger and the file are as
    before. *)
Theorem add_page_on_closed_writer_mutates (p : payload)
  (width_px height_px resolution : Z) (grayscale : bool) (wd : world) :
  is_closed wd ->
  passes_validation p width_px height_px resolution = true ->
  converts width_px resolution = true ->
  converts height_px resolution = true ->
  exists wd',
    add_page p width_px height_px resolution grayscale wd
    = (wd', Raise (RuntimeError "PDF closed."))
    /\ page_count (self wd') = page_count (self wd) + 1
    /\ page_refs (self wd') = page_refs (self wd) ++ [last_obj (self wd) + 1]
    /\ last_obj (self wd') = last_obj (self wd) + 3
    /\ obj_offsets (self wd') = obj_offsets (self wd)
    /\ out wd' = out wd.
Proof.
  intros Hc Hv Hw Hh. exists (allocate wd).
  rewrite (add_page_closed_converts _ _ _ _ _ _ Hc Hv Hw Hh).
  repeat split. cbn. lia.
Qed.

Lemma add_page_on_closed_writer_mutates_witness :
  exists wd',
    add_page (Str sample_jpeg) 800 600 72 false closed_sample
    = (wd', Raise (RuntimeError "PDF closed."))
    /\ page_count (self wd') = 2
    /\ page_refs (self wd') = [2; 6]
    /\ last_obj (self wd') = 8.
Proof.
  destruct (add_page_on_closed_writer_mutates (Str sample_jpeg) 800 600 72 false
              closed_sample eq_refl eq_refl eq_refl eq_refl)
    as (wd' & Hrun & Hc & Hr & Hl & _).
  exists wd'. repeat split; assumption.
Defined.

(** C10 as stated does not hold for every geometry that passes validation:
    a width of [2^1024] pixels passes the checks, the attributes are
    updated, and the conversion to points raises [OverflowError] before the
    closed file is noticed. *)
Lemma add_page_on_closed_writer_overflow :
  is_closed closed_sample
  /\ passes_validation (Str sample_jpeg) (2 ^ 1024) 600 72 = true
  /\ snd (add_page (Str sample_jpeg) (2 ^ 1024) 600 72 false closed_sample)
     = Raise (OverflowError "long int too large to convert to float")
  /\ snd (add_page (Str sample_jpeg) (2 ^ 1024) 600 72 false closed_sample)
     <> Raise (RuntimeError "PDF closed.").
Proof.
  assert (H : snd (add_page (Str sample_jpeg) (2 ^ 1024) 600 72 false
                     closed_sample)
              = Raise (OverflowError "long int too large to convert to float"))
    by (vm_compute; reflexivity).
  repeat split; try reflexivity; try exact H.
  rewrite H. discriminate.
Qed.

Lemma add_page_sealed p width_px height_px resolution grayscale wd :
  sealed wd ->
  sealed (fst (add_page p width_px height_px resolution grayscale wd))
  /\ snd (add_page p width_px height_px resolution grayscale wd) <> Ok tt.
Proof.
  intros [Hc Hp].
  destruct (passes_validation p width_px height_px resolution) eqn:Hv.
  - rewrite (add_page_closed _ _ _ _ _ _ Hc Hv). cbn [fst snd].
    split; [|discriminate]. split; [exact Hc|]. cbn. lia.
  - destruct (add_page_invalid p width_px height_px resolution grayscale wd Hv)
      as (msg & ->).
    cbn [fst snd]. split; [now split | discriminate].
Qed.

Lemma after_close_sealed wd : after_close wd -> sealed wd.
Proof.
  induction 1 as [uuid4 wd0 wd H | p w h r g wd wd' res _ IH H
                 | uuid4 wd wd' res _ IH H].
  - exact (proj2 (close_ok_sealed _ _ _ H)).
  - pose proof (proj1 (add_page_sealed p w h r g wd IH)) as S.
    now rewrite H in S.
  - rewrite (close_closed uuid4 wd IH) in H. injection H as <- _.
    destruct IH as [Hc Hp]. now split.
Qed.

(** C8, amended.  Once [close] has returned normally, no further call on
    the writer returns normally.  A further [close] raises the
    closed-writer [RuntimeError]; so does [add_page] when its arguments
    pass validation and its dimensions convert to points.  An [add_page]
    whose arguments fail validation raises the validation [ValueError]
    instead, and changes nothing. *)
Theorem calls_after_close_fail (wd : world) :
  after_close wd ->
  (forall uuid4, snd (close uuid4 wd) = Raise (RuntimeError "PDF closed."))
  /\ (forall p width_px height_px resolution grayscale,
        snd (add_page p width_px height_px resolution grayscale wd) <> Ok tt
        /\ (passes_validation p width_px height_px resolution = true ->
            converts width_px resolution = true ->
            converts height_px resolution = true ->
            snd (add_page p width_px height_px resolution grayscale wd)
            = Raise (RuntimeError "PDF closed."))
        /\ (passes_validation p width_px height_px resolution = false ->
            exists msg,
              add_page p width_px height_px resolution grayscale wd
              = (wd, Raise (ValueError msg)))).
Proof.
  intros Hac. pose proof (after_close_sealed wd Hac) as S.
  split.
  - intros uuid4. now rewrite (close_closed uuid4 wd S).
  - intros p w h r g. split; [|split].
    + exact (proj2 (add_page_sealed p w h r g wd S)).
    + intros Hv Hw Hh.
      now rewrite (add_page_closed_converts p w h r g wd (proj1 S) Hv Hw Hh).
    + intros Hv. exact (add_page_invalid p w h r g wd Hv).
Qed.

Lemma closed_sample_after_close : after_close closed_sample.
Proof.
  apply (after_close_now (lit "token")
           (page_added sample_call (init_world empty_file))).
  vm_compute. reflexivity.
Qed.

Lemma calls_after_close_fail_witness :
  snd (close (lit "again") closed_sample) = Raise (RuntimeError "PDF closed.")
  /\ snd (add_page (Str sample_jpeg) 800 600 72 false closed_sample)
     = Raise (RuntimeError "PDF closed.").
Proof.
  destruct (calls_after_close_fail closed_sample closed_sample_after_close)
    as [Hclose Hadd].
  split.
  - apply Hclose.
  - apply (Hadd (Str sample_jpeg) 800 600 72 false); reflexivity.
Defined.

(** C8 as stated fails: on the closed writer, [add_page] with ten zero
    bytes raises the validation error, not the closed-writer error. *)
Lemma invalid_call_after_close_raises_value_error :
  after_close closed_sample
  /\ add_page (Str (repeat Byte.x00 10)) 800 600 72 false closed_sample
     = (closed_sample, Raise (ValueError "Invalid image data."))
  /\ snd (add_page (Str (repeat Byte.x00 10)) 800 600 72 false closed_sample)
     <> Raise (RuntimeError "PDF closed.").
Proof.
  split; [exact closed_sample_after_close|].
  assert (H : add_page (Str (repeat Byte.x00 10)) 800 600 72 false closed_sample
              = (closed_sample, Raise (ValueError "Invalid image data.")))
    by reflexivity.
  split; [exact H|]. rewrite H. discriminate.
Qed.

(** ** The lines of the index *)

Lemma xref_entry_sentinel (initial : Z) :
  xref_entry initial initial
  = fmt_0d 10 initial ++ lit " " ++ lit "65535" ++ lit " " ++ lit "f" ++ lit " "
      ++ nl.
Proof.
  unfold xref_entry, xref_line. rewrite Z.eqb_refl.
  change (fmt_0d 5 65535) with (lit "65535"). now rewrite <- !app_assoc.
Qed.

Lemma xref_entry_object (initial offset : Z) :
  offset <> initial ->
  xref_entry initial offset
  = fmt_0d 10 offset ++ lit " " ++ lit "00000" ++ lit " " ++ lit "n" ++ lit " "
      ++ nl.
Proof.
  intros H. unfold xref_entry, xref_line.
  apply Z.eqb_neq in H. rewrite H.
  change (fmt_0d 5 0) with (lit "00000"). now rewrite <- !app_assoc.
Qed.

(** C7, amended.  The index written by [close] has one line per ledger
    slot, in identifier order.  Slot 0 is the only one printed with
    generation 65535 and flag [f]; every other slot has generation 00000
    and flag [n].  When every recorded offset is below [10^10], each line
    is exactly: ten decimal digits that read as the recorded offset, a
    space, the five-digit generation, a space, the flag, a space, a line
    feed. *)
Theorem index_lines (file : sink) (cs : list call) (uuid4 : bytes) :
  cs <> [] ->
  Forall (fun c => valid_call c = true) cs ->
  exists wd,
    session file cs uuid4 = (wd, Ok tt)
    /\ object_at (out wd) (xref_offset (self wd))
         (lit "xref" ++ nl ++ (lit "0 " ++ str_int (xref_size (self wd))) ++ nl
            ++ concat (xref_entries (initial_offset (self wd))
                         (obj_offsets (self wd))))
    /\ forall i offset,
         nth_error (obj_offsets (self wd)) i = Some offset ->
         let generation := if (i =? 0)%nat then lit "65535" else lit "00000" in
         let flag := if (i =? 0)%nat then lit "f" else lit "n" in
         nth_error (xref_entries (initial_offset (self wd))
                      (obj_offsets (self wd))) i
         = Some (fmt_0d 10 offset ++ lit " " ++ generation ++ lit " " ++ flag
                   ++ lit " " ++ nl)
         /\ 0 <= offset
         /\ decimal_value (fmt_0d 10 offset) = Some (Z.to_N offset)
         /\ (offset < 10 ^ 10 -> length (fmt_0d 10 offset) = 10%nat).
Proof.
  intros Hne Hv.
  destruct (session_valid file cs uuid4 Hne Hv) as (wd & I & _ & Hs).
  exists (closed_world uuid4 wd).
  split; [exact Hs|]. split.
  - rewrite <- xref_text_entries. exact (final_xref uuid4 wd).
  - intros i offset Hn.
    change (obj_offsets (self (closed_world uuid4 wd))) with (final_offsets wd)
      in *.
    change (initial_offset (self (closed_world uuid4 wd)))
      with (initial_offset (self wd)).
    assert (Hpos : 0 <= initial_offset (self wd)).
    { pose proof (inv_initial I). lia. }
    unfold xref_entries. rewrite nth_error_map, Hn. cbn [option_map].
    assert (Hcase : (i = 0%nat /\ offset = initial_offset (self wd))
                    \/ ((1 <= i)%nat /\ initial_offset (self wd) < offset)).
    { destruct i as [|i].
      - left. split; [reflexivity|].
        rewrite (final_zero cs wd I) in Hn. congruence.
      - right. split; [lia|].
        assert (Hi : (1 <= S i)%nat) by lia.
        exact (proj2 (final_headers cs wd uuid4 (S i) offset I Hi Hn)). }
    assert (Hfmt : 0 <= offset ->
                   decimal_value (fmt_0d 10 offset) = Some (Z.to_N offset)
                   /\ (offset < 10 ^ 10 -> length (fmt_0d 10 offset) = 10%nat)).
    { intros H0. split.
      - unfold fmt_0d. rewrite Z.abs_eq by exact H0.
        destruct offset; try lia;
          rewrite decimal_value_zeros; apply decimal_value_decimal.
      - intros Hlt. apply (fmt_0d_exact 9 offset). cbn. lia. }
    destruct Hcase as [[-> ->]|[Hi Hlt]].
    + cbn [Nat.eqb]. rewrite xref_entry_sentinel.
      split; [reflexivity|]. split; [exact Hpos|]. now apply Hfmt.
    + destruct i as [|i]; [lia|]. cbn [Nat.eqb].
      rewrite xref_entry_object by lia.
      split; [reflexivity|]. split; [lia|]. apply Hfmt. lia.
Qed.

Lemma index_lines_witness :
  exists wd,
    session empty_file [sample_call] (lit "token") = (wd, Ok tt)
    /\ forall i offset,
         nth_error (obj_offsets (self wd)) i = Some offset ->
         offset < 10 ^ 10 ->
         length (fmt_0d 10 offset) = 10%nat.
Proof.
  destruct (index_lines empty_file [sample_call] (lit "token")
              ltac:(discriminate) ltac:(repeat constructor))
    as (wd & Hs & _ & Hlines).
  exists wd. split; [exact Hs|].
  intros i offset Hn. exact (proj2 (proj2 (proj2 (Hlines i offset Hn)))).
Defined.

(** C7 as stated fails when an offset needs more than ten digits: the
    first line of this index is 21 bytes long and its offset field has 11
    digits. *)
Lemma index_line_wider_than_ten_digits :
  snd (session far_file [sample_call] (lit "token")) = Ok tt
  /\ nth_error
       (xref_entries
          (initial_offset (self (fst (session far_file [sample_call] (lit "token")))))
          (obj_offsets (self (fst (session far_file [sample_call] (lit "token"))))))
       0
     = Some (lit "10000000000 65535 f " ++ nl)
  /\ nth_error
       (obj_offsets (self (fst (session far_file [sample_call] (lit "token")))))
       0
     = Some 10000000000
  /\ length (fmt_0d 10 10000000000) = 11%nat
  /\ length (lit "10000000000 65535 f " ++ nl) = 21%nat.
Proof. vm_compute. repeat split. Qed.

(** ** Double-precision rounding *)

Lemma rne_of_record mrs V W :
  0 < W -> represents mrs V W ->
  round_nearest_even (shr_m mrs) (loc_of_shr_record mrs) = rne V W.
Proof.
  intros HW (Hm & Hr & Hs). unfold rne.
  pose proof (Z.mod_pos_bound V W HW) as Hrem.
  destruct mrs as [m r s]; cbn [shr_m shr_r shr_s] in *. subst m.
  destruct (Z.compare_spec (2 * (V mod W)) W) as [E|L|G].
  - assert (r = true) as -> by (rewrite Hr; apply Z.leb_le; lia).
    assert (s = false) as ->.
    { rewrite Hs. apply andb_false_iff. right. apply negb_false_iff.
      apply Z.eqb_eq. exact E. }
    reflexivity.
  - assert (r = false) as -> by (rewrite Hr; apply Z.leb_gt; lia).
    destruct s; reflexivity.
  - assert (r = true) as -> by (rewrite Hr; apply Z.leb_le; lia).
    assert (s = true) as ->.
    { rewrite Hs. apply andb_true_iff. split; apply negb_true_iff;
        apply Z.eqb_neq; lia. }
    reflexivity.
Qed.

Lemma shr_1_shape m r s :
  0 <= m ->
  shr_1 {| shr_m := m; shr_r := r; shr_s := s |}
  = {| shr_m := m / 2; shr_r := Z.odd m; shr_s := orb r s |}.
Proof.
  intros Hm. unfold shr_1.
  destruct m as [|[p|p|]|p]; try reflexivity; try lia.
  - f_equal. rewrite Pos2Z.inj_xI. apply Z.div_unique with 1; lia.
  - f_equal. rewrite Pos2Z.inj_xO. apply Z.div_unique with 0; lia.
Qed.

Lemma shr_1_represents mrs V W :
  0 <= V -> 0 < W -> represents mrs V W -> represents (shr_1 mrs) V (2 * W).
Proof.
  intros HV HW (Hm & Hr & Hs).
  pose proof (Z.mod_pos_bound V W HW) as Hrem.
  assert (Hq : 0 <= V / W) by (apply Z.div_pos; lia).
  assert (Hmod : V mod (2 * W) = V mod W + W * ((V / W) mod 2)).
  { rewrite (Z.mul_comm 2 W). rewrite Z.rem_mul_r by lia. reflexivity. }
  assert (Hdiv : V / (2 * W) = V / W / 2).
  { rewrite (Z.mul_comm 2 W). now rewrite Z.div_div by lia. }
  pose proof (Z.mod_pos_bound (V / W) 2 ltac:(lia)) as Hbit.
  assert (Hhalf : V / W = 2 * (V / W / 2) + (V / W) mod 2)
    by (apply Z.div_mod; lia).
  destruct mrs as [m r s]; cbn [shr_m shr_r shr_s] in *.
  assert (Hrs : orb r s = negb (V mod W =? 0)).
  { rewrite Hr, Hs.
    destruct (Z.leb_spec W (2 * (V mod W)));
      destruct (Z.eqb_spec (V mod W) 0);
      destruct (Z.eqb_spec (2 * (V mod W)) W); cbn; try reflexivity; lia. }
  unfold represents. rewrite Hmod, Hdiv.
  set (q := V / W) in *. set (rem := V mod W) in *.
  assert (Hshape :
    shr_1 {| shr_m := m; shr_r := r; shr_s := s |}
    = {| shr_m := m / 2; shr_r := Z.odd m; shr_s := orb r s |}).
  { apply shr_1_shape. lia. }
  rewrite Hshape. cbn [shr_m shr_r shr_s]. rewrite Hrs. subst m.
  assert (Hodd : Z.odd q = negb (q mod 2 =? 0)).
  { rewrite Zmod_odd. destruct (Z.odd q); reflexivity. }
  assert (Hcase : q mod 2 = 0 \/ q mod 2 = 1) by lia.
  repeat split.
  - rewrite Hodd.
    destruct Hcase as [E|E]; rewrite E; cbn [Z.eqb negb];
      [symmetry; apply Z.leb_gt | symmetry; apply Z.leb_le]; lia.
  - destruct Hcase as [E|E]; rewrite E;
      destruct (Z.eqb_spec rem 0);
      [ destruct (Z.eqb_spec (rem + W * 0) 0)
      | destruct (Z.eqb_spec (rem + W * 0) 0)
      | destruct (Z.eqb_spec (rem + W * 1) 0)
      | destruct (Z.eqb_spec (rem + W * 1) 0) ];
      [ destruct (Z.eqb_spec (2 * (rem + W * 0)) (2 * W))
      | destruct (Z.eqb_spec (2 * (rem + W * 0)) (2 * W))
      | destruct (Z.eqb_spec (2 * (rem + W * 0)) (2 * W))
      | destruct (Z.eqb_spec (2 * (rem + W * 0)) (2 * W))
      | destruct (Z.eqb_spec (2 * (rem + W * 1)) (2 * W))
      | destruct (Z.eqb_spec (2 * (rem + W * 1)) (2 * W))
      | destruct (Z.eqb_spec (2 * (rem + W * 1)) (2 * W))
      | destruct (Z.eqb_spec (2 * (rem + W * 1)) (2 * W)) ];
      cbn; try reflexivity; lia.
Qed.

Lemma pow2_xI p : 2 ^ Zpos p~1 = 2 * (2 ^ Zpos p * 2 ^ Zpos p).
Proof.
  replace (Zpos p~1) with (1 + (Zpos p + Zpos p)) by lia.
  rewrite !Z.pow_add_r by lia. reflexivity.
Qed.

Lemma pow2_xO p : 2 ^ Zpos p~0 = 2 ^ Zpos p * 2 ^ Zpos p.
Proof.
  replace (Zpos p~0) with (Zpos p + Zpos p) by lia.
  now rewrite Z.pow_add_r by lia.
Qed.

Lemma iter_pos_represents (p : positive) : forall mrs V W,
  0 <= V -> 0 < W -> represents mrs V W ->
  represents (iter_pos shr_1 p mrs) V (W * 2 ^ Zpos p).
Proof.
  induction p as [p IH|p IH|]; intros mrs V W HV HW H; cbn [iter_pos].
  - assert (Hp : 0 < 2 ^ Zpos p) by (apply Z.pow_pos_nonneg; lia).
    apply shr_1_represents in H; try lia.
    apply IH in H; try lia. apply IH in H; try nia.
    rewrite pow2_xI.
    replace (W * (2 * (2 ^ Zpos p * 2 ^ Zpos p)))
      with (2 * W * 2 ^ Zpos p * 2 ^ Zpos p) by ring.
    exact H.
  - assert (Hp : 0 < 2 ^ Zpos p) by (apply Z.pow_pos_nonneg; lia).
    apply IH in H; try lia. apply IH in H; try nia.
    rewrite pow2_xO.
    replace (W * (2 ^ Zpos p * 2 ^ Zpos p)) with (W * 2 ^ Zpos p * 2 ^ Zpos p)
      by ring.
    exact H.
  - apply shr_1_represents in H; try lia.
    change (2 ^ 1) with 2. now rewrite Z.mul_comm.
Qed.

(** [shr] by [n >= 0] places. *)
Lemma shr_represents mrs e n V W :
  0 <= V -> 0 < W -> 0 <= n -> represents mrs V W ->
  represents (fst (shr mrs e n)) V (W * 2 ^ n) /\ snd (shr mrs e n) = e + n.
Proof.
  intros HV HW Hn H. unfold shr.
  destruct n as [|p|p]; try lia; cbn [fst snd].
  - rewrite Z.mul_1_r, Z.add_0_r. now split.
  - split; [now apply iter_pos_represents | reflexivity].
Qed.

(** Number of binary digits. *)
Lemma digits2_pos_spec (p : positive) :
  2 ^ (Zpos (digits2_pos p) - 1) <= Zpos p < 2 ^ Zpos (digits2_pos p).
Proof.
  induction p as [p IH|p IH|]; cbn [digits2_pos].
  - rewrite Pos2Z.inj_succ.
    replace (Z.succ (Zpos (digits2_pos p)) - 1) with (1 + (Zpos (digits2_pos p) - 1)) by lia.
    rewrite Z.pow_succ_r by lia.
    rewrite Z.pow_add_r by lia. change (2 ^ 1) with 2. lia.
  - rewrite Pos2Z.inj_succ.
    replace (Z.succ (Zpos (digits2_pos p)) - 1) with (1 + (Zpos (digits2_pos p) - 1)) by lia.
    rewrite Z.pow_succ_r by lia.
    rewrite Z.pow_add_r by lia. change (2 ^ 1) with 2. lia.
  - cbn. lia.
Qed.

Lemma digits_unique (z d : Z) :
  0 < d -> 2 ^ (d - 1) <= z < 2 ^ d -> Zdigits2 z = d.
Proof.
  intros Hd [Hlo Hhi].
  assert (0 < z) by (pose proof (Z.pow_pos_nonneg 2 (d - 1)); lia).
  destruct z as [|p|p]; try lia. cbn [Zdigits2].
  pose proof (digits2_pos_spec p) as [Hl Hh].
  set (k := Zpos (digits2_pos p)) in *.
  assert (0 < k) by (unfold k; lia).
  destruct (Z.lt_trichotomy k d) as [L|[E|G]]; [|exact E|].
  - exfalso. assert (2 ^ k <= 2 ^ (d - 1)) by (apply Z.pow_le_mono_r; lia). lia.
  - exfalso. assert (2 ^ d <= 2 ^ (k - 1)) by (apply Z.pow_le_mono_r; lia). lia.
Qed.

Lemma loc_of_represents (m num den : Z) :
  0 <= m -> 0 <= num < den ->
  represents (shr_record_of_loc m (loc_of num den)) (m * den + num) den.
Proof.
  intros Hm Hn.
  assert (Hdiv : (m * den + num) / den = m).
  { symmetry. apply Z.div_unique with num; lia. }
  assert (Hmod : (m * den + num) mod den = num).
  { symmetry. apply Z.mod_unique with m; lia. }
  unfold represents. rewrite Hdiv, Hmod. unfold loc_of.
  destruct (Z.eqb_spec num 0) as [->|Hnz]; cbn [shr_record_of_loc negb andb].
  - cbn [shr_m shr_r shr_s]. repeat split. symmetry. apply Z.leb_gt. lia.
  - destruct (Z.compare_spec (2 * num) den) as [E|L|G];
      cbn [shr_record_of_loc shr_m shr_r shr_s]; repeat split;
      try (symmetry; apply Z.leb_le; lia);
      try (symmetry; apply Z.leb_gt; lia);
      destruct (Z.eqb_spec (2 * num) den); cbn; try reflexivity; lia.
Qed.

Lemma new_location_loc_of (den num : Z) :
  0 <= num < den -> new_location den num = loc_of num den.
Proof.
  intros Hn. unfold new_location, new_location_even, new_location_odd, loc_of.
  destruct (Z.even den) eqn:Hev; [reflexivity|].
  destruct (Z.eqb_spec num 0); [reflexivity|]. f_equal.
  assert (Hodd : den mod 2 = 1).
  { rewrite Zmod_even, Hev. reflexivity. }
  assert (Hne : 2 * num <> den).
  { intros E. rewrite <- E in Hodd.
    rewrite Z.mul_comm, Z.mod_mul in Hodd by lia. discriminate. }
  destruct (Z.compare_spec (2 * num + 1) den);
    destruct (Z.compare_spec (2 * num) den); try reflexivity; lia.
Qed.

Lemma rne_nearest (V W : Z) : 0 < W -> nearest_even (rne V W) V W.
Proof.
  intros HW. unfold nearest_even, rne.
  pose proof (Z.mod_pos_bound V W HW) as Hrem.
  pose proof (Z.div_mod V W ltac:(lia)) as Hdm.
  set (q := V / W) in *. set (rem := V mod W) in *.
  destruct (Z.compare_spec (2 * rem) W) as [E|L|G].
  - destruct (Z.even q) eqn:Hev.
    + split; [|intros _; exact Hev]. nia.
    + split; [nia|]. intros _.
      rewrite Z.even_add, Hev. reflexivity.
  - split; [nia|]. intros E. exfalso. nia.
  - split; [nia|]. intros E. exfalso. nia.
Qed.

Lemma fexp_normal (e : Z) : -1074 <= e - 53 -> fexp prec emax e = e - 53.
Proof. intros H. unfold fexp, emin, prec, emax. lia. Qed.

(** Rounding a positive mantissa of at least 53 digits, followed by a
    fraction [num / den], in the normal range. *)
Lemma binary_round_aux_nearest (mx ex num den : Z) :
  0 < mx -> 0 <= num < den ->
  53 <= Zdigits2 mx ->
  -1074 <= Zdigits2 mx + ex - 53 ->
  Zdigits2 mx + ex - 53 + 1 <= 971 ->
  exists m e,
    binary_round_aux prec emax false mx ex (loc_of num den)
    = S754_finite false m e
    /\ 2 ^ 52 <= Zpos m < 2 ^ 53
    /\ (e = ex + (Zdigits2 mx - 53)
         /\ Zpos m = rne (mx * den + num) (den * 2 ^ (Zdigits2 mx - 53))
        \/ e = ex + (Zdigits2 mx - 53) + 1
           /\ rne (mx * den + num) (den * 2 ^ (Zdigits2 mx - 53)) = 2 ^ 53)
    /\ nearest_even (Zpos m) (mx * den + num) (den * 2 ^ (e - ex)).
Proof.
  intros Hmx Hn Hd Hlo Hhi.
  set (d := Zdigits2 mx) in *.
  set (n := d - 53).
  set (V := mx * den + num).
  assert (Hn0 : 0 <= n) by (unfold n; lia).
  assert (Hpn : 0 < 2 ^ n) by (apply Z.pow_pos_nonneg; lia).
  assert (HW : 0 < den * 2 ^ n) by nia.
  assert (HV : 0 <= V) by (unfold V; nia).
  (* the first shift *)
  unfold binary_round_aux, shr_fexp. fold d.
  rewrite fexp_normal by lia.
  replace (d + ex - 53 - ex) with n by (unfold n; lia).
  destruct (shr_represents (shr_record_of_loc mx (loc_of num den)) ex n V den
              HV ltac:(lia) Hn0 (loc_of_represents mx num den ltac:(lia) Hn))
    as [Hrep He].
  destruct (shr (shr_record_of_loc mx (loc_of num den)) ex n) as [mrs' e'].
  cbn [fst snd] in Hrep, He. subst e'.
  rewrite (rne_of_record mrs' V (den * 2 ^ n) HW Hrep).
  (* the rounded mantissa has 53 digits, or is 2^53 *)
  pose proof (rne_nearest V (den * 2 ^ n) HW) as Hnear.
  assert (Hq : V / (den * 2 ^ n) = mx / 2 ^ n).
  { rewrite <- Z.div_div by lia. f_equal.
    symmetry. apply Z.div_unique with num; unfold V; lia. }
  assert (Hmxd : 2 ^ (d - 1) <= mx < 2 ^ d).
  { destruct mx as [|p|p]; try lia. apply digits2_pos_spec. }
  assert (Hsplit : 2 ^ d = 2 ^ 53 * 2 ^ n /\ 2 ^ (d - 1) = 2 ^ 52 * 2 ^ n).
  { split; rewrite <- Z.pow_add_r by lia; f_equal; unfold n; lia. }
  destruct Hsplit as [Hs1 Hs2].
  assert (Hqb : 2 ^ 52 <= mx / 2 ^ n < 2 ^ 53).
  { split.
    - apply Z.div_le_lower_bound; lia.
    - apply Z.div_lt_upper_bound; lia. }
  assert (Hm1 : 2 ^ 52 <= rne V (den * 2 ^ n) <= 2 ^ 53).
  { unfold rne. rewrite Hq.
    destruct (2 * (V mod (den * 2 ^ n)) ?= den * 2 ^ n); try lia.
    destruct (Z.even (mx / 2 ^ n)); lia. }
  set (m1 := rne V (den * 2 ^ n)) in *.
  destruct (Z.eq_dec m1 (2 ^ 53)) as [E53|N53].
  - (* carry into a 54th digit: one more shift *)
    rewrite E53.
    exists (Z.to_pos (2 ^ 52)), (ex + n + 1).
    split; [|split; [|split]].
    + vm_compute (Zdigits2 (2 ^ 53)).
      rewrite fexp_normal by lia.
      replace (54 + (ex + n) - 53 - (ex + n)) with 1 by lia.
      cbn [shr shr_record_of_loc iter_pos].
      rewrite shr_1_shape by (vm_compute; discriminate).
      cbn [shr_m]. change (2 ^ 53 / 2) with (Zpos (Z.to_pos (2 ^ 52))).
      cbv beta iota.
      assert (Hle : (ex + n + 1 <=? emax - prec) = true)
        by (apply Z.leb_le; unfold emax, prec, n; lia).
      now rewrite Hle.
    + vm_compute. split; [discriminate | reflexivity].
    + right. split; reflexivity.
    + replace (ex + n + 1 - ex) with (n + 1) by lia.
      rewrite Z.pow_add_r by lia. change (2 ^ 1) with 2.
      change (Zpos (Z.to_pos (2 ^ 52))) with (2 ^ 52).
      destruct Hnear as [Hnear _]. rewrite E53 in Hnear.
      split; [|intros _; reflexivity].
      replace (den * (2 ^ n * 2) * 2 ^ 52 - (mx * den + num))
        with (den * 2 ^ n * 2 ^ 53 - V) by (unfold V; change (2 ^ 53) with (2 * 2 ^ 52); ring).
      lia.
  - assert (Hm1' : 2 ^ 52 <= m1 < 2 ^ 53) by lia.
    assert (Hdig : Zdigits2 m1 = 53) by (apply digits_unique; lia).
    exists (Z.to_pos m1), (ex + n).
    assert (Hpos : Zpos (Z.to_pos m1) = m1) by (apply Z2Pos.id; lia).
    split; [|split; [|split]].
    + rewrite Hdig. rewrite fexp_normal by lia.
      replace (53 + (ex + n) - 53 - (ex + n)) with 0 by lia.
      cbn [shr shr_record_of_loc shr_m].
      rewrite <- Hpos at 1. cbv beta iota.
      assert (Hle : (ex + n <=? emax - prec) = true)
        by (apply Z.leb_le; unfold emax, prec, n; lia).
      now rewrite Hle.
    + rewrite Hpos. exact Hm1'.
    + left. split; [reflexivity | exact Hpos].
    + rewrite Hpos. replace (ex + n - ex) with n by lia. exact Hnear.
Qed.

Lemma iter_xO_mul (mx d : positive) :
  Zpos (Pos.iter xO mx d) = Zpos mx * 2 ^ Zpos d.
Proof.
  induction d as [|d IH] using Pos.peano_ind.
  - cbn. lia.
  - rewrite Pos.iter_succ, Pos2Z.inj_succ, Z.pow_succ_r by lia.
    rewrite Pos2Z.inj_xO, IH. ring.
Qed.

Lemma rne_exact (V : Z) : rne V 1 = V.
Proof. unfold rne. rewrite Z.mod_1_r, Z.div_1_r. reflexivity. Qed.

(** [float(z)] is exact for a positive integer below [2^53]: the mantissa
    is [z] shifted up to 53 digits. *)
Lemma float_of_small_int (z : Z) :
  1 <= z < 2 ^ 53 ->
  exists m e,
    binary_normalize prec emax z 0 false = S754_finite false m e
    /\ 2 ^ 52 <= Zpos m < 2 ^ 53
    /\ -52 <= e <= 0
    /\ e = Zdigits2 z - 53
    /\ Zpos m = z * 2 ^ (- e).
Proof.
  intros [H1 H2]. destruct z as [|zp|zp]; try lia.
  cbn [binary_normalize Zdigits2]. unfold binary_round.
  pose proof (digits2_pos_spec zp) as [Hlo Hhi].
  set (d := Zpos (digits2_pos zp)) in *.
  assert (Hd : 1 <= d <= 53).
  { split; [unfold d; lia|].
    destruct (Z.le_gt_cases d 53) as [|G]; [assumption|exfalso].
    assert (2 ^ 53 <= 2 ^ (d - 1)) by (apply Z.pow_le_mono_r; lia). lia. }
  rewrite Z.add_0_r. rewrite fexp_normal by lia.
  (* the aligned mantissa *)
  assert (Halign : exists mz,
            shl_align zp 0 (d - 53) = (mz, d - 53)
            /\ Zpos mz = Zpos zp * 2 ^ (53 - d)).
  { unfold shl_align. rewrite Z.sub_0_r.
    destruct (d - 53) as [|q|q] eqn:E; try lia.
    - exists zp. split; [reflexivity|].
      replace (53 - d) with 0 by lia. lia.
    - exists (Pos.iter xO zp q). split; [reflexivity|].
      rewrite iter_xO_mul. f_equal. f_equal. lia. }
  destruct Halign as (mz & -> & Hmz).
  assert (Hpw : 2 ^ 53 = 2 ^ d * 2 ^ (53 - d) /\ 2 ^ 52 = 2 ^ (d - 1) * 2 ^ (53 - d)).
  { split; rewrite <- Z.pow_add_r by lia; f_equal; lia. }
  destruct Hpw as [Hp1 Hp2].
  assert (Hp3 : 0 < 2 ^ (53 - d)) by (apply Z.pow_pos_nonneg; lia).
  assert (Hmzb : 2 ^ 52 <= Zpos mz < 2 ^ 53) by (rewrite Hmz; nia).
  assert (Hdig : Zdigits2 (Zpos mz) = 53) by (apply digits_unique; lia).
  destruct (binary_round_aux_nearest (Zpos mz) (d - 53) 0 1
              ltac:(lia) ltac:(lia) ltac:(lia) ltac:(lia) ltac:(lia))
    as (m & e & Hbra & Hmb & Hcase & _).
  change (loc_of 0 1) with loc_Exact in Hbra.
  rewrite Hdig in Hcase. change (53 - 53) with 0 in Hcase.
  rewrite Z.mul_1_r, Z.add_0_r, Z.mul_1_l in Hcase.
  change (2 ^ 0) with 1 in Hcase. rewrite rne_exact in Hcase.
  destruct Hcase as [[-> Hm]|[_ Hbad]]; [|lia].
  exists m, (d - 53). rewrite Hbra.
  repeat split; try lia.
  rewrite Hm, Z.add_0_r, Hmz. f_equal. f_equal. lia.
Qed.

Lemma nearest_even_scale (s m V W : Z) :
  0 < s -> nearest_even m (s * V) (s * W) -> nearest_even m V W.
Proof.
  intros Hs [H E].
  replace (s * W * m - s * V) with (s * (W * m - V)) in * by ring.
  rewrite Z.abs_mul, (Z.abs_eq s) in * by lia.
  split; [nia|]. intros T. apply E. nia.
Qed.

(** Quotient of two positive doubles with 53-digit mantissas. *)
Lemma SFdiv_nearest (mx my : positive) (ex ey : Z) :
  2 ^ 52 <= Zpos mx < 2 ^ 53 -> 2 ^ 52 <= Zpos my < 2 ^ 53 ->
  -52 <= ex <= 0 -> -52 <= ey <= 0 ->
  exists m e,
    SFdiv prec emax (S754_finite false mx ex) (S754_finite false my ey)
    = S754_finite false m e
    /\ 2 ^ 52 <= Zpos m < 2 ^ 53
    /\ 0 <= e - (ex - ey - 53) <= 2
    /\ nearest_even (Zpos m) (Zpos mx * 2 ^ 53)
         (Zpos my * 2 ^ (e - (ex - ey - 53))).
Proof.
  intros Hx Hy Hex Hey.
  unfold SFdiv, SFdiv_core_binary. cbn [xorb].
  rewrite (digits_unique (Zpos mx) 53) by lia.
  rewrite (digits_unique (Zpos my) 53) by lia.
  rewrite fexp_normal by lia.
  replace (Z.min (53 + ex - (53 + ey) - 53) (ex - ey)) with (ex - ey - 53) by lia.
  replace (ex - ey - (ex - ey - 53)) with 53 by lia.
  rewrite Z.shiftl_mul_pow2 by lia.
  set (N := Zpos mx * 2 ^ 53).
  assert (HN : 0 <= N) by (unfold N; lia).
  pose proof (Z.div_mod N (Zpos my) ltac:(lia)) as Hdm.
  pose proof (Z.mod_pos_bound N (Zpos my) ltac:(lia)) as Hrem.
  unfold Z.div_eucl at 1. fold (Z.div_eucl N (Zpos my)).
  assert (Hde : Z.div_eucl N (Zpos my) = (N / Zpos my, N mod Zpos my)).
  { unfold Z.div, Z.modulo. now destruct (Z.div_eucl N (Zpos my)). }
  rewrite Hde.
  set (q := N / Zpos my) in *. set (rem := N mod Zpos my) in *.
  rewrite new_location_loc_of by lia.
  assert (Hq : 2 ^ 52 <= q < 2 ^ 54).
  { unfold q, N. split.
    - apply Z.div_le_lower_bound; [lia|].
      change (2 ^ 53) with (2 * 2 ^ 52) in *. nia.
    - apply Z.div_lt_upper_bound; [lia|].
      change (2 ^ 54) with (2 * 2 ^ 53) in *. change (2 ^ 53) with (2 * 2 ^ 52) in *.
      nia. }
  assert (Hdq : Zdigits2 q = 53 \/ Zdigits2 q = 54).
  { destruct (Z.lt_ge_cases q (2 ^ 53)).
    - left. apply digits_unique; lia.
    - right. apply digits_unique; lia. }
  destruct (binary_round_aux_nearest q (ex - ey - 53) rem (Zpos my)
              ltac:(lia) ltac:(lia) ltac:(lia) ltac:(lia) ltac:(lia))
    as (m & e & Hbra & Hmb & Hcase & Hnear).
  exists m, e. rewrite Hbra.
  split; [reflexivity|]. split; [exact Hmb|].
  split; [destruct Hcase as [[-> _]|[-> _]]; lia|].
  replace (q * Zpos my + rem) with N in Hnear by lia.
  exact Hnear.
Qed.

(** Product of two positive doubles with 53-digit mantissas. *)
Lemma SFmul_nearest (mx my : positive) (ex ey : Z) :
  2 ^ 52 <= Zpos mx < 2 ^ 53 -> 2 ^ 52 <= Zpos my < 2 ^ 53 ->
  -200 <= ex <= 200 -> -200 <= ey <= 200 ->
  exists m e,
    SFmul prec emax (S754_finite false mx ex) (S754_finite false my ey)
    = S754_finite false m e
    /\ 2 ^ 52 <= Zpos m < 2 ^ 53
    /\ 52 <= e - (ex + ey) <= 54
    /\ nearest_even (Zpos m) (Zpos mx * Zpos my) (2 ^ (e - (ex + ey))).
Proof.
  intros Hx Hy Hex Hey.
  unfold SFmul. cbn [xorb]. rewrite Pos2Z.inj_mul.
  set (N := Zpos mx * Zpos my).
  assert (HN : 2 ^ 104 <= N < 2 ^ 106).
  { unfold N. change (2 ^ 104) with (2 ^ 52 * 2 ^ 52).
    change (2 ^ 106) with (2 ^ 53 * 2 ^ 53). nia. }
  assert (Hd : Zdigits2 N = 105 \/ Zdigits2 N = 106).
  { destruct (Z.lt_ge_cases N (2 ^ 105)).
    - left. apply digits_unique; lia.
    - right. apply digits_unique; lia. }
  destruct (binary_round_aux_nearest N (ex + ey) 0 1
              ltac:(lia) ltac:(lia) ltac:(lia) ltac:(lia) ltac:(lia))
    as (m & e & Hbra & Hmb & Hcase & Hnear).
  change (loc_of 0 1) with loc_Exact in Hbra.
  exists m, e. rewrite Hbra.
  split; [reflexivity|]. split; [exact Hmb|].
  split; [destruct Hcase as [[-> _]|[-> _]]; lia|].
  rewrite Z.mul_1_r, Z.add_0_r, Z.mul_1_l in Hnear. exact Hnear.
Qed.

(** The arithmetic behind [int(pixels / float(resolution) * 72)]. *)
Lemma points_arith (p r mq mt g c : Z) :
  1 <= p < 2 ^ 45 -> 1 <= r ->
  2 ^ 52 <= mq < 2 ^ 53 -> 2 ^ 52 <= mt < 2 ^ 53 ->
  0 <= g -> 3 <= c <= 5 ->
  nearest_even mq (p * 2 ^ g) r ->
  nearest_even mt (9 * mq) (2 ^ c) ->
  1 <= g - 3 - c /\ mt / 2 ^ (g - 3 - c) = 72 * p / r.
Proof.
  intros Hp Hr Hmq Hmt Hg Hc [HA EA] [HB EB].
  change (2 ^ 45) with 35184372088832 in *.
  change (2 ^ 52) with 4503599627370496 in *.
  change (2 ^ 53) with 9007199254740992 in *.
  (* c is 3 or 4 *)
  assert (Hc4 : c = 3 \/ c = 4).
  { assert (Hc3 : c = 3 \/ c = 4 \/ c = 5) by lia.
    destruct Hc3 as [?|[?|E5]]; auto.
    exfalso. subst c. change (2 ^ 5) with 32 in HB. lia. }
  (* g is at least 8 *)
  assert (Hg8 : 8 <= g).
  { destruct (Z.le_gt_cases 8 g) as [|Hlt]; [assumption|exfalso].
    assert (2 ^ g <= 2 ^ 7) by (apply Z.pow_le_mono_r; lia).
    change (2 ^ 7) with 128 in *.
    assert (0 < 2 ^ g) by (apply Z.pow_pos_nonneg; lia).
    assert (r * mq - p * 2 ^ g <= Z.abs (r * mq - p * 2 ^ g)) by lia.
    nia. }
  split; [lia|].
  set (h := g - 3 - c).
  assert (Hh : 1 <= h) by (unfold h; lia).
  assert (HG : 2 ^ g = 8 * 2 ^ c * 2 ^ h).
  { change 8 with (2 ^ 3). rewrite <- !Z.pow_add_r by lia. f_equal. unfold h. lia. }
  assert (HH2 : 2 ^ h = 2 * 2 ^ (h - 1)).
  { rewrite <- Z.pow_succ_r by lia. f_equal. lia. }
  assert (HHp : 0 < 2 ^ (h - 1)) by (apply Z.pow_pos_nonneg; lia).
  set (H := 2 ^ h) in *. set (G := 2 ^ g) in *. set (H' := 2 ^ (h - 1)) in *.
  pose proof (Z.div_mod (72 * p) r ltac:(lia)) as Hdm.
  pose proof (Z.mod_pos_bound (72 * p) r ltac:(lia)) as Hrho.
  set (K := 72 * p / r) in *. set (rho := (72 * p) mod r) in *.
  assert (HK : 0 <= K) by (apply Z.div_pos; lia).
  assert (HA1 : - r <= 2 * (r * mq - p * G) <= r) by lia.
  assert (E1 : 72 * (p * H) = r * (K * H) + rho * H) by (clear - Hdm; nia).
  assert (E2 : H <= r * H - rho * H) by (clear - Hrho HH2 HHp; nia).
  assert (E3 : 0 <= rho * H) by (clear - Hrho HH2 HHp; nia).
  assert (E4 : r * (2 * mq - 1) >= r * 9007199254740991) by (clear - Hr Hmq; nia).
  assert (E5 : p * H <= 35184372088831 * H) by (clear - Hp HH2 HHp; nia).
  symmetry. apply Z.div_unique_pos with (r := mt - K * H); [|lia].
  enough (K * H <= mt < (K + 1) * H) by lia.
  destruct Hc4 as [-> | ->].
  - (* the product is rounded to a multiple of 8 *)
    change (2 ^ 3) with 8 in *.
    assert (HB1 : - 8 <= 2 * (8 * mt - 9 * mq) <= 8) by lia.
    assert (HGH : p * G = 64 * (p * H)) by (rewrite HG; ring).
    assert (HHr : 2 * r + 1 <= H) by lia.
    split.
    + destruct (Z.le_gt_cases (K * H) mt) as [|Hlt]; [assumption|exfalso].
      assert (a1 : 9 * mq <= 8 * (K * H) - 4) by lia.
      assert (F1 : r * (9 * mq) <= r * (8 * (K * H) - 4))
        by (apply Z.mul_le_mono_nonneg_l; lia).
      assert (F1' : 9 * (r * mq) <= 8 * (r * (K * H)) - 4 * r)
        by (replace (8 * (r * (K * H)) - 4 * r)
              with (r * (8 * (K * H) - 4)) by ring; lia).
      assert (F2 : rho = 0).
      { destruct (Z.eq_dec rho 0) as [|Hne]; [assumption|exfalso].
        assert (H <= rho * H) by (clear - Hrho Hne HH2 HHp; nia). lia. }
      assert (F3 : 72 * p = r * K) by lia.
      (* the quotient was rounded by at most 4/9 of a unit *)
      assert (F4 : - 4 <= 9 * mq - 8 * (K * H) <= 4).
      { assert (T : r * (- 36) <= r * (72 * mq - 64 * (K * H)) <= r * 36).
        { replace (r * (72 * mq - 64 * (K * H)))
            with (72 * (r * mq) - 64 * (r * (K * H))) by ring.
          rewrite F2 in E1. lia. }
        assert (- 36 <= 72 * mq - 64 * (K * H) <= 36).
        { split; apply Z.mul_le_mono_pos_l with r; lia. }
        lia. }
      assert (F5 : 8 * mt - 9 * mq = - 4) by lia.
      assert (F6 : mt = K * H - 1) by lia.
      assert (Hev : Z.even mt = true) by (apply EB; lia).
      rewrite F6, HH2 in Hev.
      replace (K * (2 * H') - 1) with (1 + 2 * (K * H' - 1)) in Hev by ring.
      rewrite Z.even_add_mul_2 in Hev. discriminate.
    + destruct (Z.lt_ge_cases mt ((K + 1) * H)) as [|Hge]; [assumption|exfalso].
      assert (a1 : 9 * mq >= 8 * (K * H + H) - 4) by lia.
      assert (F1 : r * (8 * (K * H + H) - 4) <= r * (9 * mq))
        by (apply Z.mul_le_mono_nonneg_l; lia).
      assert (F1' : 8 * (r * (K * H)) + 8 * (r * H) - 4 * r <= 9 * (r * mq))
        by (replace (8 * (r * (K * H)) + 8 * (r * H) - 4 * r)
              with (r * (8 * (K * H + H) - 4)) by ring; lia).
      lia.
  - (* the product is rounded to a multiple of 16 *)
    change (2 ^ 4) with 16 in *.
    assert (HB1 : - 16 <= 2 * (16 * mt - 9 * mq) <= 16) by lia.
    assert (HGH : p * G = 128 * (p * H)) by (rewrite HG; ring).
    assert (HHr : r + 1 <= H) by lia.
    split.
    + destruct (Z.le_gt_cases (K * H) mt) as [|Hlt]; [assumption|exfalso].
      assert (a1 : 9 * mq <= 16 * (K * H) - 8) by lia.
      assert (F1 : r * (9 * mq) <= r * (16 * (K * H) - 8))
        by (apply Z.mul_le_mono_nonneg_l; lia).
      assert (F1' : 9 * (r * mq) <= 16 * (r * (K * H)) - 8 * r)
        by (replace (16 * (r * (K * H)) - 8 * r)
              with (r * (16 * (K * H) - 8)) by ring; lia).
      lia.
    + destruct (Z.lt_ge_cases mt ((K + 1) * H)) as [|Hge]; [assumption|exfalso].
      assert (a1 : 9 * mq >= 16 * (K * H + H) - 8) by lia.
      assert (F1 : r * (16 * (K * H + H) - 8) <= r * (9 * mq))
        by (apply Z.mul_le_mono_nonneg_l; lia).
      assert (F1' : 16 * (r * (K * H)) + 16 * (r * H) - 8 * r <= 9 * (r * mq))
        by (replace (16 * (r * (K * H)) + 16 * (r * H) - 8 * r)
              with (r * (16 * (K * H + H) - 8)) by ring; lia).
      lia.
Qed.

(** ** The conversion of pixels to points *)

Lemma float_of_int_small (z : Z) :
  1 <= z < 2 ^ 53 ->
  exists m e,
    float_of_int z = Ok (S754_finite false m e)
    /\ 2 ^ 52 <= Zpos m < 2 ^ 53
    /\ -52 <= e <= 0
    /\ Zpos m = z * 2 ^ (- e).
Proof.
  intros Hz.
  destruct (float_of_small_int z Hz) as (m & e & Hf & Hm & He & _ & Hv).
  exists m, e. unfold float_of_int. rewrite Hf. repeat split; tauto.
Qed.

(** On this range the double-precision computation is exact. *)
Lemma pixels_to_points_exact (pixels resolution : Z) :
  1 <= pixels < 2 ^ 45 ->
  1 <= resolution < 2 ^ 53 ->
  _pixels_to_points pixels resolution = Ok (pixels * 72 / resolution).
Proof.
  intros Hp Hr.
  destruct (float_of_int_small resolution Hr) as (mr & er & Hfr & Hmr & Her & Hvr).
  destruct (float_of_int_small pixels ltac:(change (2 ^ 53) with (2 ^ 45 * 256); lia))
    as (mp & ep & Hfp & Hmp & Hep & Hvp).
  destruct (SFdiv_nearest mp mr ep er Hmp Hmr Hep Her)
    as (mq & eq & Hdiv & Hmq & Hjj & Hnq).
  assert (Hf72 : float_of_int 72
                 = Ok (S754_finite false 5066549580791808 (-46)))
    by (vm_compute; reflexivity).
  destruct (SFmul_nearest mq 5066549580791808 eq (-46) Hmq
              ltac:(vm_compute; split; [discriminate|reflexivity])
              ltac:(lia) ltac:(lia))
    as (mt & et & Hmul & Hmt & Hkk & Hnt).
  unfold _pixels_to_points.
  rewrite Hfr; cbn [rbind]. rewrite Hfp; cbn [rbind].
  cbn [float_div rbind]. rewrite Hf72; cbn [rbind].
  unfold float_mul. rewrite Hdiv, Hmul. cbn [int_of_float].
  f_equal.
  (* the two roundings, freed of the scaling *)
  set (g := - eq).
  set (c := et - (eq + -46) - 49).
  assert (Hg : 0 <= g).
  { unfold g.
    (* pixels has at most 45 digits *)
    assert (8 <= - ep).
    { destruct (Z.le_gt_cases 8 (- ep)) as [|Hlt]; [assumption|exfalso].
      assert (2 ^ (- ep) <= 2 ^ 7) by (apply Z.pow_le_mono_r; lia).
      assert (0 < 2 ^ (- ep)) by (apply Z.pow_pos_nonneg; lia).
      change (2 ^ 7) with 128 in *. change (2 ^ 45) with 35184372088832 in *.
      change (2 ^ 52) with 4503599627370496 in *. nia. }
    lia. }
  assert (HA : nearest_even (Zpos mq) (pixels * 2 ^ g) resolution).
  { apply nearest_even_scale with (s := 2 ^ (- er + (eq - (ep - er - 53)))).
    - apply Z.pow_pos_nonneg; lia.
    - replace (2 ^ (- er + (eq - (ep - er - 53))) * (pixels * 2 ^ g))
        with (Zpos mp * 2 ^ 53).
      + replace (2 ^ (- er + (eq - (ep - er - 53))) * resolution)
          with (Zpos mr * 2 ^ (eq - (ep - er - 53))); [exact Hnq|].
        rewrite Hvr, Z.pow_add_r by lia. ring.
      + rewrite Hvp.
        replace (2 ^ (- er + (eq - (ep - er - 53))) * (pixels * 2 ^ g))
          with (pixels * (2 ^ (- er + (eq - (ep - er - 53))) * 2 ^ g)) by ring.
        rewrite <- Z.mul_assoc, <- !Z.pow_add_r by lia.
        f_equal. f_equal. unfold g. lia. }
  assert (HB : nearest_even (Zpos mt) (9 * Zpos mq) (2 ^ c)).
  { apply nearest_even_scale with (s := 2 ^ 49).
    - reflexivity.
    - rewrite <- Z.pow_add_r by (unfold c; lia).
      replace (49 + c) with (et - (eq + -46)) by (unfold c; lia).
      replace (2 ^ 49 * (9 * Zpos mq)) with (Zpos mq * 5066549580791808)
        by (change (2 ^ 49) with 562949953421312; ring).
      exact Hnt. }
  destruct (points_arith pixels resolution (Zpos mq) (Zpos mt) g c
              Hp ltac:(lia) Hmq Hmt Hg ltac:(unfold c; lia) HA HB)
    as [Hh Hres].
  replace (g - 3 - c) with (- et) in * by (unfold g, c; lia).
  rewrite Z.shiftl_div_pow2 by lia.
  rewrite Hres. f_equal. ring.
Qed.

Lemma converts_in_range (pixels resolution : Z) :
  1 <= pixels < 2 ^ 45 -> 1 <= resolution < 2 ^ 53 ->
  converts pixels resolution = true.
Proof.
  intros Hp Hr. unfold converts.
  now rewrite (pixels_to_points_exact pixels resolution Hp Hr).
Qed.

(** C4, amended.  For every pixel count from 1 to below [2^45] and every
    resolution from 1 to below [2^53], the dimension in points the writer
    computes is [floor(pixels * 72 / resolution)]; in particular 800 pixels
    at resolution 150 give 384 points and 1508 pixels at resolution 72 give
    1508 points.  (The writer computes in double precision; outside this
    range the result can differ from the floor, or the call can raise.) *)
Theorem points_are_floor_in_range (pixels resolution : Z) :
  1 <= pixels < 2 ^ 45 ->
  1 <= resolution < 2 ^ 53 ->
  _pixels_to_points pixels resolution = Ok (pixels * 72 / resolution)
  /\ _pixels_to_points 800 150 = Ok 384
  /\ _pixels_to_points 1508 72 = Ok 1508.
Proof.
  intros Hp Hr. split; [|split].
  - exact (pixels_to_points_exact pixels resolution Hp Hr).
  - vm_compute. reflexivity.
  - vm_compute. reflexivity.
Qed.

Lemma points_are_floor_in_range_witness :
  _pixels_to_points 572 96 = Ok 429.
Proof.
  assert (Hp : 1 <= 572 < 2 ^ 45) by (split; [lia | reflexivity]).
  assert (Hr : 1 <= 96 < 2 ^ 53) by (split; [lia | reflexivity]).
  exact (proj1 (points_are_floor_in_range 572 96 Hp Hr)).
Defined.

(** C4 as stated fails for very large pixel counts.  For 70126388898850
    pixels at resolution 121 the quotient is rounded up to a double whose
    product with 72 reaches the next integer; [2^53 + 1] pixels are no
    double at all, and [float] rounds them to [2^53]. *)
Lemma points_differ_from_floor :
  _pixels_to_points 70126388898850 121 = Ok 41728099179481
  /\ 70126388898850 * 72 / 121 = 41728099179480
  /\ _pixels_to_points (2 ^ 53 + 1) 1 = Ok 648518346341351424
  /\ (2 ^ 53 + 1) * 72 / 1 = 648518346341351496.
Proof. vm_compute. repeat split. Qed.

(** * Further properties of the writer *)

(** ** A page is written completely or not at all *)

Lemma written_write3 (f : sink) (a b c : bytes) :
  written (write (write (write f a) b) c) = written f ++ a ++ b ++ c.
Proof. unfold write; cbn [written]. now rewrite <- !app_assoc. Qed.

Lemma tell_write2 (f : sink) (a b : bytes) :
  tell (write (write f a) b) = tell f + len a + len b.
Proof. rewrite !tell_write. lia. Qed.

(** X1. [add_page] writes a page completely or not at all.  Whatever the
    writer and the arguments, either the call returns normally, and then the
    writer was open, the arguments passed validation, the output file
    gained exactly the three objects of the page (page, image, contents, in
    that order, numbered from the last allocated identifier on), the ledger
    gained the three positions at which they begin and the attributes
    advanced; or the call raises, and then neither the output file nor the
    ledger has changed. *)
Theorem add_page_all_or_nothing (p : payload)
  (width_px height_px resolution : Z) (grayscale : bool) (wd : world) :
  let wd' := fst (add_page p width_px height_px resolution grayscale wd) in
  let outcome := snd (add_page p width_px height_px resolution grayscale wd) in
  let ref := last_obj (self wd) + 1 in
  (exists width_pt height_pt,
     outcome = Ok tt
     /\ is_open wd
     /\ passes_validation p width_px height_px resolution = true
     /\ _pixels_to_points width_px resolution = Ok width_pt
     /\ _pixels_to_points height_px resolution = Ok height_pt
     /\ start (out wd') = start (out wd)
     /\ written (out wd')
        = written (out wd)
            ++ page_text ref (ref + 1) (ref + 2) width_pt height_pt
            ++ image_text (ref + 1) width_px height_px
                 (colorspace_of grayscale) (payload_bytes p)
                 (len (payload_bytes p))
            ++ contents_text (ref + 2) width_pt height_pt
     /\ obj_offsets (self wd')
        = obj_offsets (self wd)
            ++ [tell (out wd);
                tell (out wd)
                  + len (page_text ref (ref + 1) (ref + 2) width_pt height_pt);
                tell (out wd)
                  + len (page_text ref (ref + 1) (ref + 2) width_pt height_pt)
                  + len (image_text (ref + 1) width_px height_px
                           (colorspace_of grayscale) (payload_bytes p)
                           (len (payload_bytes p)))]
     /\ last_obj (self wd') = last_obj (self wd) + 3
     /\ page_refs (self wd') = page_refs (self wd) ++ [ref]
     /\ page_count (self wd') = page_count (self wd) + 1
     /\ is_open wd')
  \/ (exists e,
        outcome = Raise e
        /\ out wd' = out wd
        /\ obj_offsets (self wd') = obj_offsets (self wd)
        /\ _file (self wd') = _file (self wd)).
Proof.
  cbv zeta. rewrite add_page_eq. unfold add_page_outcome.
  destruct (passes_validation p width_px height_px resolution) eqn:Hv.
  - destruct (passes_validation_true _ _ _ _ Hv) as (-> & -> & -> & -> & ->).
    destruct (_pixels_to_points width_px resolution) as [width_pt|e];
      [|right; exists e; repeat split].
    destruct (_pixels_to_points height_px resolution) as [height_pt|e];
      [|right; exists e; repeat split].
    destruct (_file (self wd)) as [[]|] eqn:Hfile;
      [|right; eexists; repeat split; exact Hfile].
    left. exists width_pt, height_pt. cbn [fst snd].
    replace (last_obj (self wd) + 1 + 2) with (last_obj (self wd) + 1 + 1 + 1)
      by lia.
    repeat split; try assumption.
    + unfold write_objects, emit, record_offset; cbn [out].
      apply written_write3.
    + unfold write_objects, emit, record_offset, allocate.
      cbn [self out set_obj_offsets obj_offsets set_page_count set_page_refs
           set_last_obj].
      rewrite <- !app_assoc. cbn [app]. rewrite tell_write2, tell_write.
      reflexivity.
    + cbn. lia.
  - right. unfold passes_validation in Hv.
    destruct (bytes_eqb (firstn 2 (payload_bytes p)) SOI); cbn [negb];
      [|eexists; repeat split].
    destruct (Z.ltb_spec (len (payload_bytes p)) min_jpeg_len);
      [eexists; repeat split|].
    destruct (Z.ltb_spec width_px 1); [eexists; repeat split|].
    destruct (Z.ltb_spec height_px 1); [eexists; repeat split|].
    destruct (Z.ltb_spec resolution 1); [eexists; repeat split|].
    exfalso. rewrite !andb_false_iff in Hv.
    destruct Hv as [[[[H'|H']|H']|H']|H']; (discriminate || lia).
Qed.

(** ** A sealed writer *)

(** X2. Once [close] has returned normally, no later call writes to the
    output file: whatever is called on the writer afterwards and whatever
    it raises, the file object holds the same bytes as before the call, and
    the ledger is as before. *)
Theorem sealed_file_is_frozen (wd : world) :
  after_close wd ->
  (forall p width_px height_px resolution grayscale,
     out (fst (add_page p width_px height_px resolution grayscale wd)) = out wd
     /\ obj_offsets
          (self (fst (add_page p width_px height_px resolution grayscale wd)))
        = obj_offsets (self wd))
  /\ (forall uuid4,
        out (fst (close uuid4 wd)) = out wd
        /\ obj_offsets (self (fst (close uuid4 wd))) = obj_offsets (self wd)).
Proof.
  intros Hac. pose proof (after_close_sealed wd Hac) as S.
  split.
  - intros p w h r g.
    destruct (passes_validation p w h r) eqn:Hv.
    + rewrite (add_page_closed _ _ _ _ _ _ (proj1 S) Hv). now split.
    + destruct (add_page_invalid p w h r g wd Hv) as (msg & ->). now split.
  - intros uuid4. rewrite (close_closed uuid4 wd S). now split.
Qed.

Lemma sealed_file_is_frozen_witness :
  out (fst (add_page (Str sample_jpeg) 800 600 72 false closed_sample))
  = out closed_sample
  /\ out (fst (close (lit "again") closed_sample)) = out closed_sample.
Proof.
  destruct (sealed_file_is_frozen closed_sample closed_sample_after_close)
    as [Hadd Hclose].
  split.
  - exact (proj1 (Hadd (Str sample_jpeg) 800 600 72 false)).
  - exact (proj1 (Hclose (lit "again"))).
Defined.

(** X3. A further [close] on a sealed writer is not state-preserving: it
    raises the closed-writer [RuntimeError] only after it has advanced the
    last allocated identifier by 1.  Everything else (file, ledger, page
    count, page references, index position and size, catalog reference) is
    as before, and the writer stays sealed. *)
Theorem close_again_advances_last_obj (uuid4 : bytes) (wd : world) :
  after_close wd ->
  close uuid4 wd
  = ({| out := out wd;
        self := set_last_obj (last_obj (self wd) + 1) (self wd) |},
     Raise (RuntimeError "PDF closed."))
  /\ after_close (fst (close uuid4 wd)).
Proof.
  intros Hac. pose proof (after_close_sealed wd Hac) as S.
  split; [exact (close_closed uuid4 wd S)|].
  apply (after_close_again uuid4 wd _ (snd (close uuid4 wd)) Hac).
  now destruct (close uuid4 wd).
Qed.

Lemma close_again_advances_last_obj_witness :
  last_obj (self closed_sample) = 5
  /\ last_obj (self (fst (close (lit "again") closed_sample))) = 6
  /\ snd (close (lit "again") closed_sample)
     = Raise (RuntimeError "PDF closed.").
Proof.
  destruct (close_again_advances_last_obj (lit "again") closed_sample
              closed_sample_after_close) as [H _].
  rewrite H. repeat split.
Defined.

(** ** Calls whose exceptions the caller catches *)

Lemma is_open_page_added (c : call) (wd : world) :
  is_open wd -> is_open (page_added c wd).
Proof. exact (fun H => H). Qed.

Lemma accepted_cases (c : call) :
  accepted c = false /\ valid_call c = false /\ overflows c = false
  \/ accepted c = true /\ valid_call c = true /\ overflows c = false
  \/ accepted c = true /\ valid_call c = false /\ overflows c = true.
Proof.
  unfold valid_call, overflows, accepted.
  destruct (passes_validation _ _ _ _);
    destruct (converts (c_width_px c) (c_resolution c));
    destruct (converts (c_height_px c) (c_resolution c)); cbn; tauto.
Qed.

Lemma add_page_call_rejected (c : call) (wd : world) :
  accepted c = false -> fst (add_page_call c wd) = wd.
Proof.
  intros H. unfold add_page_call.
  destruct (add_page_invalid _ _ _ _ (c_grayscale c) wd H) as (msg & ->).
  reflexivity.
Qed.

Lemma add_page_call_overflow (c : call) (wd : world) :
  overflows c = true -> fst (add_page_call c wd) = allocate wd.
Proof.
  unfold overflows, accepted, converts, add_page_call.
  rewrite andb_true_iff, negb_true_iff. intros [Hv Hc].
  rewrite add_page_eq. unfold add_page_outcome.
  destruct (passes_validation_true _ _ _ _ Hv) as (-> & -> & -> & -> & ->).
  destruct (_pixels_to_points (c_width_px c) (c_resolution c));
    [|reflexivity].
  destruct (_pixels_to_points (c_height_px c) (c_resolution c));
    [discriminate|reflexivity].
Qed.

Lemma add_pages_filter (cs : list call) : forall wd,
  is_open wd ->
  Forall (fun c => overflows c = false) cs ->
  add_pages (filter valid_call cs) wd = (after_calls cs wd, Ok tt).
Proof.
  induction cs as [|c cs IH]; intros wd Ho Hno; [reflexivity|].
  inversion Hno as [|? ? Hc Hcs]; subst.
  cbn [filter after_calls fold_left]. fold (after_calls cs).
  destruct (accepted_cases c) as [(Ha & Hv & _)|[(Ha & Hv & _)|(_ & _ & Hov)]];
    [| |congruence]; rewrite Hv.
  - rewrite (add_page_call_rejected c wd Ha). now apply IH.
  - unfold add_pages. cbn [for_each].
    rewrite (bind_ok _ (add_page_valid_open c wd Hv Ho)).
    rewrite (add_page_valid_open c wd Hv Ho). cbn [fst].
    apply IH; [now apply is_open_page_added | exact Hcs].
Qed.

(** X4. Rejected calls leave no trace.  Take any sequence of [add_page]
    calls on a fresh writer in which no accepted call fails to convert a
    dimension, the caller catching the [ValueError] of each rejected call
    and going on.  Then [close] behaves exactly as in the session made of
    the valid calls alone: same outcome, same writer, same bytes in the
    output file. *)
Theorem rejected_calls_leave_no_trace (file : sink) (cs : list call)
  (uuid4 : bytes) :
  Forall (fun c => overflows c = false) cs ->
  close uuid4 (after_calls cs (fst (__init__ file)))
  = session file (filter valid_call cs) uuid4.
Proof.
  intros Hno. unfold session. rewrite init_eq. cbn [fst].
  now rewrite (bind_ok _ (add_pages_filter cs (init_world file) eq_refl Hno)).
Qed.

Lemma rejected_calls_leave_no_trace_witness :
  close (lit "token")
    (after_calls [bad_call; sample_call; bad_call] (fst (__init__ empty_file)))
  = session empty_file [sample_call] (lit "token").
Proof.
  apply (rejected_calls_leave_no_trace empty_file
           [bad_call; sample_call; bad_call] (lit "token")).
  repeat constructor.
Defined.

(** ** A writer on which a conversion to points has failed *)

Lemma _write_xref_mismatch {wd} :
  is_open wd ->
  6 <= last_obj (self wd) + 1 ->
  last_obj (self wd) + 1 <> len (obj_offsets (self wd)) ->
  _write_xref wd
  = (upd (fun s => set_xref_size (last_obj s + 1) s)
       (upd (set_xref_offset (tell (out wd))) wd), Raise AssertionError).
Proof.
  intros H H6 Hl. unfold _write_xref.
  do 2 wstep H.
  rewrite (bind_ok _ (modify_eq _ _)).
  rewrite (bind_ok _ (modify_eq _ _)).
  unfold bind at 1, get at 1. cbv beta iota.
  cbn [self upd set_xref_size set_xref_offset xref_size last_obj obj_offsets
       initial_offset].
  assert (E1 : (last_obj (self wd) + 1 >=? 6) = true) by lia.
  assert (E2 : (last_obj (self wd) + 1 =? len (obj_offsets (self wd))) = false)
    by lia.
  rewrite E1, E2. unfold assert.
  unfold bind at 1, ret at 1. cbv beta iota.
  reflexivity.
Qed.

(** [close] on a writer whose ledger is behind: the catalog and the page
    list are written, then the size check of the index fails. *)
Lemma close_behind (uuid4 : bytes) (wd : world) :
  behind wd ->
  exists wd',
    close uuid4 wd = (wd', Raise AssertionError)
    /\ behind wd'
    /\ start (out wd') = start (out wd)
    /\ written (out wd')
       = written (out wd) ++ catalog_text (last_obj (self wd) + 1)
           ++ page_list_text (page_count (self wd)) (page_refs (self wd)).
Proof.
  intros (H & Hc & Hr & Ho & H4 & Hl). unfold close.
  unfold bind at 1, get at 1. cbv beta iota.
  assert (E : (page_count (self wd) <? 1) = false) by lia. rewrite E.
  rewrite (bind_ok _ (modify_eq _ _)).
  set (w1 := upd (set_last_obj (last_obj (self wd) + 1)) wd).
  assert (H1 : is_open w1) by exact H.
  rewrite (bind_ok _ (_write_catalog_open _ H1)).
  set (w2 := upd _ (emit (record_offset w1) _)).
  assert (H2 : is_open w2) by exact H.
  assert (Hoff2 : obj_offsets (self w2) = obj_offsets (self wd) ++ [tell (out wd)])
    by reflexivity.
  assert (Hlen2 : length (obj_offsets (self w2))
                  = S (length (obj_offsets (self wd))))
    by (rewrite Hoff2, length_app; cbn [length]; lia).
  assert (Hlt : (1 < length (obj_offsets (self w2)))%nat) by lia.
  rewrite (bind_ok _ (@_write_page_list_open w2 H2 Hc Hr Hlt)).
  set (w3 := emit _ _).
  assert (H3 : is_open w3) by exact H.
  assert (Hlast3 : last_obj (self w3) = last_obj (self wd) + 1) by reflexivity.
  assert (Hlen3 : len (obj_offsets (self w3)) = len (obj_offsets (self wd)) + 1).
  { unfold w3, len.
    cbn [self emit upd set_obj_offsets obj_offsets].
    rewrite length_backpatch by lia. lia. }
  assert (H63 : 6 <= last_obj (self w3) + 1) by lia.
  assert (Hne : last_obj (self w3) + 1 <> len (obj_offsets (self w3))) by lia.
  rewrite (bind_raise _ (@_write_xref_mismatch w3 H3 H63 Hne)).
  eexists. split; [reflexivity|]. split; [|split].
  - cbn [upd self out set_xref_size set_xref_offset].
    repeat split; try assumption.
    + unfold len in *. change (length (obj_offsets (self w3)) >= 1)%nat. lia.
    + change (4 <= last_obj (self w3)). lia.
    + change (len (obj_offsets (self w3)) < last_obj (self w3) + 1). lia.
  - reflexivity.
  - unfold w3, w2, w1, emit, upd, record_offset, write; cbn [out written self].
    now rewrite <- app_assoc.
Qed.

Lemma add_page_behind p width_px height_px resolution grayscale wd :
  behind wd ->
  behind (fst (add_page p width_px height_px resolution grayscale wd)).
Proof.
  intros (H & Hc & Hr & Ho & H4 & Hl).
  rewrite add_page_eq. unfold add_page_outcome.
  assert (Hal : behind (allocate wd)).
  { unfold behind, allocate, is_open;
      cbn [self out set_page_count set_page_refs set_last_obj _file page_count
           page_refs obj_offsets last_obj].
    repeat split; try assumption; try lia.
    rewrite len_app. change (len [last_obj (self wd) + 1]) with 1. lia. }
  destruct (negb (bytes_eqb (firstn 2 (payload_bytes p)) SOI));
    [repeat split; assumption|].
  destruct (len (payload_bytes p) <? min_jpeg_len); [repeat split; assumption|].
  destruct (width_px <? 1); [repeat split; assumption|].
  destruct (height_px <? 1); [repeat split; assumption|].
  destruct (resolution <? 1); [repeat split; assumption|].
  destruct (_pixels_to_points width_px resolution) as [width_pt|e];
    [|exact Hal].
  destruct (_pixels_to_points height_px resolution) as [height_pt|e];
    [|exact Hal].
  rewrite H. cbn [fst].
  unfold behind, write_objects, emit, record_offset, allocate, is_open, len.
  cbn [self out set_obj_offsets set_page_count set_page_refs set_last_obj
       _file page_count page_refs obj_offsets last_obj].
  unfold len in Hr, Hl. rewrite !length_app. cbn [length].
  repeat split; try assumption; lia.
Qed.

Lemma tally_init (file : sink) : tally 0 0 (init_world file).
Proof. repeat split. lia. Qed.

Lemma tally_step (c : call) (p v : nat) (wd : world) :
  tally p v wd ->
  tally (if accepted c then S p else p) (if valid_call c then S v else v)
    (fst (add_page_call c wd)).
Proof.
  intros (H & Hvp & Hc & Hr & Hl & Ho).
  destruct (accepted_cases c) as [(Ha & Hv & _)|[(Ha & Hv & _)|(Ha & Hv & Hov)]];
    rewrite Ha, Hv.
  - rewrite (add_page_call_rejected c wd Ha). repeat split; assumption.
  - rewrite (add_page_valid_open c wd Hv H). cbn [fst].
    destruct (page_added_self c wd) as (Hf & Hlast & Hrefs & Hcount & _).
    unfold tally, is_open.
    rewrite Hf, Hlast, Hrefs, Hcount, page_added_offsets, !length_app.
    cbn [length]. repeat split; try assumption; lia.
  - rewrite (add_page_call_overflow c wd Hov).
    unfold tally, allocate, is_open.
    cbn [self out set_page_count set_page_refs set_last_obj _file page_count
         page_refs obj_offsets last_obj].
    rewrite length_app. cbn [length]. repeat split; try assumption; lia.
Qed.

Lemma tally_after_calls (cs : list call) : forall p v wd,
  tally p v wd ->
  exists p' v', tally p' v' (after_calls cs wd).
Proof.
  induction cs as [|c cs IH]; intros p v wd T; [now exists p, v|].
  cbn [after_calls fold_left]. fold (after_calls cs).
  exact (IH _ _ _ (tally_step c p v wd T)).
Qed.

Lemma after_overflow_behind (wd : world) : after_overflow wd -> behind wd.
Proof.
  induction 1 as [file cs c Hov | p w h r g wd wd' res _ IH H
                 | uuid4 wd wd' res _ IH H].
  - rewrite init_eq. cbn [fst].
    destruct (tally_after_calls cs 0 0 (init_world file) (tally_init file))
      as (p & v & (H & Hvp & Hc & Hr & Hl & Ho)).
    rewrite (add_page_call_overflow c _ Hov).
    unfold behind, allocate, is_open, len.
    cbn [self out set_page_count set_page_refs set_last_obj _file page_count
         page_refs obj_offsets last_obj].
    rewrite length_app. cbn [length]. repeat split; try assumption; lia.
  - pose proof (add_page_behind p w h r g wd IH) as B. now rewrite H in B.
  - destruct (close_behind uuid4 wd IH) as (wd2 & Hrun & B & _).
    rewrite Hrun in H. now injection H as <- _.
Qed.



(** ** The layout of the finished document *)

Lemma add_pages_layout (cs : list call) : forall cs0 wd,
  Forall (fun c => valid_call c = true) cs ->
  Inv cs0 wd ->
  exists wd',
    add_pages cs wd = (wd', Ok tt)
    /\ Inv (cs0 ++ cs) wd'
    /\ start (out wd') = start (out wd)
    /\ written (out wd') = written (out wd) ++ pages_text (length cs0) cs
    /\ obj_offsets (self wd')
       = obj_offsets (self wd) ++ pages_offsets (tell (out wd)) (length cs0) cs
    /\ initial_offset (self wd') = initial_offset (self wd).
Proof.
  induction cs as [|c cs IH]; intros cs0 wd Hv I.
  - exists wd. rewrite !app_nil_r.
    split; [reflexivity|]. split; [exact I|]. now repeat split.
  - inversion Hv as [|? ? Hc Hcs]; subst.
    destruct (IH (cs0 ++ [c]) (page_added c wd) Hcs (Inv_page_added cs0 c wd I))
      as (wd' & Hrun & I' & Hs & Hw & Ho & Hi).
    exists wd'.
    assert (Hlen : length (cs0 ++ [c]) = S (length cs0))
      by (rewrite length_app; cbn; lia).
    assert (Href : last_obj (self wd) + 1 = page_id (length cs0)).
    { rewrite (inv_last I). unfold page_id, len. lia. }
    assert (HP : added_page_text c wd = call_page_text (page_id (length cs0)) c).
    { unfold added_page_text, call_page_text. rewrite <- Href.
      f_equal; lia. }
    assert (HI : added_image_text c wd = call_image_text (page_id (length cs0)) c).
    { unfold added_image_text, call_image_text. rewrite <- Href.
      f_equal; lia. }
    assert (HC : added_contents_text c wd
                 = call_contents_text (page_id (length cs0)) c).
    { unfold added_contents_text, call_contents_text. rewrite <- Href.
      f_equal; lia. }
    rewrite Hlen in *.
    split; [|split; [|split; [|split; [|split]]]].
    + unfold add_pages in *. cbn [for_each].
      now rewrite (bind_ok _ (add_page_valid_open c wd Hc (inv_open I))).
    + now rewrite <- app_assoc in I'.
    + rewrite Hs. reflexivity.
    + rewrite Hw, page_added_out, written_write3, HP, HI, HC.
      cbn [pages_text]. now rewrite <- !app_assoc.
    + rewrite Ho, page_added_offsets, page_added_out, HP, HI, HC.
      cbn [pages_offsets]. rewrite <- app_assoc. cbn [app].
      rewrite !tell_write. reflexivity.
    + rewrite Hi. apply page_added_self.
Qed.

Lemma tell_eq (f : sink) (data : bytes) (g : sink) :
  start g = start f -> written g = written f ++ data ->
  tell g = tell f + len data.
Proof. intros Hs Hw. unfold tell. rewrite Hs, Hw, len_app. lia. Qed.

(** The finished document and its ledger, in closed form. *)
Lemma session_layout (file : sink) (cs : list call) (uuid4 : bytes) :
  cs <> [] ->
  Forall (fun c => valid_call c = true) cs ->
  let n := len cs in
  let body := preamble ++ pages_text 0 cs in
  let catalog := catalog_text (3 * n + 2) in
  let page_list := page_list_text n (map page_id (seq 0 (length cs))) in
  let pos_catalog := tell file + len body in
  let pos_page_list := pos_catalog + len catalog in
  let pos_xref := pos_page_list + len page_list in
  let ledger :=
    tell file :: pos_page_list
      :: pages_offsets (tell file + len preamble) 0 cs ++ [pos_catalog] in
  exists wd,
    session file cs uuid4 = (wd, Ok tt)
    /\ start (out wd) = start file
    /\ written (out wd)
       = written file ++ body ++ catalog ++ page_list
           ++ xref_text (tell file) (3 * n + 3) ledger
           ++ trailer_text (3 * n + 3) (3 * n + 2) uuid4 pos_xref
    /\ obj_offsets (self wd) = ledger
    /\ xref_offset (self wd) = pos_xref.
Proof.
  intros Hne Hv. cbv zeta.
  destruct (session_valid file cs uuid4 Hne Hv) as (wd & I & Hrun & Hsess).
  destruct (add_pages_layout cs [] (init_world file) Hv (init_inv file))
    as (wd2 & Hrun2 & _ & Hs & Hw & Ho & Hi).
  rewrite Hrun in Hrun2. injection Hrun2 as <-.
  cbn [length app] in Hw, Ho.
  change (written (out (init_world file))) with (written file ++ preamble) in Hw.
  change (start (out (init_world file))) with (start file) in Hs.
  change (obj_offsets (self (init_world file))) with [tell file; 8] in Ho.
  change (initial_offset (self (init_world file))) with (tell file) in Hi.
  change (tell (out (init_world file))) with (tell (write file preamble)) in Ho.
  rewrite tell_write in Ho.
  rewrite <- app_assoc in Hw.
  assert (Htell : tell (out wd) = tell file + len (preamble ++ pages_text 0 cs))
    by (apply tell_eq; assumption).
  assert (Hlast : last_obj (self wd) + 1 = 3 * len cs + 2)
    by (rewrite (inv_last I); lia).
  assert (Hcat : final_catalog_text wd = catalog_text (3 * len cs + 2))
    by (unfold final_catalog_text; now rewrite Hlast).
  assert (Hpl : final_page_list_text wd
                = page_list_text (len cs) (map page_id (seq 0 (length cs))))
    by (unfold final_page_list_text; now rewrite (inv_count I), (inv_refs I)).
  assert (Hoffs : final_offsets wd
                  = tell file
                      :: tell file + len (preamble ++ pages_text 0 cs)
                         + len (catalog_text (3 * len cs + 2))
                      :: pages_offsets (tell file + len preamble) 0 cs
                           ++ [tell file + len (preamble ++ pages_text 0 cs)]).
  { unfold final_offsets. rewrite Hcat, tell_write, Htell, Ho.
    reflexivity. }
  assert (Hpos : final_xref_pos wd
                 = tell file + len (preamble ++ pages_text 0 cs)
                   + len (catalog_text (3 * len cs + 2))
                   + len (page_list_text (len cs)
                            (map page_id (seq 0 (length cs))))).
  { unfold final_xref_pos. now rewrite tell_write2, Htell, Hcat, Hpl. }
  exists (closed_world uuid4 wd).
  split; [exact Hsess|]. split; [exact Hs|]. split; [|split].
  - rewrite final_written, Hw, Hcat, Hpl.
    unfold final_xref_text, final_trailer_text.
    rewrite Hoffs, Hpos, Hi, Hlast.
    replace (3 * len cs + 2 + 1) with (3 * len cs + 3) by lia.
    now rewrite <- !app_assoc.
  - exact Hoffs.
  - exact Hpos.
Qed.


(** X6. The finished document, byte for byte.  For every non-empty
    sequence of valid calls followed by [close], the output file holds,
    after what it held before: the two header lines; the page, image and
    contents objects of each call in call order; the catalog; the page
    list; the index; the trailer; and nothing else.  The ledger is the
    list of the positions at which these objects begin (slot 0 the position
    of the file when the writer got it, slot 1 the page list, written
    last), and the index position is where the index begins. *)
Theorem document_layout (file : sink) (cs : list call) (uuid4 : bytes) :
  cs <> [] ->
  Forall (fun c => valid_call c = true) cs ->
  let n := len cs in
  let body := preamble ++ pages_text 0 cs in
  let catalog := catalog_text (3 * n + 2) in
  let page_list := page_list_text n (map page_id (seq 0 (length cs))) in
  let pos_catalog := tell file + len body in
  let pos_page_list := pos_catalog + len catalog in
  let pos_xref := pos_page_list + len page_list in
  let ledger :=
    tell file :: pos_page_list
      :: pages_offsets (tell file + len preamble) 0 cs ++ [pos_catalog] in
  exists wd,
    session file cs uuid4 = (wd, Ok tt)
    /\ start (out wd) = start file
    /\ written (out wd)
       = written file ++ body ++ catalog ++ page_list
           ++ xref_text (tell file) (3 * n + 3) ledger
           ++ trailer_text (3 * n + 3) (3 * n + 2) uuid4 pos_xref
    /\ obj_offsets (self wd) = ledger
    /\ xref_offset (self wd) = pos_xref.
Proof. exact (session_layout file cs uuid4). Qed.

Lemma document_layout_witness :
  exists wd,
    session empty_file [sample_call; sample_call_2] (lit "token") = (wd, Ok tt)
    /\ obj_offsets (self wd) = [0; 1111; 19; 172; 457; 538; 693; 981; 1064]
    /\ xref_offset (self wd) = 1173.
Proof.
  destruct (document_layout empty_file [sample_call; sample_call_2]
              (lit "token") ltac:(discriminate) ltac:(repeat constructor))
    as (wd & Hrun & _ & _ & Ho & Hx).
  exists wd. split; [exact Hrun|]. split.
  - rewrite Ho. vm_compute. reflexivity.
  - rewrite Hx. vm_compute. reflexivity.
Defined.

(** ** What the conversion to points can raise *)

Lemma shr_1_nonneg (mrs : shr_record) :
  0 <= shr_m mrs -> 0 <= shr_m (shr_1 mrs).
Proof.
  destruct mrs as [m r s]. cbn [shr_m]. intros Hm.
  destruct m as [|[p|p|]|p]; cbn; lia.
Qed.

Lemma iter_pos_shr_1_nonneg (p : positive) : forall mrs,
  0 <= shr_m mrs -> 0 <= shr_m (iter_pos shr_1 p mrs).
Proof.
  induction p as [p IH|p IH|]; intros mrs H; cbn [iter_pos].
  - apply IH, IH, shr_1_nonneg, H.
  - apply IH, IH, H.
  - apply shr_1_nonneg, H.
Qed.

Lemma shr_m_record_of_loc (m : Z) (l : location) :
  shr_m (shr_record_of_loc m l) = m.
Proof. destruct l as [|[]]; reflexivity. Qed.

Lemma shr_fexp_nonneg (m e : Z) (l : location) :
  0 <= m -> 0 <= shr_m (fst (shr_fexp prec emax m e l)).
Proof.
  intros Hm. unfold shr_fexp, shr.
  destruct (fexp prec emax (Zdigits2 m + e) - e) as [|p|p]; cbn [fst];
    try (now rewrite shr_m_record_of_loc).
  apply iter_pos_shr_1_nonneg. now rewrite shr_m_record_of_loc.
Qed.

Lemma round_nearest_even_nonneg (m : Z) (l : location) :
  0 <= m -> 0 <= round_nearest_even m l.
Proof.
  intros Hm. destruct l as [|[]]; cbn [round_nearest_even]; try lia.
  destruct (Z.even m); lia.
Qed.

(** Rounding a mantissa that is not negative gives a zero, a finite number
    or an infinity of the sign asked for, never a NaN. *)
Lemma binary_round_aux_sign (s : bool) (mx ex : Z) (l : location) :
  0 <= mx ->
  binary_round_aux prec emax s mx ex l = S754_zero s
  \/ (exists m e, binary_round_aux prec emax s mx ex l = S754_finite s m e)
  \/ binary_round_aux prec emax s mx ex l = S754_infinity s.
Proof.
  intros Hm. unfold binary_round_aux.
  pose proof (shr_fexp_nonneg mx ex l Hm) as H1.
  destruct (shr_fexp prec emax mx ex l) as [mrs' e']. cbn [fst] in H1.
  pose proof (shr_fexp_nonneg _ e' loc_Exact
                (round_nearest_even_nonneg (shr_m mrs') (loc_of_shr_record mrs')
                   H1)) as H2.
  destruct (shr_fexp prec emax
              (round_nearest_even (shr_m mrs') (loc_of_shr_record mrs')) e'
              loc_Exact) as [mrs'' e'']. cbn [fst] in H2.
  destruct (shr_m mrs'') as [|m|m]; [now left | | lia].
  destruct (e'' <=? emax - prec); [right; left; now exists m, e'' | now right; right].
Qed.

(** Rounding a positive mantissa of at least 53 digits at or above the
    normal range: the exponent decides between a finite number and an
    infinity. *)
Lemma binary_round_aux_any (mx ex num den : Z) :
  0 < mx -> 0 <= num < den ->
  53 <= Zdigits2 mx ->
  -1074 <= Zdigits2 mx + ex - 53 ->
  exists m e,
    binary_round_aux prec emax false mx ex (loc_of num den)
    = (if e <=? 971 then S754_finite false m e else S754_infinity false)
    /\ ex + (Zdigits2 mx - 53) <= e <= ex + (Zdigits2 mx - 53) + 1.
Proof.
  intros Hmx Hn Hd Hlo.
  set (d := Zdigits2 mx) in *.
  set (n := d - 53).
  set (V := mx * den + num).
  assert (Hn0 : 0 <= n) by (unfold n; lia).
  assert (Hpn : 0 < 2 ^ n) by (apply Z.pow_pos_nonneg; lia).
  assert (HW : 0 < den * 2 ^ n) by nia.
  assert (HV : 0 <= V) by (unfold V; nia).
  unfold binary_round_aux, shr_fexp. fold d.
  rewrite fexp_normal by lia.
  replace (d + ex - 53 - ex) with n by (unfold n; lia).
  destruct (shr_represents (shr_record_of_loc mx (loc_of num den)) ex n V den
              HV ltac:(lia) Hn0 (loc_of_represents mx num den ltac:(lia) Hn))
    as [Hrep He].
  destruct (shr (shr_record_of_loc mx (loc_of num den)) ex n) as [mrs' e'].
  cbn [fst snd] in Hrep, He. subst e'.
  rewrite (rne_of_record mrs' V (den * 2 ^ n) HW Hrep).
  assert (Hq : V / (den * 2 ^ n) = mx / 2 ^ n).
  { rewrite <- Z.div_div by lia. f_equal.
    symmetry. apply Z.div_unique with num; unfold V; lia. }
  assert (Hmxd : 2 ^ (d - 1) <= mx < 2 ^ d).
  { destruct mx as [|p|p]; try lia. apply digits2_pos_spec. }
  assert (Hsplit : 2 ^ d = 2 ^ 53 * 2 ^ n /\ 2 ^ (d - 1) = 2 ^ 52 * 2 ^ n).
  { split; rewrite <- Z.pow_add_r by lia; f_equal; unfold n; lia. }
  destruct Hsplit as [Hs1 Hs2].
  assert (Hqb : 2 ^ 52 <= mx / 2 ^ n < 2 ^ 53).
  { split.
    - apply Z.div_le_lower_bound; lia.
    - apply Z.div_lt_upper_bound; lia. }
  assert (Hm1 : 2 ^ 52 <= rne V (den * 2 ^ n) <= 2 ^ 53).
  { unfold rne. rewrite Hq.
    destruct (2 * (V mod (den * 2 ^ n)) ?= den * 2 ^ n); try lia.
    destruct (Z.even (mx / 2 ^ n)); lia. }
  set (m1 := rne V (den * 2 ^ n)) in *.
  change (emax - prec) with 971.
  destruct (Z.eq_dec m1 (2 ^ 53)) as [E53|N53].
  - rewrite E53.
    exists (Z.to_pos (2 ^ 52)), (ex + n + 1).
    split; [|lia].
    vm_compute (Zdigits2 (2 ^ 53)).
    rewrite fexp_normal by lia.
    replace (54 + (ex + n) - 53 - (ex + n)) with 1 by lia.
    cbn [shr shr_record_of_loc iter_pos].
    rewrite shr_1_shape by (vm_compute; discriminate).
    cbn [shr_m]. change (2 ^ 53 / 2) with (Zpos (Z.to_pos (2 ^ 52))).
    reflexivity.
  - assert (Hm1' : 2 ^ 52 <= m1 < 2 ^ 53) by lia.
    assert (Hdig : Zdigits2 m1 = 53) by (apply digits_unique; lia).
    exists (Z.to_pos m1), (ex + n).
    assert (Hpos : Zpos (Z.to_pos m1) = m1) by (apply Z2Pos.id; lia).
    split; [|lia].
    rewrite Hdig. rewrite fexp_normal by lia.
    replace (53 + (ex + n) - 53 - (ex + n)) with 0 by lia.
    cbn [shr shr_record_of_loc shr_m].
    rewrite <- Hpos at 1. reflexivity.
Qed.

(** [float(z)] for an integer of 54 digits or more. *)
Lemma float_of_int_wide (z : Z) :
  2 ^ 53 <= z ->
  exists m e,
    binary_normalize prec emax z 0 false
    = (if e <=? 971 then S754_finite false m e else S754_infinity false)
    /\ Zdigits2 z - 53 <= e.
Proof.
  intros Hz. destruct z as [|zp|zp]; try lia.
  cbn [binary_normalize]. unfold binary_round.
  pose proof (digits2_pos_spec zp) as [Hlo Hhi].
  set (d := Zpos (digits2_pos zp)) in *.
  assert (Hd : 54 <= d).
  { destruct (Z.le_gt_cases 54 d) as [|G]; [assumption|exfalso].
    assert (2 ^ d <= 2 ^ 53) by (apply Z.pow_le_mono_r; lia). lia. }
  rewrite Z.add_0_r. rewrite fexp_normal by lia.
  unfold shl_align. rewrite Z.sub_0_r.
  destruct (d - 53) as [|q|q] eqn:E; try lia.
  destruct (binary_round_aux_any (Zpos zp) 0 0 1
              ltac:(lia) ltac:(lia)
              ltac:(cbn [Zdigits2]; fold d; lia)
              ltac:(cbn [Zdigits2]; fold d; lia))
    as (m & e & Hbra & He).
  change (loc_of 0 1) with loc_Exact in Hbra.
  exists m, e. split; [exact Hbra|].
  cbn [Zdigits2] in *. fold d in He |- *. lia.
Qed.

(** [float(z)] for [z >= 1] is a positive finite number, or raises. *)
Lemma float_of_int_pos (z : Z) :
  1 <= z ->
  (exists m e, float_of_int z = Ok (S754_finite false m e))
  \/ float_of_int z
     = Raise (OverflowError "long int too large to convert to float").
Proof.
  intros Hz. destruct (Z.lt_ge_cases z (2 ^ 53)) as [Hs|Hw].
  - left. destruct (float_of_int_small z ltac:(lia)) as (m & e & H & _).
    now exists m, e.
  - unfold float_of_int.
    destruct (float_of_int_wide z Hw) as (m & e & -> & _).
    destruct (e <=? 971); [left; now exists m, e | now right].
Qed.

Lemma float_of_int_large (z : Z) :
  2 ^ 1024 <= z ->
  float_of_int z
  = Raise (OverflowError "long int too large to convert to float").
Proof.
  intros Hz. unfold float_of_int.
  assert (Hw : 2 ^ 53 <= z).
  { assert (2 ^ 53 <= 2 ^ 1024) by (apply Z.pow_le_mono_r; lia). lia. }
  destruct (float_of_int_wide z Hw) as (m & e & -> & He).
  assert (Hd : 1025 <= Zdigits2 z).
  { destruct z as [|zp|zp]; try lia. cbn [Zdigits2].
    pose proof (digits2_pos_spec zp) as [_ Hhi].
    destruct (Z.le_gt_cases 1025 (Zpos (digits2_pos zp))) as [|G];
      [assumption|exfalso].
    assert (2 ^ Zpos (digits2_pos zp) <= 2 ^ 1024)
      by (apply Z.pow_le_mono_r; lia).
    lia. }
  assert (E : (e <=? 971) = false) by (apply Z.leb_gt; lia).
  now rewrite E.
Qed.

Lemma SFdiv_sign (mx my : positive) (ex ey : Z) :
  SFdiv prec emax (S754_finite false mx ex) (S754_finite false my ey)
  = S754_zero false
  \/ (exists m e,
        SFdiv prec emax (S754_finite false mx ex) (S754_finite false my ey)
        = S754_finite false m e)
  \/ SFdiv prec emax (S754_finite false mx ex) (S754_finite false my ey)
     = S754_infinity false.
Proof.
  unfold SFdiv.
  destruct (SFdiv_core_binary prec emax (Zpos mx) ex (Zpos my) ey)
    as [[mz ez] lz] eqn:E.
  cbn [xorb]. apply binary_round_aux_sign.
  unfold SFdiv_core_binary in E.
  match type of E with
  | context [Z.div_eucl ?a ?b] =>
      assert (Ha : 0 <= a);
      [| pose proof (Z.div_pos a b Ha ltac:(lia)) as Hq;
         unfold Z.div in Hq;
         destruct (Z.div_eucl a b) as [q r] ]
  end.
  - match goal with
    | |- 0 <= match ?s with _ => _ end => destruct s
    end; try lia.
    apply Z.shiftl_nonneg. lia.
  - cbn [fst] in Hq. now injection E as <- _ _.
Qed.

Lemma int_of_float_sign (x : spec_float) :
  x = S754_zero false
  \/ (exists m e, x = S754_finite false m e)
  \/ x = S754_infinity false ->
  (exists v, int_of_float x = Ok v /\ 0 <= v)
  \/ int_of_float x
     = Raise (OverflowError "cannot convert float infinity to integer").
Proof.
  intros [->|[(m & e & ->)| ->]]; cbn [int_of_float].
  - left. exists 0. split; [reflexivity|lia].
  - left. eexists. split; [reflexivity|]. apply Z.shiftl_nonneg. lia.
  - now right.
Qed.

Lemma float_mul_sign (x : spec_float) (my : positive) (ey : Z) :
  x = S754_zero false
  \/ (exists m e, x = S754_finite false m e)
  \/ x = S754_infinity false ->
  float_mul x (S754_finite false my ey) = S754_zero false
  \/ (exists m e, float_mul x (S754_finite false my ey) = S754_finite false m e)
  \/ float_mul x (S754_finite false my ey) = S754_infinity false.
Proof.
  unfold float_mul.
  intros [->|[(m & e & ->)| ->]]; cbn [SFmul xorb].
  - now left.
  - apply binary_round_aux_sign. lia.
  - now right; right.
Qed.

(** The outcomes of [_pixels_to_points] on arguments that passed the checks
    of [add_page]. *)
Lemma pixels_to_points_cases (pixels resolution : Z) :
  1 <= pixels -> 1 <= resolution ->
  (exists v, _pixels_to_points pixels resolution = Ok v /\ 0 <= v)
  \/ _pixels_to_points pixels resolution
     = Raise (OverflowError "long int too large to convert to float")
  \/ _pixels_to_points pixels resolution
     = Raise (OverflowError "cannot convert float infinity to integer").
Proof.
  intros Hp Hr. unfold _pixels_to_points.
  destruct (float_of_int_pos resolution Hr) as [(mr & er & ->)| ->];
    cbn [rbind]; [|now right; left].
  destruct (float_of_int_pos pixels Hp) as [(mp & ep & ->)| ->];
    cbn [rbind]; [|now right; left].
  cbn [float_div rbind].
  destruct (float_of_int_pos 72 ltac:(lia)) as [(mc & ec & ->)|E];
    [|discriminate E].
  cbn [rbind].
  destruct (int_of_float_sign _
              (float_mul_sign _ mc ec (SFdiv_sign mp mr ep er)))
    as [H|H]; [now left | now right; right].
Qed.

(** X7. With a pixel count and a resolution of at least 1, which is what
    the checks of [add_page] let through, [_pixels_to_points] returns an
    integer that is not negative, or raises [OverflowError] (an integer
    too large for a double, or a product that is infinite).  It raises
    nothing else: no division by zero, no NaN. *)
Theorem pixels_to_points_outcomes (pixels resolution : Z) :
  1 <= pixels -> 1 <= resolution ->
  (exists v, _pixels_to_points pixels resolution = Ok v /\ 0 <= v)
  \/ (exists msg,
        _pixels_to_points pixels resolution = Raise (OverflowError msg)
        /\ (msg = "long int too large to convert to float"%string
            \/ msg = "cannot convert float infinity to integer"%string)).
Proof.
  intros Hp Hr.
  destruct (pixels_to_points_cases pixels resolution Hp Hr) as [H|[H|H]].
  - now left.
  - right. eexists. split; [exact H | now left].
  - right. eexists. split; [exact H | now right].
Qed.

Lemma pixels_to_points_outcomes_witness :
  (exists v, _pixels_to_points 800 150 = Ok v /\ 0 <= v)
  \/ (exists msg,
        _pixels_to_points 800 150 = Raise (OverflowError msg)
        /\ (msg = "long int too large to convert to float"%string
            \/ msg = "cannot convert float infinity to integer"%string)).
Proof. apply (pixels_to_points_outcomes 800 150); lia. Defined.

(** X8. Called with a string or a file object as payload and with integers
    for width, height and resolution, so that the coercions [int(...)]
    return them as they are, and as long as the file objects themselves do
    not fail, [add_page] raises nothing but the [ValueError] of a failed
    check, an [OverflowError] of the conversion to points, and the
    closed-writer [RuntimeError]; whatever the writer, the payload and the
    integers.  In particular the resolution check keeps the division by
    zero away, and none of the writer's assertions or list accesses can
    fail in [add_page]. *)
Theorem add_page_raises_only (p : payload)
  (width_px height_px resolution : Z) (grayscale : bool) (wd : world)
  (e : exn) :
  snd (add_page p width_px height_px resolution grayscale wd) = Raise e ->
  (exists msg,
     e = ValueError msg
     /\ In msg ["Invalid image data."; "Invalid image length.";
                "Invalid image width."; "Invalid image height.";
                "Invalid image resolution."]%string)
  \/ (exists msg,
        e = OverflowError msg
        /\ In msg ["long int too large to convert to float";
                   "cannot convert float infinity to integer"]%string)
  \/ e = RuntimeError "PDF closed.".
Proof.
  rewrite add_page_eq. unfold add_page_outcome.
  destruct (negb (bytes_eqb (firstn 2 (payload_bytes p)) SOI));
    [intros [= <-]; left; eexists; split; [reflexivity|cbn; tauto]|].
  destruct (len (payload_bytes p) <? min_jpeg_len);
    [intros [= <-]; left; eexists; split; [reflexivity|cbn; tauto]|].
  destruct (Z.ltb_spec width_px 1);
    [intros [= <-]; left; eexists; split; [reflexivity|cbn; tauto]|].
  destruct (Z.ltb_spec height_px 1);
    [intros [= <-]; left; eexists; split; [reflexivity|cbn; tauto]|].
  destruct (Z.ltb_spec resolution 1);
    [intros [= <-]; left; eexists; split; [reflexivity|cbn; tauto]|].
  destruct (pixels_to_points_cases width_px resolution) as [(v & -> & _)|[-> | ->]];
    try lia;
    [| intros [= <-]; right; left; eexists; split; [reflexivity|cbn; tauto]
     | intros [= <-]; right; left; eexists; split; [reflexivity|cbn; tauto]].
  destruct (pixels_to_points_cases height_px resolution) as [(v' & -> & _)|[-> | ->]];
    try lia;
    [| intros [= <-]; right; left; eexists; split; [reflexivity|cbn; tauto]
     | intros [= <-]; right; left; eexists; split; [reflexivity|cbn; tauto]].
  destruct (_file (self wd)); [discriminate|].
  intros [= <-]. now right; right.
Qed.

Lemma add_page_raises_only_witness :
  (exists msg,
     OverflowError "long int too large to convert to float" = ValueError msg
     /\ In msg ["Invalid image data."; "Invalid image length.";
                "Invalid image width."; "Invalid image height.";
                "Invalid image resolution."]%string)
  \/ (exists msg,
        OverflowError "long int too large to convert to float"
        = OverflowError msg
        /\ In msg ["long int too large to convert to float";
                   "cannot convert float infinity to integer"]%string)
  \/ OverflowError "long int too large to convert to float"
     = RuntimeError "PDF closed.".
Proof.
  apply (add_page_raises_only (Str sample_jpeg) (2 ^ 1024) 600 72 false
           (init_world empty_file)).
  vm_compute. reflexivity.
Defined.

(** ** Dimensions at the ends of the range *)

Lemma pixels_to_points_large (pixels resolution : Z) :
  1 <= pixels -> 1 <= resolution ->
  2 ^ 1024 <= pixels \/ 2 ^ 1024 <= resolution ->
  _pixels_to_points pixels resolution
  = Raise (OverflowError "long int too large to convert to float").
Proof.
  intros Hp Hr Hbig. unfold _pixels_to_points.
  destruct (float_of_int_pos resolution Hr) as [(mr & er & Er)|Er].
  - destruct Hbig as [Hbig|Hbig].
    + rewrite Er. cbn [rbind]. now rewrite (float_of_int_large pixels Hbig).
    + rewrite (float_of_int_large resolution Hbig) in Er. discriminate.
  - now rewrite Er.
Qed.

(** X9. A width, height or resolution of [2^1024] or more gets through the
    argument checks and then fails in the conversion to points: [add_page]
    raises [OverflowError], on an open writer as on a closed one, after it
    has incremented the page count, appended the page identifier to the
    page references and advanced the last identifier by 3.  Nothing is
    written and the ledger is as before, so the writer now counts a page
    that has no objects. *)
Theorem add_page_huge_dimension (p : payload)
  (width_px height_px resolution : Z) (grayscale : bool) (wd : world) :
  passes_validation p width_px height_px resolution = true ->
  2 ^ 1024 <= width_px \/ 2 ^ 1024 <= height_px \/ 2 ^ 1024 <= resolution ->
  exists wd' msg,
    add_page p width_px height_px resolution grayscale wd
    = (wd', Raise (OverflowError msg))
    /\ page_count (self wd') = page_count (self wd) + 1
    /\ page_refs (self wd') = page_refs (self wd) ++ [last_obj (self wd) + 1]
    /\ last_obj (self wd') = last_obj (self wd) + 3
    /\ obj_offsets (self wd') = obj_offsets (self wd)
    /\ _file (self wd') = _file (self wd)
    /\ out wd' = out wd.
Proof.
  intros Hv Hbig. exists (allocate wd).
  rewrite add_page_eq. unfold add_page_outcome.
  destruct (passes_validation_true _ _ _ _ Hv) as (-> & -> & Hw & Hh & Hr).
  rewrite Hw, Hh, Hr.
  apply Z.ltb_ge in Hw, Hh, Hr.
  assert (Hal : last_obj (self (allocate wd)) = last_obj (self wd) + 3)
    by (cbn; lia).
  destruct (pixels_to_points_cases width_px resolution Hw Hr)
    as [(v & Ev & _)|[E|E]]; [|rewrite E; eexists; now repeat split ..].
  rewrite Ev.
  assert (Eh : _pixels_to_points height_px resolution
               = Raise (OverflowError "long int too large to convert to float")).
  { apply pixels_to_points_large; try assumption.
    destruct Hbig as [Hbig|[Hbig|Hbig]]; [|now left|now right].
    rewrite (pixels_to_points_large width_px resolution Hw Hr
               (or_introl Hbig)) in Ev. discriminate. }
  rewrite Eh. eexists. now repeat split.
Qed.

Lemma add_page_huge_dimension_witness :
  exists wd' msg,
    add_page (Str sample_jpeg) 800 600 (2 ^ 1024) false (init_world empty_file)
    = (wd', Raise (OverflowError msg))
    /\ page_count (self wd') = 1
    /\ obj_offsets (self wd') = [0; 8].
Proof.
  destruct (add_page_huge_dimension (Str sample_jpeg) 800 600 (2 ^ 1024) false
              (init_world empty_file) eq_refl
              (or_intror (or_intror (Z.le_refl _))))
    as (wd' & msg & Hrun & Hc & _ & _ & Ho & _).
  exists wd', msg. split; [exact Hrun|]. split; [exact Hc | exact Ho].
Defined.

(** X10. A dimension too small for its resolution gives a page of size 0:
    for a pixel count below [2^45] and a resolution below [2^53],
    [_pixels_to_points] returns 0 exactly when 72 times the pixel count is
    less than the resolution.  [add_page] has no check on the result, so
    on an open writer such a call is accepted and returns normally. *)
Theorem small_image_gives_zero_points (pixels resolution : Z) :
  1 <= pixels < 2 ^ 45 ->
  1 <= resolution < 2 ^ 53 ->
  (_pixels_to_points pixels resolution = Ok 0 <-> 72 * pixels < resolution)
  /\ (72 * pixels < resolution ->
      forall p grayscale wd,
        is_open wd ->
        passes_validation p pixels pixels resolution = true ->
        snd (add_page p pixels pixels resolution grayscale wd) = Ok tt).
Proof.
  intros Hp Hr.
  rewrite (pixels_to_points_exact pixels resolution Hp Hr).
  split.
  - split.
    + intros [= E]. apply Z.div_small_iff in E; lia.
    + intros Hlt. f_equal. apply Z.div_small. lia.
  - intros Hlt p g wd Ho Hv.
    rewrite add_page_eq. unfold add_page_outcome.
    destruct (passes_validation_true _ _ _ _ Hv) as (-> & -> & -> & _ & ->).
    rewrite (pixels_to_points_exact pixels resolution Hp Hr).
    now rewrite Ho.
Qed.

Lemma small_image_gives_zero_points_witness :
  _pixels_to_points 4 300 = Ok 0
  /\ snd (add_page (Str sample_jpeg) 4 4 300 false (init_world empty_file))
     = Ok tt.
Proof.
  destruct (small_image_gives_zero_points 4 300 ltac:(lia) ltac:(lia))
    as [H1 H2].
  split.
  - apply H1. lia.
  - apply H2; [lia | reflexivity | reflexivity].
Defined.

(** ** The position of a payload file after [add_page] *)

Lemma writer_ok {A B : Type} (c : M A) (k : A -> Payload.P B) (f : jfile)
  {wd wd' a} :
  c wd = (wd', Ok a) ->
  Payload.bind (Payload.writer c) k (f, wd) = k a (f, wd').
Proof.
  intros H. unfold Payload.bind, Payload.writer. cbn [fst snd].
  now rewrite H.
Qed.

Lemma writer_raise {A B : Type} (c : M A) (k : A -> Payload.P B) (f : jfile)
  {wd wd' e} :
  c wd = (wd', Raise e) ->
  Payload.bind (Payload.writer c) k (f, wd) = ((f, wd'), Raise e).
Proof.
  intros H. unfold Payload.bind, Payload.writer. cbn [fst snd].
  now rewrite H.
Qed.

Lemma writer_last {A : Type} (c : M A) (f : jfile) {wd wd' r} :
  c wd = (wd', r) -> Payload.writer c (f, wd) = ((f, wd'), r).
Proof. intros H. unfold Payload.writer. cbn [fst snd]. now rewrite H. Qed.

Ltac pstep H :=
  match goal with
  | |- context [Payload.bind (Payload.writer (_writeln ?d)) ?k (?f, ?w)] =>
      rewrite (writer_ok (_writeln d) k f (@_writeln_open w d H))
  | |- context [Payload.bind (Payload.writer _save_offset) ?k (?f, ?w)] =>
      rewrite (writer_ok _save_offset k f (@_save_offset_open w H))
  | |- context [Payload.bind (Payload.writer (_write_obj ?r)) ?k (?f, ?w)] =>
      rewrite (writer_ok (_write_obj r) k f (@_write_obj_open w r H))
  | |- context [Payload.bind (Payload.writer (file_write ?d)) ?k (?f, ?w)] =>
      rewrite (writer_ok (file_write d) k f (@file_write_open w d H))
  | |- context [Payload.writer _write_endobj (?f, ?w)] =>
      rewrite (writer_last _write_endobj f (@_write_endobj_open w H))
  end.

(** The chunked copy leaves the payload file at its end. *)
Lemma payload_copy_chunks_total (fuel : nat) : forall (f : jfile) (wd : world),
  is_open wd ->
  (jpos f <= length (jdata f))%nat ->
  (length (jdata f) - jpos f < fuel)%nat ->
  Payload.copy_chunks fuel (f, wd)
  = (({| jdata := jdata f; jpos := length (jdata f) |},
      emit wd (skipn (jpos f) (jdata f))), Ok tt).
Proof.
  induction fuel as [|fuel IH]; intros f wd H Hpos Hlt; [lia|].
  cbn [Payload.copy_chunks].
  unfold Payload.bind at 1, Payload.jread at 1, read. cbn [fst snd].
  set (rest := skipn (jpos f) (jdata f)).
  set (chunk := firstn (Z.to_nat buffer_size) rest).
  assert (Hrest : length rest = (length (jdata f) - jpos f)%nat)
    by (unfold rest; now rewrite length_skipn).
  destruct chunk as [|b chunk'] eqn:Hchunk.
  - assert (rest = []) as Hnil.
    { destruct rest as [|x rest']; [reflexivity|].
      unfold chunk in Hchunk. now destruct (Z.to_nat buffer_size) eqn:E. }
    rewrite Hnil in *. cbn [length] in Hrest.
    rewrite emit_nil. unfold Payload.ret. cbn [length].
    do 3 f_equal. lia.
  - rewrite <- Hchunk.
    pstep H.
    assert (Hc : (0 < length chunk)%nat) by (rewrite Hchunk; simpl; lia).
    assert (Hcl : (length chunk <= length rest)%nat).
    { unfold chunk. rewrite length_firstn. lia. }
    rewrite IH; [| exact H | simpl; lia | simpl; lia ].
    simpl jpos. simpl jdata. rewrite emit_emit. f_equal. f_equal. f_equal.
    fold rest. rewrite Nat.add_comm, <- skipn_skipn. fold rest.
    assert (Hlen : length chunk = Nat.min (Z.to_nat buffer_size) (length rest))
      by (unfold chunk; apply length_firstn).
    destruct (Nat.le_ge_cases (Z.to_nat buffer_size) (length rest)) as [Hle|Hge].
    + rewrite Nat.min_l in Hlen by exact Hle. rewrite Hlen.
      unfold chunk. apply firstn_skipn.
    + rewrite Nat.min_r in Hlen by exact Hge. rewrite Hlen.
      unfold chunk. rewrite firstn_all2 by exact Hge.
      rewrite skipn_all. apply app_nil_r.
Qed.

Lemma payload_write_image_open (data : bytes) (wd : world)
  (ref width_px height_px : Z) (colorspace : bytes) (data_len : Z) :
  is_open wd ->
  Payload._write_image ref width_px height_px colorspace data_len
    ({| jdata := data; jpos := 0 |}, wd)
  = (({| jdata := data; jpos := length data |},
      emit (record_offset wd)
        (image_text ref width_px height_px colorspace data data_len)), Ok tt).
Proof.
  intros H. unfold Payload._write_image.
  do 4 pstep H.
  unfold Payload.bind at 1. cbn [fst jdata].
  rewrite payload_copy_chunks_total; [| exact H | cbn; lia | cbn; lia ].
  cbn [jdata jpos skipn].
  do 2 pstep H. pstep H.
  rewrite !emit_emit. unfold image_text. do 3 f_equal. assoc_eq.
Qed.

Lemma payload_add_page_eq (f : jfile)
  (width_px height_px resolution : Z) (grayscale : bool) (wd : world) :
  Payload.add_page width_px height_px resolution grayscale (f, wd)
  = (({| jdata := jdata f;
         jpos := match snd (add_page_outcome (FileObj f) width_px height_px
                              resolution grayscale wd) with
                 | Ok _ => length (jdata f)
                 | Raise _ => 0%nat
                 end |},
      fst (add_page_outcome (FileObj f) width_px height_px resolution
             grayscale wd)),
     snd (add_page_outcome (FileObj f) width_px height_px resolution
            grayscale wd)).
Proof.
  unfold add_page_outcome.
  cbn [payload_bytes]. destruct f as [data pos]. cbn [jdata].
  unfold Payload.add_page.
  unfold Payload.bind at 1, Payload.jseek at 1. cbn [fst snd].
  unfold Payload.bind at 1, Payload.jread at 1, read, seek.
  cbn [fst snd jdata jpos skipn].
  change (Z.to_nat SOI_size) with 2%nat.
  unfold Payload.bind at 1, Payload.jseek_end at 1, seek_end.
  cbn [fst snd jdata jpos].
  unfold Payload.bind at 1, Payload.jtell at 1, jtell.
  cbn [fst snd jdata jpos].
  unfold Payload.bind at 1, Payload.jseek at 1, seek.
  cbn [fst snd jdata jpos].
  change (Z.of_nat (length data)) with (len data).
  destruct (negb (bytes_eqb (firstn 2 data) SOI)); [reflexivity|].
  destruct (len data <? min_jpeg_len); [reflexivity|].
  destruct (width_px <? 1); [reflexivity|].
  destruct (height_px <? 1); [reflexivity|].
  destruct (resolution <? 1); [reflexivity|].
  unfold Payload.bind at 1, Payload.writer at 1, get at 1. cbn [fst snd].
  rewrite (writer_ok _ _ _ (modify_eq _ _)).
  rewrite (writer_ok _ _ _ (modify_eq _ _)).
  rewrite (writer_ok _ _ _ (modify_eq _ _)).
  change (upd _ (upd _ (upd _ wd))) with (allocate wd).
  unfold Payload.bind at 1, Payload.writer at 1, lift at 1. cbn [fst snd].
  destruct (_pixels_to_points width_px resolution) as [width_pt|e];
    [|reflexivity].
  unfold Payload.bind at 1, Payload.writer at 1, lift at 1. cbn [fst snd].
  destruct (_pixels_to_points height_px resolution) as [height_pt|e];
    [|reflexivity].
  destruct (_file (self wd)) as [[]|] eqn:Hfile.
  - assert (H : is_open (allocate wd)) by exact Hfile.
    rewrite (writer_ok _ _ _ (_write_page_open _ _ _ _ _ H)).
    unfold Payload.bind at 1.
    rewrite payload_write_image_open by exact H.
    match goal with
    | |- context [Payload.writer (_write_contents ?a ?b ?c) (?g, ?w)] =>
        rewrite (writer_last _ g (@_write_contents_open w a b c H))
    end.
    reflexivity.
  - assert (H : is_closed (allocate wd)) by exact Hfile.
    rewrite (writer_raise _ _ _ (_write_page_closed _ _ _ _ _ H)).
    reflexivity.
Qed.

(** X11. What [add_page] does to a file object passed as payload.  The
    call rewinds the file whatever its position was; if it then returns
    normally the file has been read to its end, and if it raises (a failed
    check, a failed conversion, a closed writer) the file is left at its
    beginning.  Its content is never changed, and the writer and the
    output file end up as [add_page] leaves them. *)
Theorem file_payload_position (f : jfile)
  (width_px height_px resolution : Z) (grayscale : bool) (wd : world) :
  let st := fst (Payload.add_page width_px height_px resolution grayscale
                   (f, wd)) in
  let outcome := snd (Payload.add_page width_px height_px resolution grayscale
                        (f, wd)) in
  (snd st, outcome)
  = add_page (FileObj f) width_px height_px resolution grayscale wd
  /\ jdata (fst st) = jdata f
  /\ jpos (fst st)
     = match outcome with
       | Ok _ => length (jdata f)
       | Raise _ => 0%nat
       end.
Proof.
  cbv zeta. rewrite payload_add_page_eq, add_page_eq. cbn [fst snd jdata jpos].
  split; [|split]; try reflexivity.
  now destruct (add_page_outcome _ _ _ _ _ _).
Qed.

(** ** The outcome of [close] after any sequence of calls *)

Lemma after_calls_app (cs1 cs2 : list call) (wd : world) :
  after_calls (cs1 ++ cs2) wd = after_calls cs2 (after_calls cs1 wd).
Proof. apply fold_left_app. Qed.

Lemma after_overflow_calls (cs : list call) : forall wd,
  after_overflow wd -> after_overflow (after_calls cs wd).
Proof.
  induction cs as [|c cs IH]; intros wd H; [exact H|].
  cbn [after_calls fold_left]. fold (after_calls cs). apply IH.
  apply (overflow_add_page (c_jpegdata c) (c_width_px c) (c_height_px c)
           (c_resolution c) (c_grayscale c) wd _
           (snd (add_page_call c wd)) H).
  unfold add_page_call. now destruct (add_page _ _ _ _ _ wd).
Qed.

Lemma existsb_overflow (file : sink) (cs : list call) :
  existsb overflows cs = true ->
  after_overflow (after_calls cs (fst (__init__ file))).
Proof.
  intros H. apply existsb_exists in H as (c & Hin & Hov).
  apply in_split in Hin as (cs1 & cs2 & ->).
  rewrite after_calls_app. cbn [after_calls fold_left]. fold (after_calls cs2).
  apply after_overflow_calls. now apply overflow_now.
Qed.

Lemma existsb_false_Forall {A : Type} (f : A -> bool) (l : list A) :
  existsb f l = false -> Forall (fun x => f x = false) l.
Proof.
  induction l as [|x l IH]; cbn [existsb]; intros H; constructor;
    apply orb_false_iff in H; [apply H | apply IH, H].
Qed.

Lemma filter_nil_existsb {A : Type} (f : A -> bool) (l : list A) :
  filter f l = [] <-> existsb f l = false.
Proof.
  induction l as [|x l IH]; cbn [filter existsb]; [tauto|].
  destruct (f x); cbn [orb]; [split; discriminate | exact IH].
Qed.

(** X12. The outcome of [close] after any sequence of [add_page] calls on a
    fresh writer, the caller catching what they raise.  If an accepted
    call failed to convert a dimension, [close] raises [AssertionError];
    otherwise, if at least one call was valid, [close] returns normally;
    otherwise no page was added and [close] raises the empty-document
    [RuntimeError].  [close] raises nothing else. *)
Theorem close_outcome (file : sink) (cs : list call) (uuid4 : bytes) :
  snd (close uuid4 (after_calls cs (fst (__init__ file))))
  = if existsb overflows cs then Raise AssertionError
    else if existsb valid_call cs then Ok tt
    else Raise (RuntimeError "No pages added to PDF.").
Proof.
  destruct (existsb overflows cs) eqn:Hov.
  - destruct (close_behind uuid4 _
                (after_overflow_behind _ (existsb_overflow file cs Hov)))
      as (wd' & -> & _).
    reflexivity.
  - pose proof (add_pages_filter cs (init_world file) eq_refl
                  (existsb_false_Forall _ _ Hov)) as Hrun.
    rewrite init_eq. cbn [fst].
    assert (Hvalid : Forall (fun c => valid_call c = true) (filter valid_call cs)).
    { apply Forall_forall. intros c Hin. now apply filter_In in Hin. }
    destruct (add_pages_valid (filter valid_call cs) [] (init_world file)
                Hvalid (init_inv file)) as (wd' & Hrun' & I).
    rewrite Hrun in Hrun'. injection Hrun' as <-. cbn [app] in I.
    destruct (existsb valid_call cs) eqn:Hex.
    + assert (Hne : filter valid_call cs <> []).
      { intros E. apply filter_nil_existsb in E. congruence. }
      now rewrite (close_inv _ _ uuid4 I Hne).
    + apply filter_nil_existsb in Hex.
      unfold close, bind, get. cbv beta iota.
      rewrite (inv_count I), Hex. reflexivity.
Qed.

(** ** Objects follow one another in the file *)

Lemma len_page_text ref image_ref contents_ref width_pt height_pt :
  0 < len (page_text ref image_ref contents_ref width_pt height_pt).
Proof.
  unfold page_text. rewrite len_app.
  pose proof (len_obj_header ref).
  match goal with |- 0 < _ + len ?r => pose proof (len_nonneg r) end. lia.
Qed.

Lemma len_image_text ref width_px height_px colorspace data data_len :
  0 < len (image_text ref width_px height_px colorspace data data_len).
Proof.
  unfold image_text. rewrite len_app.
  pose proof (len_obj_header ref).
  match goal with |- 0 < _ + len ?r => pose proof (len_nonneg r) end. lia.
Qed.

Lemma len_contents_text ref width_pt height_pt :
  0 < len (contents_text ref width_pt height_pt).
Proof.
  unfold contents_text. rewrite len_app.
  pose proof (len_obj_header ref).
  match goal with |- 0 < _ + len ?r => pose proof (len_nonneg r) end. lia.
Qed.

Lemma len_page_list_text count refs : 0 < len (page_list_text count refs).
Proof.
  unfold page_list_text. rewrite len_app.
  pose proof (len_obj_header 1).
  match goal with |- 0 < _ + len ?r => pose proof (len_nonneg r) end. lia.
Qed.

Lemma pages_offsets_increasing (cs : list call) : forall pos k x tail,
  x < pos ->
  increasing ((pos + len (pages_text k cs)) :: tail) ->
  increasing (x :: pages_offsets pos k cs
                ++ (pos + len (pages_text k cs)) :: tail).
Proof.
  induction cs as [|c cs IH]; intros pos k x tail Hx Htail.
  - cbn [pages_offsets pages_text app] in *. split; [|exact Htail].
    change (len (@nil byte)) with 0. lia.
  - cbn [pages_offsets pages_text app]. cbn [pages_text] in Htail.
    pose proof (len_page_text (page_id k) (page_id k + 1) (page_id k + 2)
                  (points (c_width_px c) (c_resolution c))
                  (points (c_height_px c) (c_resolution c))) as L1.
    pose proof (len_image_text (page_id k + 1) (c_width_px c) (c_height_px c)
                  (colorspace_of (c_grayscale c)) (payload_bytes (c_jpegdata c))
                  (len (payload_bytes (c_jpegdata c)))) as L2.
    pose proof (len_contents_text (page_id k + 2)
                  (points (c_width_px c) (c_resolution c))
                  (points (c_height_px c) (c_resolution c))) as L3.
    fold (call_page_text (page_id k) c) in L1.
    fold (call_image_text (page_id k) c) in L2.
    fold (call_contents_text (page_id k) c) in L3.
    assert (E : pos + len (call_page_text (page_id k) c
                            ++ call_image_text (page_id k) c
                            ++ call_contents_text (page_id k) c
                            ++ pages_text (S k) cs)
                = pos + len (call_page_text (page_id k) c)
                  + len (call_image_text (page_id k) c)
                  + len (call_contents_text (page_id k) c)
                  + len (pages_text (S k) cs))
      by (rewrite !len_app; lia).
    rewrite E in *.
    split; [exact Hx|]. split; [lia|]. split; [lia|].
    apply IH; [lia | exact Htail].
Qed.

(** X13. In the finished document the objects lie in the file in the order
    of their identifiers, except the page list (identifier 1), which comes
    after all of them, just before the index.  The positions recorded in
    the ledger for the identifiers 2, 3, ... are strictly increasing; the
    first of them is 19 bytes (the two header lines) after the position the
    file had when the writer got it, which is slot 0 of the ledger; and the
    last is followed by the position of the page list and then by the
    position of the index. *)
Theorem objects_in_file_order (file : sink) (cs : list call) (uuid4 : bytes) :
  cs <> [] ->
  Forall (fun c => valid_call c = true) cs ->
  exists wd page_list_offset,
    session file cs uuid4 = (wd, Ok tt)
    /\ nth_error (obj_offsets (self wd)) 0 = Some (tell file)
    /\ nth_error (obj_offsets (self wd)) 1 = Some page_list_offset
    /\ nth_error (obj_offsets (self wd)) 2 = Some (tell file + 19)
    /\ increasing (tell file :: skipn 2 (obj_offsets (self wd))
                     ++ [page_list_offset; xref_offset (self wd)]).
Proof.
  intros Hne Hv.
  destruct (session_layout file cs uuid4 Hne Hv)
    as (wd & Hrun & _ & _ & Ho & Hx).
  exists wd. eexists. split; [exact Hrun|].
  rewrite Ho, Hx. cbn [nth_error skipn].
  split; [reflexivity|]. split; [reflexivity|].
  change (len preamble) with 19.
  split.
  - destruct cs as [|c cs]; [congruence|]. reflexivity.
  - rewrite <- app_assoc. cbn [app].
    rewrite len_app. change (len preamble) with 19.
    rewrite Z.add_assoc.
    assert (Hinc := pages_offsets_increasing cs (tell file + 19) 0 (tell file)
              [tell file + 19 + len (pages_text 0 cs)
                 + len (catalog_text (3 * len cs + 2));
               tell file + 19 + len (pages_text 0 cs)
                 + len (catalog_text (3 * len cs + 2))
                 + len (page_list_text (len cs)
                          (map page_id (seq 0 (length cs))))]
              ltac:(lia)).
    apply Hinc.
    pose proof (len_catalog_text (3 * len cs + 2)).
    pose proof (len_page_list_text (len cs) (map page_id (seq 0 (length cs)))).
    cbn [increasing]. repeat split; lia.
Qed.

Lemma objects_in_file_order_witness :
  exists wd,
    session empty_file [sample_call; sample_call_2] (lit "token") = (wd, Ok tt)
    /\ nth_error (obj_offsets (self wd)) 2 = Some 19.
Proof.
  destruct (objects_in_file_order empty_file [sample_call; sample_call_2]
              (lit "token") ltac:(discriminate) ltac:(repeat constructor))
    as (wd & p & Hrun & _ & _ & H2 & _).
  exists wd. split; [exact Hrun | exact H2].
Defined.

(** ** From the trailer to the index and the catalog *)

Lemma decimal_value_str_int (z : Z) :
  0 <= z -> decimal_value (str_int z) = Some (Z.to_N z).
Proof.
  intros Hz. destruct z as [|p|p]; try lia; apply decimal_value_decimal.
Qed.

Lemma pages_offsets_length (cs : list call) : forall pos k,
  length (pages_offsets pos k cs) = (3 * length cs)%nat.
Proof.
  induction cs as [|c cs IH]; intros pos k; [reflexivity|].
  cbn [pages_offsets length]. rewrite IH. lia.
Qed.

(** X14. A reader that starts from the end of the finished document finds
    its way.  The file ends with the trailer line, the [startxref] line
    and the line [%%EOF]; the number after [startxref], read as a decimal
    numeral, is the byte position at which the index begins; [/Size] is
    the number of entries of the index; and [/Root] is the last allocated
    identifier, whose ledger slot holds the position of the catalog
    object. *)
Theorem trailer_leads_to_index_and_catalog (file : sink) (cs : list call)
  (uuid4 : bytes) :
  cs <> [] ->
  Forall (fun c => valid_call c = true) cs ->
  exists wd before size root position catalog_offset,
    session file cs uuid4 = (wd, Ok tt)
    /\ written (out wd)
       = before
           ++ xref_text (tell file) (3 * len cs + 3) (obj_offsets (self wd))
           ++ (lit "trailer <</Size " ++ size ++ lit " /Root " ++ root
                 ++ lit " 0 R /ID [(" ++ uuid4 ++ lit ")(" ++ uuid4
                 ++ lit ")]>>") ++ nl
           ++ (lit "startxref " ++ position) ++ nl
           ++ lit "%%EOF" ++ nl
    /\ decimal_value position
       = Some (Z.to_N (Z.of_N (start (out wd)) + len before))
    /\ decimal_value size = Some (N.of_nat (length (obj_offsets (self wd))))
    /\ decimal_value root = Some (Z.to_N (last_obj (self wd)))
    /\ last_obj (self wd) = 3 * len cs + 2
    /\ catalog_ref (self wd) = Some (last_obj (self wd))
    /\ nth_error (obj_offsets (self wd)) (3 * length cs + 2)
       = Some catalog_offset
    /\ object_at (out wd) catalog_offset (catalog_text (last_obj (self wd))).
Proof.
  intros Hne Hv.
  destruct (session_layout file cs uuid4 Hne Hv)
    as (wd & Hrun & Hs & Hw & Ho & Hx).
  destruct (session_valid file cs uuid4 Hne Hv) as (wd0 & I & _ & Hsess).
  rewrite Hsess in Hrun. injection Hrun as <-.
  assert (Hlast : last_obj (self (closed_world uuid4 wd0)) = 3 * len cs + 2).
  { change (last_obj (self (closed_world uuid4 wd0)))
      with (last_obj (self wd0) + 1).
    rewrite (inv_last I). lia. }
  set (wd := closed_world uuid4 wd0) in *.
  set (body := preamble ++ pages_text 0 cs) in *.
  set (catalog := catalog_text (3 * len cs + 2)) in *.
  set (page_list := page_list_text (len cs) (map page_id (seq 0 (length cs))))
    in *.
  exists wd, (written file ++ body ++ catalog ++ page_list),
    (str_int (3 * len cs + 3)), (str_int (3 * len cs + 2)),
    (str_int (tell file + len body + len catalog + len page_list)),
    (tell file + len body).
  pose proof (len_nonneg cs) as Hn.
  pose proof (tell_ge_start file) as Ht.
  pose proof (len_nonneg body). pose proof (len_nonneg catalog).
  pose proof (len_nonneg page_list).
  assert (Hlen : length (obj_offsets (self wd)) = (3 * length cs + 3)%nat).
  { rewrite Ho. cbn [length]. rewrite length_app, pages_offsets_length.
    cbn [length]. lia. }
  split; [exact Hsess|].
  split; [|split; [|split; [|split; [|split; [|split; [|split]]]]]].
  - rewrite Hw, Ho. unfold trailer_text. now rewrite <- !app_assoc.
  - rewrite decimal_value_str_int by lia. do 2 f_equal.
    rewrite Hs, !len_app. unfold tell. lia.
  - rewrite decimal_value_str_int by lia. f_equal. rewrite Hlen.
    unfold len. lia.
  - rewrite Hlast. apply decimal_value_str_int. lia.
  - exact Hlast.
  - rewrite Hlast. change (catalog_ref (self wd)) with (Some (last_obj (self wd0) + 1)).
    f_equal. rewrite (inv_last I). lia.
  - rewrite Ho.
    replace (3 * length cs + 2)%nat with (S (S (3 * length cs))) by lia.
    cbn [nth_error].
    rewrite nth_error_app2 by (rewrite pages_offsets_length; lia).
    rewrite pages_offsets_length, Nat.sub_diag. reflexivity.
  - rewrite Hlast. fold catalog.
    exists (written file ++ body), (page_list
      ++ xref_text (tell file) (3 * len cs + 3)
           (tell file :: tell file + len body + len catalog
              :: pages_offsets (tell file + len preamble) 0 cs
                   ++ [tell file + len body])
      ++ trailer_text (3 * len cs + 3) (3 * len cs + 2) uuid4
           (tell file + len body + len catalog + len page_list)).
    split.
    + rewrite Hw. now rewrite <- !app_assoc.
    + rewrite Hs, len_app. unfold tell. lia.
Qed.

Lemma trailer_leads_to_index_and_catalog_witness :
  exists wd,
    session empty_file [sample_call] (lit "token") = (wd, Ok tt)
    /\ last_obj (self wd) = 5
    /\ catalog_ref (self wd) = Some 5.
Proof.
  destruct (trailer_leads_to_index_and_catalog empty_file [sample_call]
              (lit "token") ltac:(discriminate) ltac:(repeat constructor))
    as (wd & b & s & r & p & c & Hrun & _ & _ & _ & _ & Hl & Hc & _).
  exists wd. split; [exact Hrun|]. split; [exact Hl|].
  rewrite Hc, Hl. reflexivity.
Defined.

(** ** The writer does not look into the image *)

Lemma len_image_text_data ref width_px height_px colorspace data1 data2 data_len :
  len data1 = len data2 ->
  len (image_text ref width_px height_px colorspace data1 data_len)
  = len (image_text ref width_px height_px colorspace data2 data_len).
Proof. intros H. unfold image_text. rewrite !len_app. lia. Qed.

Lemma write_write (f : sink) (a b : bytes) :
  write (write f a) b = write f (a ++ b).
Proof. unfold write; cbn [start written]. now rewrite app_assoc. Qed.

(** What [add_page] writes around the payload, apart from the image
    dictionary: the page object and the header of the image object before
    it, the end of the stream and the contents object after it. *)
Lemma add_page_around_payload (p : payload)
  (width_px height_px resolution : Z) (grayscale : bool) (wd : world) :
  let ref := last_obj (self wd) + 1 in
  let width_pt := points width_px resolution in
  let height_pt := points height_px resolution in
  out (fst (add_page p width_px height_px resolution grayscale wd))
  = match snd (add_page p width_px height_px resolution grayscale wd) with
    | Ok _ =>
        write (out wd)
          ((page_text ref (ref + 1) (ref + 1 + 1) width_pt height_pt
              ++ obj_header (ref + 1))
           ++ (lit "<</Type /XObject /Subtype /Image /Width "
                 ++ str_int width_px ++ lit " /Height " ++ str_int height_px
                 ++ lit " /ColorSpace " ++ colorspace_of grayscale) ++ nl
           ++ (lit "/BitsPerComponent 8 /Filter /DCTDecode /Length "
                 ++ str_int (len (payload_bytes p)) ++ lit ">> stream") ++ nl
           ++ payload_bytes p
           ++ (nl ++ lit "endstream" ++ nl ++ endobj
                 ++ contents_text (ref + 1 + 1) width_pt height_pt))
    | Raise _ => out wd
    end.
Proof.
  cbv zeta. rewrite add_page_eq. unfold add_page_outcome, points.
  destruct (negb (bytes_eqb (firstn 2 (payload_bytes p)) SOI)); [reflexivity|].
  destruct (len (payload_bytes p) <? min_jpeg_len); [reflexivity|].
  destruct (width_px <? 1); [reflexivity|].
  destruct (height_px <? 1); [reflexivity|].
  destruct (resolution <? 1); [reflexivity|].
  destruct (_pixels_to_points width_px resolution) as [width_pt|e];
    [|reflexivity].
  destruct (_pixels_to_points height_px resolution) as [height_pt|e];
    [|reflexivity].
  destruct (_file (self wd)); [|reflexivity].
  cbn [fst snd]. unfold write_objects, emit, record_offset. cbn [out].
  change (out (allocate wd)) with (out wd).
  rewrite !write_write. f_equal. unfold image_text.
  now rewrite <- !app_assoc.
Qed.

(** X15. [add_page] reads nothing of the payload but its first two bytes
    and its length, and what it writes about the image is what the caller
    passed.  Two payloads that agree on their first two bytes and their
    length, passed as strings or as files, with the same geometry on the
    same writer, give the same outcome and leave the same writer attributes
    behind, the ledger included.  When the call returns normally the
    output file gains, whatever the payload: bytes [before] that do not
    depend on the payload; the image dictionary with the caller's
    [width_px] as [/Width], the caller's [height_px] as [/Height] and the
    length of the payload as [/Length]; the payload itself; and bytes
    [after] that do not depend on the payload.  So the two documents differ
    in the payload bytes only, whatever the image data say about their
    size. *)
Theorem payload_content_is_not_inspected (p1 p2 : payload)
  (width_px height_px resolution : Z) (grayscale : bool) (wd : world) :
  firstn 2 (payload_bytes p1) = firstn 2 (payload_bytes p2) ->
  len (payload_bytes p1) = len (payload_bytes p2) ->
  snd (add_page p1 width_px height_px resolution grayscale wd)
  = snd (add_page p2 width_px height_px resolution grayscale wd)
  /\ self (fst (add_page p1 width_px height_px resolution grayscale wd))
     = self (fst (add_page p2 width_px height_px resolution grayscale wd))
  /\ exists before after,
       forall p,
         out (fst (add_page p width_px height_px resolution grayscale wd))
         = match snd (add_page p width_px height_px resolution grayscale wd)
           with
           | Ok _ =>
               write (out wd)
                 (before
                  ++ (lit "<</Type /XObject /Subtype /Image /Width "
                        ++ str_int width_px
                        ++ lit " /Height " ++ str_int height_px
                        ++ lit " /ColorSpace " ++ colorspace_of grayscale)
                  ++ nl
                  ++ (lit "/BitsPerComponent 8 /Filter /DCTDecode /Length "
                        ++ str_int (len (payload_bytes p))
                        ++ lit ">> stream") ++ nl
                  ++ payload_bytes p
                  ++ after)
           | Raise _ => out wd
           end.
Proof.
  intros Hsoi Hlen. split; [|split].
  - rewrite !add_page_eq. unfold add_page_outcome. rewrite Hsoi, Hlen.
    destruct (negb (bytes_eqb (firstn 2 (payload_bytes p2)) SOI));
      [reflexivity|].
    destruct (len (payload_bytes p2) <? min_jpeg_len); [reflexivity|].
    destruct (width_px <? 1); [reflexivity|].
    destruct (height_px <? 1); [reflexivity|].
    destruct (resolution <? 1); [reflexivity|].
    destruct (_pixels_to_points width_px resolution); [|reflexivity].
    destruct (_pixels_to_points height_px resolution); [|reflexivity].
    now destruct (_file (self wd)).
  - rewrite !add_page_eq. unfold add_page_outcome. rewrite Hsoi, Hlen.
    destruct (negb (bytes_eqb (firstn 2 (payload_bytes p2)) SOI));
      [reflexivity|].
    destruct (len (payload_bytes p2) <? min_jpeg_len); [reflexivity|].
    destruct (width_px <? 1); [reflexivity|].
    destruct (height_px <? 1); [reflexivity|].
    destruct (resolution <? 1); [reflexivity|].
    destruct (_pixels_to_points width_px resolution) as [width_pt|e];
      [|reflexivity].
    destruct (_pixels_to_points height_px resolution) as [height_pt|e];
      [|reflexivity].
    destruct (_file (self wd)); [|reflexivity].
    cbn [fst].
    pose proof (len_image_text_data (last_obj (self wd) + 1 + 1) width_px
                  height_px (colorspace_of grayscale) (payload_bytes p1)
                  (payload_bytes p2) (len (payload_bytes p2)) Hlen) as Him.
    unfold write_objects, emit, record_offset. cbn [self out].
    now rewrite !tell_write, Hlen, Him.
  - eexists. eexists. intros p.
    exact (add_page_around_payload p width_px height_px resolution grayscale
             wd).
Qed.

Lemma payload_content_is_not_inspected_witness :
  snd (add_page (Str sample_jpeg) 800 600 150 false (init_world empty_file))
  = snd (add_page (Str (SOI ++ repeat Byte.xff 118)) 800 600 150 false
           (init_world empty_file))
  /\ self (fst (add_page (Str sample_jpeg) 800 600 150 false
                  (init_world empty_file)))
     = self (fst (add_page (Str (SOI ++ repeat Byte.xff 118)) 800 600 150
                    false (init_world empty_file))).
Proof.
  destruct (payload_content_is_not_inspected (Str sample_jpeg)
              (Str (SOI ++ repeat Byte.xff 118)) 800 600 150 false
              (init_world empty_file) eq_refl eq_refl) as (H1 & H2 & _).
  split; assumption.
Defined.

(** * The ledger and the last allocated identifier *)

(** An [add_page] that raises either raises the [ValueError] of a check and
    changes nothing, or raises something else after the allocation. *)
Lemma add_page_raise_cases p width_px height_px resolution grayscale wd wd' e :
  add_page p width_px height_px resolution grayscale wd = (wd', Raise e) ->
  (exists msg, e = ValueError msg) /\ wd' = wd
  \/ (forall msg, e <> ValueError msg) /\ wd' = allocate wd.
Proof.
  rewrite add_page_eq. unfold add_page_outcome.
  destruct (negb (bytes_eqb (firstn 2 (payload_bytes p)) SOI));
    [intros [= <- <-]; left; split; [now eexists | reflexivity]|].
  destruct (len (payload_bytes p) <? min_jpeg_len);
    [intros [= <- <-]; left; split; [now eexists | reflexivity]|].
  destruct (Z.ltb_spec width_px 1);
    [intros [= <- <-]; left; split; [now eexists | reflexivity]|].
  destruct (Z.ltb_spec height_px 1);
    [intros [= <- <-]; left; split; [now eexists | reflexivity]|].
  destruct (Z.ltb_spec resolution 1);
    [intros [= <- <-]; left; split; [now eexists | reflexivity]|].
  destruct (pixels_to_points_cases width_px resolution)
    as [(v & -> & _)|[-> | ->]]; try lia;
    [| intros [= <- <-]; right; split; [discriminate | reflexivity] ..].
  destruct (pixels_to_points_cases height_px resolution)
    as [(v' & -> & _)|[-> | ->]]; try lia;
    [| intros [= <- <-]; right; split; [discriminate | reflexivity] ..].
  destruct (_file (self wd)); [discriminate|].
  intros [= <- <-]. right. split; [discriminate | reflexivity].
Qed.

Lemma close_empty (uuid4 : bytes) (wd : world) :
  page_count (self wd) < 1 ->
  close uuid4 wd = (wd, Raise (RuntimeError "No pages added to PDF.")).
Proof.
  intros H. unfold close, bind, get. cbv beta iota.
  assert (E : (page_count (self wd) <? 1) = true) by lia.
  now rewrite E.
Qed.

Lemma reachable_shape wd :
  reachable wd ->
  (exists cs, Inv cs wd)
  \/ (exists cs wd0 uuid4, Inv cs wd0 /\ cs <> [] /\ wd = closed_world uuid4 wd0).
Proof.
  induction 1 as [file | p w h r g wd wd' _ IH H | uuid4 wd wd' _ IH H
                 | p w h r g wd wd' msg _ IH H | uuid4 wd wd' _ IH H].
  - left. exists []. rewrite init_eq. apply init_inv.
  - change (add_page p w h r g wd)
      with (add_page_call {| c_jpegdata := p; c_width_px := w;
                             c_height_px := h; c_resolution := r;
                             c_grayscale := g |} wd) in H.
    apply add_page_ok_iff in H as (Hv & Ho & ->).
    destruct IH as [(cs & I)|(cs & wd0 & u & I & _ & ->)].
    + left. eexists. apply Inv_page_added. exact I.
    + discriminate Ho.
  - destruct (close_ok_sealed _ _ _ H) as [Hp _].
    destruct IH as [(cs & I)|(cs & wd0 & u & I & Hne & ->)].
    + assert (Hne : cs <> []).
      { intros ->. rewrite (inv_count I) in Hp. cbn in Hp. lia. }
      rewrite (close_inv cs wd uuid4 I Hne) in H. injection H as <-.
      right. now exists cs, wd, uuid4.
    + rewrite close_closed in H; [discriminate|].
      split; [reflexivity|exact Hp].
  - destruct (add_page_raise_cases _ _ _ _ _ _ _ _ H) as [[_ ->]|[Hne _]];
      [exact IH | now destruct (Hne msg)].
  - destruct IH as [(cs & I)|(cs & wd0 & u & I & Hne & ->)].
    + destruct cs as [|c cs].
      * rewrite close_empty in H by (rewrite (inv_count I); cbn; lia).
        injection H as <-. left. now exists [].
      * rewrite (close_inv _ wd uuid4 I) in H by discriminate. discriminate.
    + pose proof (length_pos_of_nonempty Hne).
      rewrite close_closed in H; [discriminate|].
      split; [reflexivity|].
      change (page_count (self (closed_world u wd0)))
        with (page_count (self wd0)).
      rewrite (inv_count I). unfold len. lia.
Qed.

Lemma consistent_init (file : sink) : consistent (fst (__init__ file)).
Proof.
  rewrite init_eq. split; [cbn; lia|]. left.
  repeat split; cbn; lia.
Qed.

Lemma behind_consistent (wd : world) : behind wd -> consistent wd.
Proof.
  intros (H & Hc & Hr & Ho & H4 & Hl). split; [lia|]. left.
  repeat split; try assumption; lia.
Qed.

Lemma allocate_consistent (wd : world) : consistent wd -> consistent (allocate wd).
Proof.
  intros [Hle Hs]. unfold consistent, allocate, is_open, is_closed.
  cbn [self out set_page_count set_page_refs set_last_obj _file page_count
       page_refs obj_offsets last_obj].
  split; [lia|].
  destruct Hs as [(H & Hc & Hr & Ho & H1 & H4)|(H & Hc)]; [left|right].
  - rewrite len_app. change (len [last_obj (self wd) + 1]) with 1.
    repeat split; try assumption; lia.
  - split; [assumption | lia].
Qed.

Lemma add_page_consistent p width_px height_px resolution grayscale wd :
  consistent wd ->
  consistent (fst (add_page p width_px height_px resolution grayscale wd)).
Proof.
  intros C.
  destruct (add_page p width_px height_px resolution grayscale wd)
    as [wd' [[]|e]] eqn:H; cbn [fst].
  - change (add_page p width_px height_px resolution grayscale wd)
      with (add_page_call {| c_jpegdata := p; c_width_px := width_px;
                             c_height_px := height_px;
                             c_resolution := resolution;
                             c_grayscale := grayscale |} wd) in H.
    apply add_page_ok_iff in H as (_ & Ho & ->).
    destruct C as [Hle [(_ & Hc & Hr & Hl & H1 & H4)|(Hcl & _)]];
      [|unfold is_open, is_closed in *; congruence].
    match goal with |- consistent (page_added ?c wd) =>
      destruct (page_added_self c wd) as (Hf & Hlast & Hrefs & Hcount & _);
      pose proof (page_added_offsets c wd) as Hoffs
    end.
    unfold consistent, is_open.
    rewrite Hf, Hlast, Hrefs, Hcount, Hoffs, !len_app, length_app.
    cbn [length]. change (len [?a; ?b; ?c]) with 3.
    change (len [last_obj (self wd) + 1]) with 1.
    split; [lia|]. left. repeat split; try assumption; lia.
  - destruct (add_page_raise_cases _ _ _ _ _ _ _ _ H) as [[_ ->]|[_ ->]];
      [exact C | now apply allocate_consistent].
Qed.

(** The four ways [close] can go on a world reached from construction. *)
Lemma close_cases (uuid4 : bytes) (wd : world) :
  consistent wd ->
  page_count (self wd) < 1
  /\ close uuid4 wd = (wd, Raise (RuntimeError "No pages added to PDF."))
  \/ len (obj_offsets (self wd)) = last_obj (self wd) + 1
     /\ 4 <= last_obj (self wd)
     /\ 1 <= page_count (self wd)
     /\ close uuid4 wd = (closed_world uuid4 wd, Ok tt)
  \/ len (obj_offsets (self wd)) < last_obj (self wd) + 1
     /\ (exists wd', close uuid4 wd = (wd', Raise AssertionError) /\ behind wd')
  \/ close uuid4 wd
     = (upd (set_last_obj (last_obj (self wd) + 1)) wd,
        Raise (RuntimeError "PDF closed.")).
Proof.
  intros [Hle [(H & Hc & Hr & Ho & H1 & H4)|(H & Hc)]].
  - destruct (Z.lt_ge_cases (page_count (self wd)) 1) as [H0|Hp].
    + left. split; [exact H0 | now apply close_empty].
    + specialize (H4 Hp).
      destruct (Z.eq_dec (len (obj_offsets (self wd))) (last_obj (self wd) + 1))
        as [E|N].
      * right; left. repeat split; try assumption.
        now apply close_open.
      * right; right; left. split; [lia|].
        destruct (close_behind uuid4 wd) as (wd' & Hrun & B & _).
        { repeat split; try assumption; lia. }
        now exists wd'.
  - right; right; right. apply close_closed. now split.
Qed.

Lemma closed_world_ledger (uuid4 : bytes) (wd : world) :
  (1 <= length (obj_offsets (self wd)))%nat ->
  len (obj_offsets (self (closed_world uuid4 wd)))
  = len (obj_offsets (self wd)) + 1.
Proof.
  intros H.
  change (obj_offsets (self (closed_world uuid4 wd))) with (final_offsets wd).
  unfold final_offsets, len.
  rewrite length_backpatch; rewrite length_app; cbn [length]; lia.
Qed.

Lemma close_consistent (uuid4 : bytes) (wd : world) :
  consistent wd -> consistent (fst (close uuid4 wd)).
Proof.
  intros C.
  destruct (close_cases uuid4 wd C)
    as [(_ & ->)|[(E & H4 & Hc & ->)|[(_ & wd' & -> & B)| ->]]]; cbn [fst].
  - exact C.
  - split.
    + rewrite closed_world_ledger by (unfold len in E; lia).
      change (last_obj (self (closed_world uuid4 wd)))
        with (last_obj (self wd) + 1). lia.
    + right. split; [reflexivity | exact Hc].
  - now apply behind_consistent.
  - destruct C as [Hle Hs]. split; [cbn; lia|].
    destruct Hs as [(H & Hc & Hr & Ho & H1 & H4)|(H & Hc)]; [left|right].
    + repeat split; try assumption; cbn; lia.
    + now split.
Qed.

Lemma reached_consistent (wd : world) : reached wd -> consistent wd.
Proof.
  induction 1 as [file | p w h r g wd wd' res _ IH H | uuid4 wd wd' res _ IH H].
  - apply consistent_init.
  - pose proof (add_page_consistent p w h r g wd IH) as C. now rewrite H in C.
  - pose proof (close_consistent uuid4 wd IH) as C. now rewrite H in C.
Qed.

(** C3, amended.  Width, height and resolution are integers.  At every
    point after construction the ledger is at most as long as the last
    allocated identifier plus 1.  It is exactly that long (one slot per
    identifier from 0 to the last one) after construction and as long as
    every call made so far has returned normally or has raised before
    allocating an identifier (a [ValueError] of [add_page], the
    empty-document error of [close]).  A call that raises after allocating
    (an [add_page] that raises anything but a [ValueError], a [close] that
    raises anything but the empty-document error) leaves the ledger
    strictly shorter than the last allocated identifier plus 1, and once it
    is shorter it stays shorter after every later call, whatever that call
    returns or raises. *)
Theorem ledger_length (wd : world) :
  reached wd ->
  len (obj_offsets (self wd)) <= last_obj (self wd) + 1
  /\ (reachable wd -> len (obj_offsets (self wd)) = last_obj (self wd) + 1)
  /\ (forall p width_px height_px resolution grayscale wd' e,
        add_page p width_px height_px resolution grayscale wd = (wd', Raise e) ->
        (forall msg, e <> ValueError msg) ->
        len (obj_offsets (self wd')) < last_obj (self wd') + 1)
  /\ (forall uuid4 wd' e,
        close uuid4 wd = (wd', Raise e) ->
        e <> RuntimeError "No pages added to PDF." ->
        len (obj_offsets (self wd')) < last_obj (self wd') + 1)
  /\ (len (obj_offsets (self wd)) < last_obj (self wd) + 1 ->
      (forall p width_px height_px resolution grayscale wd' r,
         add_page p width_px height_px resolution grayscale wd = (wd', r) ->
         len (obj_offsets (self wd')) < last_obj (self wd') + 1)
      /\ (forall uuid4 wd' r,
            close uuid4 wd = (wd', r) ->
            len (obj_offsets (self wd')) < last_obj (self wd') + 1)).
Proof.
  intros Hr. pose proof (reached_consistent wd Hr) as C.
  pose proof (proj1 C) as Hle.
  split; [exact Hle|]. split; [|split; [|split]].
  - intros Hreach.
    destruct (reachable_shape wd Hreach)
      as [(cs & I)|(cs & wd0 & u & I & Hne & ->)].
    + unfold len. rewrite (inv_len I), (inv_last I). unfold len. lia.
    + change (obj_offsets (self (closed_world u wd0))) with (final_offsets wd0).
      change (last_obj (self (closed_world u wd0)))
        with (last_obj (self wd0) + 1).
      unfold len. rewrite (final_offsets_length cs wd0 I), (inv_last I).
      unfold len. lia.
  - intros p w h r g wd' e H Hne.
    destruct (add_page_raise_cases _ _ _ _ _ _ _ _ H) as [[(msg & ->) _]|[_ ->]];
      [now destruct (Hne msg)|].
    cbn. lia.
  - intros uuid4 wd' e H Hne.
    destruct (close_cases uuid4 wd C)
      as [(_ & E)|[(_ & _ & _ & E)|[(_ & wd2 & E & B)|E]]];
      rewrite E in H; try discriminate.
    + injection H as _ <-. now destruct Hne.
    + injection H as <- _. apply B.
    + injection H as <- _. cbn. lia.
  - intros Hlt. split.
    + intros p w h r g wd' res H.
      destruct res as [[]|e].
      * change (add_page p w h r g wd)
          with (add_page_call {| c_jpegdata := p; c_width_px := w;
                                 c_height_px := h; c_resolution := r;
                                 c_grayscale := g |} wd) in H.
        apply add_page_ok_iff in H as (_ & _ & ->).
        match goal with |- context [page_added ?c wd] =>
          destruct (page_added_self c wd) as (_ & Hlast & _);
          pose proof (page_added_offsets c wd) as Hoffs
        end.
        rewrite Hlast, Hoffs, len_app. change (len [?a; ?b; ?c]) with 3. lia.
      * destruct (add_page_raise_cases _ _ _ _ _ _ _ _ H) as [[_ ->]|[_ ->]];
          [exact Hlt | cbn; lia].
    + intros uuid4 wd' res H.
      destruct (close_cases uuid4 wd C)
        as [(_ & E)|[(E' & _)|[(_ & wd2 & E & B)|E]]];
        try lia; rewrite E in H; injection H as <- _.
      * exact Hlt.
      * apply B.
      * cbn. lia.
Qed.

(** After a valid call the ledger is in step with the identifiers; a call
    that then fails in the conversion to points allocates three identifiers
    without a slot; and after a failed conversion on the fresh writer a
    normal call leaves 5 slots for the identifiers 0 to 7. *)
Lemma ledger_length_witness :
  len (obj_offsets (self (fst (add_page_call sample_call
                                 (fst (__init__ empty_file))))))
  = last_obj (self (fst (add_page_call sample_call
                           (fst (__init__ empty_file))))) + 1
  /\ len (obj_offsets
            (self (fst (add_page_call huge_call
                          (fst (add_page_call sample_call
                                  (fst (__init__ empty_file))))))))
     < last_obj (self (fst (add_page_call huge_call
                              (fst (add_page_call sample_call
                                      (fst (__init__ empty_file))))))) + 1
  /\ len (obj_offsets
            (self (fst (add_page_call sample_call
                          (fst (add_page_call huge_call
                                  (fst (__init__ empty_file))))))))
     < last_obj (self (fst (add_page_call sample_call
                              (fst (add_page_call huge_call
                                      (fst (__init__ empty_file))))))) + 1.
Proof.
  assert (R1 : reached (fst (add_page_call sample_call
                               (fst (__init__ empty_file))))).
  { apply (reached_add_page (Str sample_jpeg) 800 600 150 false
             (fst (__init__ empty_file)) _ (Ok tt) (reached_init empty_file)).
    vm_compute. reflexivity. }
  assert (R2 : reached (fst (add_page_call huge_call
                               (fst (__init__ empty_file))))).
  { apply (reached_add_page (Str sample_jpeg) (2 ^ 1024) 600 72 false
             (fst (__init__ empty_file)) _
             (Raise (OverflowError "long int too large to convert to float"))
             (reached_init empty_file)).
    vm_compute. reflexivity. }
  destruct (ledger_length _ R1) as (_ & Heq & Hraise & _).
  destruct (ledger_length _ R2) as (_ & _ & _ & _ & Hstay).
  split; [|split].
  - apply Heq.
    apply (reach_add_page (Str sample_jpeg) 800 600 150 false
             (fst (__init__ empty_file)) _ (reach_init empty_file)).
    vm_compute. reflexivity.
  - apply (Hraise (Str sample_jpeg) (2 ^ 1024) 600 72 false _
             (OverflowError "long int too large to convert to float")).
    + vm_compute. reflexivity.
    + discriminate.
  - apply (proj1 (Hstay ltac:(vm_compute; reflexivity))
             (Str sample_jpeg) 800 600 150 false _ (Ok tt)).
    vm_compute. reflexivity.
Defined.

(** C3 as stated fails right after construction: the ledger holds the two
    reserved slots while the last allocated identifier is 1. *)
Lemma ledger_length_after_init :
  len (obj_offsets (self (fst (__init__ empty_file)))) = 2
  /\ last_obj (self (fst (__init__ empty_file))) + 2 = 3
  /\ len (obj_offsets (self (fst (__init__ empty_file))))
     <> last_obj (self (fst (__init__ empty_file))) + 2.
Proof. repeat split. discriminate. Qed.
